(** * Minesweeper board engine and game reducer

    A shallow embedding of [src/lib/minesweeper.ts] (the board engine), of
    the [reducer] of [src/components/Game.tsx] (the game state machine)
    and of what [src/components/Cell.tsx], [src/components/Board.tsx] and
    [src/components/HUD.tsx] compute from a state (the actions of the
    clicks, the rendering of a cell, the two displays), followed by the
    properties of the engine that the specification states and by further
    properties of the engine, of the games and of the displays.

    Conventions of the embedding.
    - A JavaScript [number] holding an index or a count is a [Z].
    - A [Board] is a list of rows; [board[r][c]] is [cellAt].
    - Reading a property of [undefined] throws a [TypeError] in JavaScript;
      a function that can do so returns an [outcome].
    - [Math.random] is an oracle handed to the functions that draw from it. *)

From stdpp Require Import base list gmap strings pretty.
From Stdlib Require Import ZArith Lia.

Local Open Scope Z_scope.

(* ================================================================= *)
(** ** Outcomes of a call *)

(** [Ok] is normal completion, [TypeError] the exception raised by a
    property read on [undefined].  [OutOfFuel] belongs to the embedding
    only: the [while] loop of [revealCell] is run with a bound, and
    [revealCell_never_OutOfFuel] shows that the bound is never reached
    ([reducer_fueled]: no move returns it either). *)
Inductive outcome (A : Type) : Type :=
| Ok (a : A)
| TypeError
| OutOfFuel.

Arguments Ok {A} a.
Arguments TypeError {A}.
Arguments OutOfFuel {A}.

Definition bind {A B : Type} (m : outcome A) (k : A → outcome B) : outcome B :=
  match m with
  | Ok a => k a
  | TypeError => TypeError
  | OutOfFuel => OutOfFuel
  end.

Notation "'do' x <- m ; k" := (bind m (fun x => k))
  (at level 10, x pattern, m at level 100, k at level 200).

(* ================================================================= *)
(** ** Types *)

Record CellState : Type := mkCell {
  isMine : bool;
  isRevealed : bool;
  isFlagged : bool;
  adjacentMines : Z
}.

Abbreviation Board := (list (list CellState)).

Inductive GameStatus : Type := idle | playing | won | lost.

Inductive Difficulty : Type := beginner | intermediate | expert.

Record GameState : Type := mkState {
  board : Board;
  status : GameStatus;
  difficulty : Difficulty;
  flagCount : Z;
  elapsed : Z;
  startTime : option Z;
  losingCell : option (Z * Z)
}.

#[global] Instance GameStatus_eq_dec : EqDecision GameStatus.
Proof. solve_decision. Defined.

(* ================================================================= *)
(** ** Constants *)

Record Dimensions : Type := mkDims { rows : nat; cols : nat; mines : Z }.

Definition DIFFICULTIES (d : Difficulty) : Dimensions :=
  match d with
  | beginner => mkDims 9 9 10
  | intermediate => mkDims 16 16 40
  | expert => mkDims 16 30 99
  end.

(* ================================================================= *)
(** ** Reading the board *)

(** [board[r]]: [undefined] unless [r] is an index of the array. *)
Definition rowAt (b : Board) (r : Z) : option (list CellState) :=
  if decide (0 ≤ r) then b !! Z.to_nat r else None.

(** [board[r][c]] where it is defined. *)
Definition cellAt (b : Board) (r c : Z) : option CellState :=
  match rowAt b r with
  | Some row => if decide (0 ≤ c) then row !! Z.to_nat c else None
  | None => None
  end.

(** [board[r][c]] followed by a property read: throws when the row or the
    cell is [undefined]. *)
Definition readCell (b : Board) (r c : Z) : outcome CellState :=
  match cellAt b r c with
  | Some cell => Ok cell
  | None => TypeError
  end.

(* ================================================================= *)
(** ** Pure helpers *)

Definition makeCell : CellState := mkCell false false false 0.

(** The body of the two nested [for] loops of [neighbors], for one pair
    of offsets. *)
Definition neighborAt (nrows ncols row col dr dc : Z) : list (Z * Z) :=
  if bool_decide (dr = 0 ∧ dc = 0) then []
  else
    let r := row + dr in
    let c := col + dc in
    if bool_decide (0 ≤ r ∧ r < nrows ∧ 0 ≤ c ∧ c < ncols) then [(r, c)] else [].

(** Returns all valid [(r, c)] neighbors of [(row, col)].  [board[0].length]
    throws on a board without rows. *)
Definition neighbors (b : Board) (row col : Z) : outcome (list (Z * Z)) :=
  match b with
  | [] => TypeError
  | row0 :: _ =>
      let nrows := Z.of_nat (length b) in
      let ncols := Z.of_nat (length row0) in
      Ok (flat_map (λ dr, flat_map (λ dc, neighborAt nrows ncols row col dr dc)
                                   [-1; 0; 1])
                   [-1; 0; 1])
  end.

(* ================================================================= *)
(** ** Board construction *)

Definition makeEmptyBoard (nrows ncols : nat) : Board :=
  replicate nrows (replicate ncols makeCell).

(* ================================================================= *)
(** ** Mine placement *)

Definition withMine (cell : CellState) (m : bool) : CellState :=
  mkCell m (isRevealed cell) (isFlagged cell) (adjacentMines cell).

(** [[l[i], l[j]] = [l[j], l[i]]]: the right-hand side is read first, then
    [l[i]] and [l[j]] are written in this order.  The loop only swaps
    indices of the array, the other branch is never taken. *)
Definition swap (l : list Z) (i j : nat) : list Z :=
  match l !! i, l !! j with
  | Some a, Some b => <[j := a]> (<[i := b]> l)
  | _, _ => l
  end.

(** The Fisher-Yates loop, [for (i = length - 1; i > 0; i--)].  The draw
    [Math.floor(Math.random() * (i + 1))] is an integer of [0..i]; it is
    taken from the oracle [rnd], indexed by [i], and reduced into that
    interval. *)
Fixpoint fisherYates (rnd : nat → nat) (i : nat) (l : list Z) : list Z :=
  match i with
  | O => l
  | S i' => let j := (rnd i `mod` (i + 1))%nat in fisherYates rnd i' (swap l i j)
  end.

(** [l.slice(0, e)]: a negative [e] counts from the end of the array. *)
Definition slice0 (l : list Z) (e : Z) : list Z :=
  if decide (e < 0) then take (Z.to_nat (Z.of_nat (length l) + e)) l
  else take (Z.to_nat e) l.

(** The exclusion set of [placeMines]: the safe cell and its neighbors, as
    row-major positions. *)
Definition exclusion (ncols safeRow safeCol : Z) (nbrs : list (Z * Z)) : gset Z :=
  foldl (λ (s : gset Z) '(r, c), s ∪ {[ r * ncols + c ]})
        {[ safeRow * ncols + safeCol ]} nbrs.

(** Randomly place [nmines] mines on the board, avoiding [safeRow]/[safeCol]
    and all 8 of its neighbors. *)
Definition placeMines (rnd : nat → nat) (b : Board) (nmines safeRow safeCol : Z)
  : outcome Board :=
  match b with
  | [] => TypeError
  | row0 :: _ =>
      let nrows := Z.of_nat (length b) in
      let ncols := Z.of_nat (length row0) in
      do nbrs <- neighbors b safeRow safeCol;
      let excluded := exclusion ncols safeRow safeCol nbrs in
      let candidates := filter (λ i, i ∉ excluded) (seqZ 0 (nrows * ncols)) in
      let shuffled := fisherYates rnd (length candidates - 1)%nat candidates in
      let mineSet : gset Z := list_to_set (slice0 shuffled nmines) in
      Ok (imap (λ r row,
                  imap (λ c cell,
                          withMine cell
                            (bool_decide (Z.of_nat r * ncols + Z.of_nat c ∈ mineSet)))
                       row)
               b)
  end.

(* ================================================================= *)
(** ** Adjacency counts *)

Definition withAdjacent (cell : CellState) (n : Z) : CellState :=
  mkCell (isMine cell) (isRevealed cell) (isFlagged cell) n.

(** [l.map((x, i) => f(i, x))] for a callback that may throw; [i] is the
    index of the first element. *)
Fixpoint mapIndexed {A B : Type} (f : Z → A → outcome B) (i : Z) (l : list A)
  : outcome (list B) :=
  match l with
  | [] => Ok []
  | x :: l' =>
      do y <- f i x;
      do ys <- mapIndexed f (i + 1) l';
      Ok (y :: ys)
  end.

(** [nbrs.filter(([nr, nc]) => board[nr][nc].isMine).length] *)
Fixpoint countMines (b : Board) (nbrs : list (Z * Z)) : outcome Z :=
  match nbrs with
  | [] => Ok 0
  | (nr, nc) :: rest =>
      do cell <- readCell b nr nc;
      do n <- countMines b rest;
      Ok (if isMine cell then n + 1 else n)
  end.

(** Fill [adjacentMines] for every cell based on current mine positions. *)
Definition computeAdjacent (b : Board) : outcome Board :=
  mapIndexed (λ r row,
    mapIndexed (λ c cell,
      if isMine cell then Ok (withAdjacent cell 0)
      else
        do nbrs <- neighbors b r c;
        do count <- countMines b nbrs;
        Ok (withAdjacent cell count))
      0 row)
    0 b.

(* ================================================================= *)
(** ** Reveal *)

Definition markRevealed (cell : CellState) : CellState :=
  mkCell (isMine cell) true (isFlagged cell) (adjacentMines cell).

(** [next[r][c].isRevealed = true], executed after [next[r][c]] was read. *)
Definition setRevealed (next : Board) (r c : Z) : Board :=
  alter (alter markRevealed (Z.to_nat c)) (Z.to_nat r) next.

(** The [for] loop over the neighbors of a dequeued zero cell: every
    neighbor that is neither revealed nor flagged is revealed and pushed
    at the end of the queue. *)
Fixpoint floodNeighbors (next : Board) (queue nbrs : list (Z * Z))
  : outcome (Board * list (Z * Z)) :=
  match nbrs with
  | [] => Ok (next, queue)
  | (nr, nc) :: rest =>
      do cell <- readCell next nr nc;
      if negb (isRevealed cell) && negb (isFlagged cell)
      then floodNeighbors (setRevealed next nr nc) (queue ++ [(nr, nc)]) rest
      else floodNeighbors next queue rest
  end.

(** The [while (queue.length > 0)] loop; [queue.shift()] takes the head. *)
Fixpoint floodLoop (fuel : nat) (next : Board) (queue : list (Z * Z))
  : outcome Board :=
  match queue with
  | [] => Ok next
  | (r, c) :: queue' =>
      match fuel with
      | O => OutOfFuel
      | S fuel' =>
          do cell <- readCell next r c;
          if bool_decide (adjacentMines cell = 0) && negb (isMine cell)
          then
            do nbrs <- neighbors next r c;
            do st <- floodNeighbors next queue' nbrs;
            floodLoop fuel' st.1 st.2
          else floodLoop fuel' next queue'
      end
  end.

(** Number of cells of the board that are not revealed. *)
Definition hiddenRow (row : list CellState) : nat :=
  length (filter (λ cell, isRevealed cell = false) row).

Definition hiddenCount (b : Board) : nat :=
  sum_list (hiddenRow <$> b).

(** Reveal cell [(row, col)].  If it has 0 adjacent mines flood-fill BFS to
    reveal all connected zero-adjacent cells and their numbered borders.
    Does nothing if the cell is already revealed or flagged.  The copy
    [next] of the board is a value here; every pass of the loop that
    pushes [k] cells reveals [k] hidden cells and removes one cell from
    the queue, so [hiddenCount board] passes are enough. *)
Definition revealCell (b : Board) (row col : Z) : outcome Board :=
  do cell <- readCell b row col;
  if isRevealed cell || isFlagged cell then Ok b
  else
    let next := setRevealed b row col in
    floodLoop (hiddenCount b) next [(row, col)].

(* ================================================================= *)
(** ** Flags *)

Definition flipFlag (cell : CellState) : CellState :=
  mkCell (isMine cell) (isRevealed cell) (negb (isFlagged cell)) (adjacentMines cell).

(** Toggle flag on an unrevealed cell. No-op if already revealed. *)
Definition toggleFlag (b : Board) (row col : Z) : outcome Board :=
  do cell <- readCell b row col;
  if isRevealed cell then Ok b
  else
    Ok (imap (λ ri r,
                imap (λ ci c,
                        if bool_decide (Z.of_nat ri = row ∧ Z.of_nat ci = col)
                        then flipFlag c else c)
                     r)
             b).

(* ================================================================= *)
(** ** Chord reveal *)

(** [nbrs.filter(([r, c]) => board[r][c].isFlagged).length] *)
Fixpoint countFlags (b : Board) (nbrs : list (Z * Z)) : outcome Z :=
  match nbrs with
  | [] => Ok 0
  | (r, c) :: rest =>
      do cell <- readCell b r c;
      do n <- countFlags b rest;
      Ok (if isFlagged cell then n + 1 else n)
  end.

(** The [for] loop of [chordReveal]: the test reads the board the call was
    given, the reveal works on the board built so far. *)
Fixpoint chordLoop (b next : Board) (nbrs : list (Z * Z)) : outcome Board :=
  match nbrs with
  | [] => Ok next
  | (r, c) :: rest =>
      do cell <- readCell b r c;
      if negb (isFlagged cell) && negb (isRevealed cell)
      then do next' <- revealCell next r c; chordLoop b next' rest
      else chordLoop b next rest
  end.

(** Chord reveal: if the number of flags around [(row, col)] equals
    [adjacentMines], reveal all un-flagged neighbors.  Returns the board
    unchanged if the conditions are not met. *)
Definition chordReveal (b : Board) (row col : Z) : outcome Board :=
  do cell <- readCell b row col;
  if negb (isRevealed cell) || bool_decide (adjacentMines cell = 0) then Ok b
  else
    do nbrs <- neighbors b row col;
    do flagged <- countFlags b nbrs;
    if bool_decide (flagged ≠ adjacentMines cell) then Ok b
    else chordLoop b b nbrs.

(* ================================================================= *)
(** ** End of game *)

(** The two counters of [checkWin] after the nested loops. *)
Definition countCells (b : Board) : Z * Z :=
  foldl (λ acc row,
           foldl (λ '(revealed, total) cell,
                    (if isRevealed cell then revealed + 1 else revealed, total + 1))
                 acc row)
        (0, 0) b.

(** Returns true when every non-mine cell has been revealed. *)
Definition checkWin (b : Board) (totalMines : Z) : bool :=
  let '(revealed, total) := countCells b in
  bool_decide (revealed = total - totalMines).

(** Reveal all mines (called on loss). *)
Definition revealAllMines (b : Board) : Board :=
  (λ row : list CellState,
     (λ cell, if isMine cell then markRevealed cell else cell) <$> row) <$> b.

(* ================================================================= *)
(** ** The game reducer *)

Inductive Action : Type :=
| REVEAL (row col : Z)
| FLAG (row col : Z)
| CHORD (row col : Z)
| NEW_GAME
| SET_DIFFICULTY (d : Difficulty)
| TICK.

Definition makeInitialState (d : Difficulty) : GameState :=
  let dims := DIFFICULTIES d in
  mkState (makeEmptyBoard (rows dims) (cols dims)) idle d 0 0 None None.

(** The inner [for] loop of the scan of the [CHORD] case, over the cells
    of row [r] from column [c] on. *)
Fixpoint scanRow (row : list CellState) (r c : Z) : option (Z * Z) :=
  match row with
  | [] => None
  | cell :: rest =>
      if isMine cell && isRevealed cell then Some (r, c)
      else scanRow rest r (c + 1)
  end.

(** The outer [for] loop of the scan, over the rows from row [r] on: the
    first cell, rows first, that is a revealed mine. *)
Fixpoint scanBoard (b : Board) (r : Z) : option (Z * Z) :=
  match b with
  | [] => None
  | row :: rest =>
      match scanRow row r 0 with
      | Some p => Some p
      | None => scanBoard rest (r + 1)
      end
  end.

Definition withBoard (s : GameState) (b : Board) (st : GameStatus) : GameState :=
  mkState b st (difficulty s) (flagCount s) (elapsed s) (startTime s) (losingCell s).

Definition lostState (s : GameState) (b : Board) (p : Z * Z) : GameState :=
  mkState (revealAllMines b) lost (difficulty s) (flagCount s) (elapsed s)
          (startTime s) (Some p).

(** [reducer(state, action)]; [rnd] is the random oracle of the mine
    placement that a first [REVEAL] triggers. *)
Definition reducer (rnd : nat → nat) (state : GameState) (action : Action)
  : outcome GameState :=
  match action with
  | NEW_GAME => Ok (makeInitialState (difficulty state))
  | SET_DIFFICULTY d => Ok (makeInitialState d)
  | TICK =>
      if bool_decide (status state ≠ playing) then Ok state
      else Ok (mkState (board state) (status state) (difficulty state)
                       (flagCount state) (elapsed state + 1) (startTime state)
                       (losingCell state))
  | FLAG row col =>
      if bool_decide (status state = won ∨ status state = lost) then Ok state
      else
        do cell <- readCell (board state) row col;
        if isRevealed cell then Ok state
        else
          let wasIdle := bool_decide (status state = idle) in
          do newBoard <- toggleFlag (board state) row col;
          do newCell <- readCell newBoard row col;
          let delta := if isFlagged newCell then 1 else -1 in
          Ok (mkState newBoard (if wasIdle then playing else status state)
                      (difficulty state) (flagCount state + delta) (elapsed state)
                      (startTime state) (losingCell state))
  | REVEAL row col =>
      if bool_decide (status state = won ∨ status state = lost) then Ok state
      else
        do cell <- readCell (board state) row col;
        if isRevealed cell || isFlagged cell then Ok state
        else
          do placed <-
            (if bool_decide (status state = idle)
             then
               do b1 <- placeMines rnd (board state)
                                   (mines (DIFFICULTIES (difficulty state))) row col;
               do b2 <- computeAdjacent b1;
               Ok (b2, playing)
             else Ok (board state, status state));
          do b <- revealCell placed.1 row col;
          do hit <- readCell b row col;
          if isMine hit then Ok (lostState state b (row, col))
          else if checkWin b (mines (DIFFICULTIES (difficulty state)))
               then Ok (withBoard state b won)
               else Ok (withBoard state b placed.2)
  | CHORD row col =>
      if bool_decide (status state ≠ playing) then Ok state
      else
        do b <- chordReveal (board state) row col;
        match scanBoard b 0 with
        | Some p => Ok (lostState state b p)
        | None =>
            if checkWin b (mines (DIFFICULTIES (difficulty state)))
            then Ok (withBoard state b won)
            else Ok (withBoard state b (status state))
        end
  end.

(* ================================================================= *)
(** ** The clicks on a cell

    [src/components/Cell.tsx] turns a click on the cell at [(row, col)]
    into a call of [onReveal], [onFlag] or [onChord], which
    [src/components/Game.tsx] turns into the action of the same name; a
    click that dispatches nothing is [None]. *)

(** [gameOver], as [Game] hands it to the board. *)
Definition gameOver (s : GameState) : bool :=
  bool_decide (status s = won) || bool_decide (status s = lost).

Definition handleClick (over : bool) (cell : CellState) (row col : Z)
  : option Action :=
  if over then None
  else if negb (isRevealed cell) && negb (isFlagged cell)
       then Some (REVEAL row col)
       else if isRevealed cell && bool_decide (0 < adjacentMines cell)
            then Some (CHORD row col)
            else None.

Definition handleRightClick (over : bool) (cell : CellState) (row col : Z)
  : option Action :=
  if over || isRevealed cell then None else Some (FLAG row col).

(* ================================================================= *)
(** ** The rendering of a cell

    [isLosingCell] as [src/components/Board.tsx] hands it to the cell,
    the CSS class and the content that [src/components/Cell.tsx] picks. *)

Definition isLosingCell (losing : option (Z * Z)) (r c : Z) : bool :=
  match losing with
  | Some (lr, lc) => bool_decide (lr = r) && bool_decide (lc = c)
  | None => false
  end.

Inductive CellClass := cell_unrev | cell_rev | cell_mine_loss.

Definition cellClass (cell : CellState) (losing : bool) : CellClass :=
  if isRevealed cell then (if losing then cell_mine_loss else cell_rev)
  else cell_unrev.

(** The content of the button: nothing, the flag, the bomb, or the count
    of the cell. *)
Inductive Content := noContent | flagIcon | mineIcon | numberOf (n : Z).

Definition content (cell : CellState) : Content :=
  if isFlagged cell && negb (isRevealed cell) then flagIcon
  else if isRevealed cell
       then if isMine cell then mineIcon
            else if bool_decide (0 < adjacentMines cell)
                 then numberOf (adjacentMines cell)
                 else noContent
       else noContent.

(* ================================================================= *)
(** ** The displays of the HUD

    [src/components/HUD.tsx].  The numbers it is given are integers;
    [String(n)] is the decimal notation of [n], as [pretty]. *)

(** [s.padStart(n, "0")]. *)
Definition padStart (s : string) (n : nat) : string :=
  Nat.iter (n - String.length s) (λ t, "0" +:+ t) s.

Definition pad3 (n : Z) : string :=
  padStart (pretty (Z.min 999 (Z.max 0 n))) 3.

(** [Math.floor(s / 60)] is the quotient rounded down, [s % 60] the
    remainder with the sign of [s]. *)
Definition formatTime (seconds : Z) : string :=
  let s := Z.min 999 seconds in
  let mm := padStart (pretty (s / 60)) 2 in
  let ss := padStart (pretty (Z.rem s 60)) 2 in
  mm +:+ ":" +:+ ss.

(** [minesRemaining], as [Game] hands it to the HUD. *)
Definition minesRemaining (s : GameState) : Z :=
  mines (DIFFICULTIES (difficulty s)) - flagCount s.

(* ================================================================= *)
(** ** Vocabulary of the properties *)

(** *** Boards *)

(** A board with at least one row whose rows all have the length of the
    first one: the boards that [makeEmptyBoard] builds. *)
Definition rectangular (b : Board) : Prop :=
  match b with
  | [] => False
  | row0 :: _ => Forall (λ row : list CellState, length row = length row0) b
  end.

(** The lengths of the rows: two boards of the same shape have the same
    coordinates. *)
Definition shape (b : Board) : list nat := length <$> b.

(** Cells of the board, in row-major order. *)
Definition cells (b : Board) : list CellState := concat b.

Definition mineCells (b : Board) : nat :=
  length (filter (λ cell, isMine cell = true) (cells b)).

Definition revealedCells (b : Board) : nat :=
  length (filter (λ cell, isRevealed cell = true) (cells b)).

Definition flaggedCells (b : Board) : nat :=
  length (filter (λ cell, isFlagged cell = true) (cells b)).

(** The coordinates of the cells of a board, in row-major order. *)
Fixpoint rowCoords (r c : Z) (row : list CellState) : list (Z * Z) :=
  match row with
  | [] => []
  | _ :: rest => (r, c) :: rowCoords r (c + 1) rest
  end.

Fixpoint coordsFrom (r : Z) (b : Board) : list (Z * Z) :=
  match b with
  | [] => []
  | row :: rest => rowCoords r 0 row ++ coordsFrom (r + 1) rest
  end.

Definition coords (b : Board) : list (Z * Z) := coordsFrom 0 b.

(** Row-major order of the coordinates. *)
Definition before (p q : Z * Z) : Prop :=
  p.1 < q.1 ∨ (p.1 = q.1 ∧ p.2 < q.2).

(** Two distinct coordinates at distance at most one in each direction. *)
Definition adjacent (p q : Z * Z) : Prop :=
  p ≠ q ∧ -1 ≤ q.1 - p.1 ≤ 1 ∧ -1 ≤ q.2 - p.2 ≤ 1.

(** The positions where [placeMines] may put a mine: the coordinates of
    the board outside the exclusion zone of the safe cell. *)
Definition eligible (b : Board) (safeRow safeCol : Z) : list (Z * Z) :=
  filter (λ q, q ≠ (safeRow, safeCol) ∧ ¬ adjacent (safeRow, safeCol) q)
         (coords b).

(** *** Floods *)

(** A cell from which the flood fill goes on: zero count and no mine. *)
Definition zeroCell (cell : CellState) : Prop :=
  adjacentMines cell = 0 ∧ isMine cell = false.

(** A cell that the flood fill may reveal: neither revealed nor flagged. *)
Definition coveredCell (cell : CellState) : Prop :=
  isRevealed cell = false ∧ isFlagged cell = false.

(** A coordinate of a cell of the board that is neither revealed nor
    flagged, as a proposition and as a test. *)
Definition coveredAt (b : Board) (q : Z * Z) : Prop :=
  ∃ x, cellAt b q.1 q.2 = Some x ∧ coveredCell x.

Definition isCoveredAt (b : Board) (q : Z * Z) : bool :=
  match cellAt b q.1 q.2 with
  | Some x => negb (isFlagged x) && negb (isRevealed x)
  | None => false
  end.

(** The flag of the cell at a coordinate, false outside the board. *)
Definition isFlaggedAt (b : Board) (q : Z * Z) : bool :=
  match cellAt b q.1 q.2 with
  | Some x => isFlagged x
  | None => false
  end.

(** The cells that a flood fill from [start] reaches: [start], and every
    covered neighbor of a reached zero cell. *)
Inductive floods (b : Board) (start : Z * Z) : Z * Z → Prop :=
| floods_start : floods b start start
| floods_step p q cp cq :
    floods b start p →
    cellAt b p.1 p.2 = Some cp → zeroCell cp →
    adjacent p q →
    cellAt b q.1 q.2 = Some cq → coveredCell cq →
    floods b start q.

(** The connected zero region of [start]: the cells joined to [start] by a
    chain of neighboring zero cells, whatever their flags. *)
Inductive zeroRegion (b : Board) (start : Z * Z) : Z * Z → Prop :=
| zeroRegion_start : zeroRegion b start start
| zeroRegion_step p q cq :
    zeroRegion b start p →
    adjacent p q →
    cellAt b q.1 q.2 = Some cq → zeroCell cq →
    zeroRegion b start q.

(** The region together with its border: the cells of the region and
    their neighbors on the board. *)
Definition regionOrBorder (b : Board) (start q : Z * Z) : Prop :=
  zeroRegion b start q ∨
  ∃ p, zeroRegion b start p ∧ adjacent p q ∧ is_Some (cellAt b q.1 q.2).

(** The state of the loop of [revealCell] on the board [b0], started at
    [start]: [next] is [b0] with the cells of [vis] revealed, every cell
    of [vis] is reached by the flood, the queue holds cells of [vis], and
    a zero cell of [vis] that left the queue has all its covered neighbors
    in [vis]. *)
Definition floodInv (b0 : Board) (start : Z * Z)
    (next : Board) (queue vis : list (Z * Z)) : Prop :=
  shape next = shape b0 ∧
  (∀ r c, cellAt next r c =
            if decide ((r, c) ∈ vis) then markRevealed <$> cellAt b0 r c
            else cellAt b0 r c) ∧
  (∀ p, p ∈ vis → floods b0 start p) ∧
  start ∈ vis ∧
  (∀ p, p ∈ queue → p ∈ vis) ∧
  (∀ p q cp cq,
     p ∈ vis → p ∉ queue →
     cellAt b0 p.1 p.2 = Some cp → zeroCell cp →
     adjacent p q →
     cellAt b0 q.1 q.2 = Some cq → coveredCell cq →
     q ∈ vis).

(** [revealCell] at each coordinate of a list, one after the other. *)
Fixpoint revealEach (b : Board) (qs : list (Z * Z)) : outcome Board :=
  match qs with
  | [] => Ok b
  | (r, c) :: rest => do b' <- revealCell b r c; revealEach b' rest
  end.

(** *** Boards before and after an operation *)

(** The cells of [b'] are those of [b], related position by position. *)
Definition boardRel (R : CellState → CellState → Prop) (b b' : Board) : Prop :=
  Forall2 (Forall2 R) b b'.

(** What a cell keeps when it is revealed. *)
Definition sameButRevealed (x y : CellState) : Prop :=
  isMine y = isMine x ∧ isFlagged y = isFlagged x ∧
  adjacentMines y = adjacentMines x.

(** What placing mines, counting neighbors and revealing do to a cell:
    the flag stays, a revealed cell stays revealed, and a cell is only
    revealed if it carries no flag. *)
Definition cellAdvance (x y : CellState) : Prop :=
  isFlagged y = isFlagged x ∧
  (isRevealed x = true → isRevealed y = true) ∧
  (isRevealed y = true → isRevealed x = true ∨ isFlagged x = false).

(** What the end of a lost game does to a cell: as [cellAdvance], but a
    flagged cell may be revealed. *)
Definition cellReveal (x y : CellState) : Prop :=
  isFlagged y = isFlagged x ∧ (isRevealed x = true → isRevealed y = true).

(** What a sequence of reveals does to a cell: only [isRevealed] changes,
    from false to true, and never on a flagged cell. *)
Definition cellUncover (x y : CellState) : Prop :=
  sameButRevealed x y ∧ cellAdvance x y.

(** No cell is both revealed and flagged. *)
Definition noRevealedFlag (b : Board) : Prop :=
  ∀ r c cell, cellAt b r c = Some cell →
    ¬ (isRevealed cell = true ∧ isFlagged cell = true).

(** No revealed cell of [b] is hidden in [b']. *)
Definition staysRevealed (b b' : Board) : Prop :=
  ∀ r c cell, cellAt b r c = Some cell → isRevealed cell = true →
    ∃ cell', cellAt b' r c = Some cell' ∧ isRevealed cell' = true.

(** What an operation keeps: no revealed cell of [b] is hidden in [b'],
    and the board [b'] has no cell both revealed and flagged if [b] has
    none. *)
Definition keepsInvariant (b b' : Board) : Prop :=
  staysRevealed b b' ∧ (noRevealedFlag b → noRevealedFlag b').

(** *** Games *)

(** The states of a game: an initial state, and the states that the
    reducer returns from them, whatever the moves and the random draws. *)
Inductive reachable : GameState → Prop :=
| reachable_init d : reachable (makeInitialState d)
| reachable_step rnd s a s' :
    reachable s → reducer rnd s a = Ok s' → reachable s'.

(** A move at a coordinate of the board of the state, or without one. *)
Definition inBounds (s : GameState) (a : Action) : Prop :=
  match a with
  | REVEAL r c | FLAG r c | CHORD r c => is_Some (cellAt (board s) r c)
  | NEW_GAME | SET_DIFFICULTY _ | TICK => True
  end.

(** The moves that start a new game. *)
Definition isReset (a : Action) : Prop :=
  match a with
  | NEW_GAME | SET_DIFFICULTY _ => True
  | _ => False
  end.

#[global] Instance isReset_dec (a : Action) : Decision (isReset a).
Proof. destruct a; simpl; apply _. Defined.

(** The moves of a list, one after the other. *)
Fixpoint play (rnd : nat → nat) (s : GameState) (moves : list Action)
  : outcome GameState :=
  match moves with
  | [] => Ok s
  | a :: rest => do s' <- reducer rnd s a; play rnd s' rest
  end.

(** *** Boards and games of the examples *)

(** A covered zero cell carrying a flag; a mine carrying a flag. *)
Definition flaggedCell : CellState := mkCell false false true 0.

Definition flaggedMine : CellState := mkCell true false true 0.

(** A row of three zero cells whose middle cell is flagged. *)
Definition flagInTheMiddle : Board := [[makeCell; flaggedCell; makeCell]].

(** A row of five zero cells whose middle cell is revealed. *)
Definition revealedInTheMiddle : Board :=
  [[makeCell; makeCell; markRevealed makeCell; makeCell; makeCell]].

(** A row of a flagged mine, a revealed cell of count one and a covered
    cell. *)
Definition chordRow : Board :=
  [[flaggedMine; mkCell false true false 1; makeCell]].

(** A row of a flagged cell without a mine, a revealed cell of count one
    and a covered mine; the playing state on it; the board after a chord
    on its middle cell. *)
Definition chordLossRow : Board :=
  [[mkCell false false true 1; mkCell false true false 1; mkCell true false false 0]].

Definition chordState : GameState :=
  mkState chordLossRow playing beginner 1 0 None None.

Definition chordLossBoard : Board :=
  [[mkCell false false true 1; mkCell false true false 1; mkCell true true false 0]].

(** A lost state. *)
Definition lostExample : GameState :=
  mkState [[mkCell true true false 0]] lost beginner 0 3 None (Some (0, 0)).

(** Random draws under which the first reveal of a beginner game, in the
    corner, does not end the game. *)
Definition halves : nat → nat := λ i, (i / 2)%nat.

(** Ten flags on a new board, then a reveal in the opposite corner. *)
Definition tenFlagsThenReveal : list Action :=
  [FLAG 0 0; FLAG 0 1; FLAG 0 2; FLAG 0 3; FLAG 0 4; FLAG 0 5; FLAG 0 6;
   FLAG 0 7; FLAG 0 8; FLAG 1 0; REVEAL 8 8].

(** *** Counts of neighboring mines *)

(** The mine of the cell at a coordinate, false outside the board. *)
Definition isMineAt (b : Board) (q : Z * Z) : bool :=
  match cellAt b q.1 q.2 with
  | Some x => isMine x
  | None => false
  end.

(** The number of cells of the board that are adjacent to [p] and hold a
    mine. *)
Definition mineNeighbors (b : Board) (p : Z * Z) : nat :=
  length (filter (λ q, adjacent p q ∧ isMineAt b q = true) (coords b)).

(** A board whose counts are those of its mines: zero on a mine, the
    number of neighboring mines elsewhere. *)
Definition countsComputed (b : Board) : Prop :=
  ∀ r c x, cellAt b r c = Some x →
    adjacentMines x =
    if isMine x then 0 else Z.of_nat (mineNeighbors b (r, c)).

(** A board of two rows with a mine in its first corner, without counts
    and with them. *)
Definition mineInTheCornerBare : Board :=
  [[mkCell true false false 0; makeCell; makeCell];
   [makeCell; makeCell; makeCell]].

Definition mineInTheCorner : Board :=
  [[mkCell true false false 0; mkCell false false false 1; makeCell];
   [mkCell false false false 1; mkCell false false false 1; makeCell]].

(** *** Invariants of a game *)

(** No mine of the board is revealed. *)
Definition noRevealedMine (b : Board) : Prop :=
  ∀ r c x, cellAt b r c = Some x → ¬ (isMine x = true ∧ isRevealed x = true).

(** What flagging and revealing keep of a cell: its mine and its count. *)
Definition sameMines (x y : CellState) : Prop :=
  isMine y = isMine x ∧ adjacentMines y = adjacentMines x.

(** What every state of a game satisfies. *)
Record gameInv (s : GameState) : Prop := mkGameInv {
  inv_shape :
    shape (board s) =
    replicate (rows (DIFFICULTIES (difficulty s)))
              (cols (DIFFICULTIES (difficulty s)));
  inv_startTime : startTime s = None;
  inv_elapsed : 0 ≤ elapsed s;
  inv_losingCell : is_Some (losingCell s) ↔ status s = lost;
  inv_counts : countsComputed (board s);
  inv_mines :
    mineCells (board s) = 0%nat ∨
    Z.of_nat (mineCells (board s)) = mines (DIFFICULTIES (difficulty s));
  inv_hidden : status s ≠ lost → noRevealedMine (board s);
  inv_won :
    status s = won →
    checkWin (board s) (mines (DIFFICULTIES (difficulty s))) = true;
  inv_lostCell :
    ∀ p, losingCell s = Some p →
      ∃ x, cellAt (board s) p.1 p.2 = Some x ∧
           isMine x = true ∧ isRevealed x = true;
  inv_lostAll :
    status s = lost →
    ∀ r c x, cellAt (board s) r c = Some x → isMine x = true →
      isRevealed x = true
}.

(** *** Displays *)

(** The character of a decimal digit, and the numbers of two and three
    digits written with their leading zeros. *)
Definition digit (d : Z) : string :=
  String (Ascii.ascii_of_nat (48 + Z.to_nat d)) EmptyString.

Definition twoDigits (k : Z) : string := digit (k / 10) +:+ digit (k mod 10).

Definition threeDigits (k : Z) : string :=
  digit (k / 100) +:+ digit (k / 10 mod 10) +:+ digit (k mod 10).

(* ================================================================= *)
(** * Properties *)

(** ** Reading and writing cells *)

Lemma cellAt_Some b r c x :
  cellAt b r c = Some x ↔
  0 ≤ r ∧ 0 ≤ c ∧ ∃ row, b !! Z.to_nat r = Some row ∧ row !! Z.to_nat c = Some x.
Proof.
  unfold cellAt, rowAt. split.
  - intros H. destruct (decide (0 ≤ r)); [|done].
    destruct (b !! Z.to_nat r) as [row|] eqn:Hr; [|done].
    destruct (decide (0 ≤ c)); [|done]. eauto.
  - intros (Hr & Hc & row & Hrow & Hx).
    rewrite decide_True by done. rewrite Hrow.
    by rewrite decide_True.
Qed.

Lemma cellAt_nat b (i j : nat) :
  cellAt b (Z.of_nat i) (Z.of_nat j) = b !! i ≫= (.!! j).
Proof.
  unfold cellAt, rowAt. rewrite decide_True by lia. rewrite Nat2Z.id.
  destruct (b !! i); simpl; [|done].
  rewrite decide_True by lia. by rewrite Nat2Z.id.
Qed.

Lemma cellAt_nonneg b r c x : cellAt b r c = Some x → 0 ≤ r ∧ 0 ≤ c.
Proof. rewrite cellAt_Some. tauto. Qed.

Lemma shape_setRevealed b r c : shape (setRevealed b r c) = shape b.
Proof.
  unfold shape, setRevealed. apply list_eq. intros i.
  rewrite !list_lookup_fmap.
  destruct (decide (i = Z.to_nat r)) as [->|Hne].
  - rewrite list_lookup_alter_eq. destruct (b !! Z.to_nat r); simpl; [|done].
    by rewrite length_alter.
  - by rewrite list_lookup_alter_ne.
Qed.

Lemma cellAt_setRevealed_eq b r c x :
  cellAt b r c = Some x → cellAt (setRevealed b r c) r c = Some (markRevealed x).
Proof.
  rewrite !cellAt_Some. intros (Hr & Hc & row & Hrow & Hx).
  split_and!; [done..|]. exists (alter markRevealed (Z.to_nat c) row).
  unfold setRevealed. rewrite !list_lookup_alter_eq, Hrow, Hx. done.
Qed.

Lemma cellAt_setRevealed_ne b r c r' c' :
  0 ≤ r → 0 ≤ c → (r', c') ≠ (r, c) →
  cellAt (setRevealed b r c) r' c' = cellAt b r' c'.
Proof.
  intros Hr Hc Hne. unfold cellAt, rowAt, setRevealed.
  destruct (decide (0 ≤ r')); [|done].
  destruct (decide (Z.to_nat r' = Z.to_nat r)) as [Heq|Hneq].
  - rewrite Heq, list_lookup_alter_eq.
    destruct (b !! Z.to_nat r) as [row|]; simpl; [|done].
    destruct (decide (0 ≤ c')); [|done].
    rewrite list_lookup_alter_ne; [done|].
    intros Hcc. apply Hne. f_equal; lia.
  - by rewrite list_lookup_alter_ne.
Qed.

(** ** Neighbors *)

Lemma neighbors_shape b b' r c : shape b = shape b' → neighbors b r c = neighbors b' r c.
Proof.
  unfold shape, neighbors. intros H.
  destruct b as [|row0 rest], b' as [|row0' rest']; simplify_eq/=; [done|].
  assert (length rest = length rest') as ->.
  { rewrite <-(length_fmap length rest), <-(length_fmap length rest'). congruence. }
  congruence.
Qed.

Lemma elem_of_flat_map {A B} (f : A → list B) (l : list A) (y : B) :
  y ∈ flat_map f l ↔ ∃ x, x ∈ l ∧ y ∈ f x.
Proof.
  rewrite list_elem_of_In, in_flat_map.
  setoid_rewrite list_elem_of_In. done.
Qed.

Lemma elem_of_offsets (d : Z) : d ∈ [-1; 0; 1] ↔ -1 ≤ d ≤ 1.
Proof.
  rewrite !elem_of_cons, elem_of_nil. lia.
Qed.

Lemma elem_of_neighborAt nrows ncols row col dr dc q :
  q ∈ neighborAt nrows ncols row col dr dc ↔
  ¬ (dr = 0 ∧ dc = 0) ∧ q = (row + dr, col + dc) ∧
  0 ≤ q.1 < nrows ∧ 0 ≤ q.2 < ncols.
Proof.
  unfold neighborAt. destruct q as [r' c']. cbn [fst snd].
  case_bool_decide as H0.
  { rewrite elem_of_nil. tauto. }
  case_bool_decide as Hb.
  - rewrite list_elem_of_singleton. split.
    + intros ?; simplify_eq. split_and!; try done; lia.
    + tauto.
  - rewrite elem_of_nil. split; [done|].
    intros (_ & ? & ?); simplify_eq. lia.
Qed.

Lemma neighbors_elem row0 rest r c :
  ∃ l, neighbors (row0 :: rest) r c = Ok l ∧
       ∀ q, q ∈ l ↔ adjacent (r, c) q ∧
                     0 ≤ q.1 < Z.of_nat (length (row0 :: rest)) ∧
                     0 ≤ q.2 < Z.of_nat (length row0).
Proof.
  eexists. split; [reflexivity|].
  intros [r' c']. unfold adjacent.
  rewrite elem_of_flat_map. setoid_rewrite elem_of_flat_map.
  setoid_rewrite elem_of_neighborAt. setoid_rewrite elem_of_offsets.
  cbn [fst snd]. split.
  - intros (dr & Hdr & dc & Hdc & Hne & Heq & Hb). simplify_eq.
    split_and!; try lia. intros ?; simplify_eq. lia.
  - intros ((Hne & Hr & Hc) & Hb).
    exists (r' - r). split; [lia|]. exists (c' - c). split; [lia|].
    split_and!; try lia.
    + intros [? ?]. apply Hne. f_equal; lia.
    + f_equal; lia.
Qed.
Lemma rectangular_shape b b' : shape b = shape b' → rectangular b → rectangular b'.
Proof.
  unfold shape, rectangular. intros H.
  destruct b as [|row0 rest], b' as [|row0' rest']; try done.
  rewrite !Forall_lookup. intros Hb i row' Hrow'.
  assert ((length <$> (row0 :: rest)) !! i = Some (length row')) as Hi.
  { by rewrite H, list_lookup_fmap, Hrow'. }
  rewrite list_lookup_fmap in Hi.
  destruct ((row0 :: rest) !! i) as [row|] eqn:Hrow; simplify_eq/=.
  rewrite <-Hi. rewrite (Hb _ _ Hrow). congruence.
Qed.

Lemma rectangular_cellAt row0 rest r c :
  rectangular (row0 :: rest) →
  is_Some (cellAt (row0 :: rest) r c) ↔
  0 ≤ r < Z.of_nat (length (row0 :: rest)) ∧ 0 ≤ c < Z.of_nat (length row0).
Proof.
  intros Hrect. unfold rectangular in Hrect.
  rewrite Forall_lookup in Hrect. split.
  - intros [x (Hr0 & Hc0 & row & Hrow & Hx)%cellAt_Some].
    pose proof (lookup_lt_Some _ _ _ Hrow). pose proof (lookup_lt_Some _ _ _ Hx).
    rewrite (Hrect _ _ Hrow) in *. lia.
  - intros [Hr Hc].
    destruct (lookup_lt_is_Some_2 (row0 :: rest) (Z.to_nat r)) as [row Hrow]; [lia|].
    destruct (lookup_lt_is_Some_2 row (Z.to_nat c)) as [x Hx].
    { rewrite (Hrect _ _ Hrow). lia. }
    exists x. apply cellAt_Some. split_and!; [lia..|eauto].
Qed.

Lemma neighbors_spec b r c :
  rectangular b →
  ∃ l, neighbors b r c = Ok l ∧
       ∀ q, q ∈ l ↔ adjacent (r, c) q ∧ is_Some (cellAt b q.1 q.2).
Proof.
  destruct b as [|row0 rest]; [done|]. intros Hrect.
  destruct (neighbors_elem row0 rest r c) as (l & Hl & Hin).
  exists l. split; [done|]. intros q.
  rewrite Hin, (rectangular_cellAt _ _ _ _ Hrect). done.
Qed.

(** ** The flood fill *)

Lemma hiddenRow_alter row j x :
  row !! j = Some x → isRevealed x = false →
  hiddenRow row = S (hiddenRow (alter markRevealed j row)).
Proof.
  unfold hiddenRow. revert j.
  induction row as [|y row IH]; intros [|j] Hx Hh; simplify_eq/=.
  - rewrite filter_cons_True by done. by rewrite filter_cons_False by done.
  - rewrite !filter_cons. destruct (decide (isRevealed y = false)); simpl;
      by rewrite (IH j Hx Hh).
Qed.

Lemma hiddenCount_setRevealed b r c x :
  cellAt b r c = Some x → isRevealed x = false →
  hiddenCount b = S (hiddenCount (setRevealed b r c)).
Proof.
  rewrite cellAt_Some. intros (_ & _ & row & Hrow & Hx) Hh.
  unfold hiddenCount, setRevealed. revert Hrow. generalize (Z.to_nat r).
  induction b as [|row' b IH]; intros [|i] Hrow; simplify_eq/=.
  - by rewrite (hiddenRow_alter _ _ _ Hx Hh).
  - rewrite (IH i Hrow). lia.
Qed.

Lemma floodNeighbors_spec nbrs : ∀ next queue,
  (∀ q, q ∈ nbrs → is_Some (cellAt next q.1 q.2)) →
  ∃ added next',
    floodNeighbors next queue nbrs = Ok (next', queue ++ added) ∧
    shape next' = shape next ∧
    (∀ q, q ∈ added →
       q ∈ nbrs ∧ ∃ x, cellAt next q.1 q.2 = Some x ∧ coveredCell x) ∧
    (∀ r c, cellAt next' r c =
              if decide ((r, c) ∈ added) then markRevealed <$> cellAt next r c
              else cellAt next r c) ∧
    (∀ q x, q ∈ nbrs → cellAt next q.1 q.2 = Some x → isFlagged x = false →
       q ∈ added ∨ isRevealed x = true) ∧
    hiddenCount next = (hiddenCount next' + length added)%nat.
Proof.
  induction nbrs as [|[nr nc] rest IH]; intros next queue Hin.
  { exists [], next. simpl. rewrite app_nil_r. split_and!; try done.
    - intros q Hq. by apply elem_of_nil in Hq.
    - intros q x Hq. by apply elem_of_nil in Hq. }
  destruct (Hin (nr, nc)) as [x Hx]; [left|]. simpl in Hx.
  pose proof (cellAt_nonneg _ _ _ _ Hx) as [Hnr Hnc].
  simpl. unfold readCell. rewrite Hx. simpl.
  destruct (isRevealed x) eqn:Hrev; simpl.
  { (* already revealed: skipped *)
    destruct (IH next queue) as (added & next' & Hrun & Hshape & Hadd & Hcell & Hall & Hcount).
    { intros q Hq. apply Hin. by right. }
    exists added, next'. split_and!; try done.
    - intros q Hq. destruct (Hadd q Hq) as [? ?]. split; [by right|done].
    - intros q y [->|Hq]%elem_of_cons Hy Hflag; [|by eauto].
      simpl in Hy. right. congruence. }
  destruct (isFlagged x) eqn:Hflag; simpl.
  { (* flagged: skipped *)
    destruct (IH next queue) as (added & next' & Hrun & Hshape & Hadd & Hcell & Hall & Hcount).
    { intros q Hq. apply Hin. by right. }
    exists added, next'. split_and!; try done.
    - intros q Hq. destruct (Hadd q Hq) as [? ?]. split; [by right|done].
    - intros q y [->|Hq]%elem_of_cons Hy Hf; [|by eauto].
      simpl in Hy. congruence. }
  (* covered: revealed and pushed *)
  destruct (IH (setRevealed next nr nc) (queue ++ [(nr, nc)]))
    as (added & next' & Hrun & Hshape & Hadd & Hcell & Hall & Hcount).
  { intros [r c] Hq. simpl. destruct (decide ((r, c) = (nr, nc))) as [Heq|Hne].
    - simplify_eq. rewrite (cellAt_setRevealed_eq _ _ _ _ Hx). eauto.
    - rewrite cellAt_setRevealed_ne by done. apply (Hin (r, c)). by right. }
  exists ((nr, nc) :: added), next'. split_and!.
  - rewrite Hrun. by rewrite <-app_assoc.
  - by rewrite Hshape, shape_setRevealed.
  - intros [r c] [Heq|Hq]%elem_of_cons.
    + simplify_eq. split; [left|]. exists x. done.
    + destruct (Hadd _ Hq) as [Hrest (y & Hy & Hcov)]. split; [by right|].
      simpl in *. destruct (decide ((r, c) = (nr, nc))) as [Heq|Hne].
      * simplify_eq. rewrite (cellAt_setRevealed_eq _ _ _ _ Hx) in Hy.
        simplify_eq. by destruct Hcov.
      * rewrite cellAt_setRevealed_ne in Hy by done. eauto.
  - intros r c. rewrite Hcell.
    destruct (decide ((r, c) = (nr, nc))) as [Heq|Hne].
    + simplify_eq. rewrite (cellAt_setRevealed_eq _ _ _ _ Hx), Hx.
      rewrite (decide_True (P := (nr, nc) ∈ (nr, nc) :: added)) by left.
      by destruct (decide ((nr, nc) ∈ added)).
    + rewrite cellAt_setRevealed_ne by done.
      destruct (decide ((r, c) ∈ added)) as [Hq|Hq].
      * by rewrite decide_True by by right.
      * rewrite decide_False; [done|]. by intros [?|?]%elem_of_cons.
  - intros [r c] y [Heq|Hq]%elem_of_cons Hy Hf; simpl in *.
    + left. simplify_eq. left.
    + destruct (decide ((r, c) = (nr, nc))) as [Heq|Hne].
      * left. simplify_eq. left.
      * destruct (Hall (r, c) y Hq) as [?|?]; [|done|..].
        -- simpl. by rewrite cellAt_setRevealed_ne.
        -- left. by right.
        -- by right.
  - rewrite (hiddenCount_setRevealed _ _ _ _ Hx Hrev), Hcount. simpl. lia.
Qed.

Section FloodLoop.
Variable b0 : Board.
Variables r0 c0 : Z.
Hypothesis Hrect : rectangular b0.
Hypothesis Hstart : ∃ x, cellAt b0 r0 c0 = Some x ∧ coveredCell x.

Local Abbreviation start := (r0, c0).

Lemma floods_covered p :
  floods b0 start p → ∃ x, cellAt b0 p.1 p.2 = Some x ∧ coveredCell x.
Proof. destruct 1; eauto. Qed.

Lemma floodInv_init x :
  cellAt b0 r0 c0 = Some x →
  floodInv b0 start (setRevealed b0 r0 c0) [start] [start].
Proof.
  intros Hx. pose proof (cellAt_nonneg _ _ _ _ Hx) as [Hr Hc].
  split_and!.
  - apply shape_setRevealed.
  - intros r c. destruct (decide ((r, c) = (r0, c0))) as [Heq|Hne].
    + simplify_eq. rewrite (cellAt_setRevealed_eq _ _ _ _ Hx), Hx.
      case_decide as Hd; [done|]. by rewrite list_elem_of_singleton in Hd.
    + rewrite cellAt_setRevealed_ne by done.
      case_decide as Hd; [|done]. by rewrite list_elem_of_singleton in Hd.
  - intros p ->%list_elem_of_singleton. constructor.
  - left.
  - done.
  - intros p q cp cq Hp Hnp. done.
Qed.

Lemma floodLoop_spec fuel : ∀ next queue vis,
  floodInv b0 start next queue vis →
  (hiddenCount next + length queue ≤ fuel)%nat →
  ∃ final vis',
    floodLoop fuel next queue = Ok final ∧ floodInv b0 start final [] vis'.
Proof.
  induction fuel as [|fuel IH]; intros next queue vis Hinv Hfuel.
  { destruct queue as [|[r c] queue]; simpl in *; [eauto|lia]. }
  destruct queue as [|[r c] queue]; simpl in *; [eauto|].
  destruct Hinv as (Hshape & Hcell & Hsound & Hst & Hqueue & Hclosed).
  assert ((r, c) ∈ vis) as Hvis by (apply Hqueue; left).
  destruct (floods_covered _ (Hsound _ Hvis)) as (x & Hx & Hcov). simpl in Hx.
  unfold readCell. rewrite Hcell, decide_True, Hx by done. simpl.
  destruct (bool_decide (adjacentMines x = 0) && negb (isMine x)) eqn:Hzero.
  - (* a zero cell: its covered neighbors are revealed and pushed *)
    apply andb_true_iff in Hzero as [Hadj%bool_decide_eq_true Hmine%negb_true_iff].
    rewrite (neighbors_shape _ _ _ _ Hshape).
    destruct (neighbors_spec b0 r c Hrect) as (nbrs & -> & Hnbrs). simpl.
    destruct (floodNeighbors_spec nbrs next queue)
      as (added & next' & -> & Hshape' & Hadd & Hcell' & Hall & Hcount).
    { intros [r' c'] Hq. apply Hnbrs in Hq as [_ [y Hy]]. simpl in *. rewrite Hcell, Hy.
      destruct (decide ((r', c') ∈ vis)); simpl; eauto. }
    simpl. apply (IH next' (queue ++ added) (vis ++ added)).
    + assert (∀ q, q ∈ added →
                (q ∉ vis) ∧ (∃ y, cellAt b0 q.1 q.2 = Some y ∧ coveredCell y))
        as Hnew.
      { intros [r' c'] (_ & y & Hy & Hy')%Hadd. simpl in *.
        rewrite Hcell in Hy. destruct (decide ((r', c') ∈ vis)).
        - destruct (cellAt b0 r' c'); simplify_eq/=. by destruct Hy'.
        - eauto. }
      split_and!.
      * congruence.
      * intros r' c'. rewrite Hcell', Hcell.
        destruct (decide ((r', c') ∈ added)) as [Ha|Ha];
          destruct (decide ((r', c') ∈ vis)) as [Hv|Hv].
        -- by destruct (Hnew _ Ha).
        -- by rewrite decide_True by (apply elem_of_app; by right).
        -- by rewrite decide_True by (apply elem_of_app; by left).
        -- rewrite decide_False; [done|]. by intros [?|?]%elem_of_app.
      * intros q [Hq|Hq]%elem_of_app; [by auto|].
        destruct (Hnew _ Hq) as (_ & y & Hy & Hy').
        destruct (Hadd _ Hq) as [[Hadjq _]%Hnbrs _].
        by eapply (floods_step b0 start (r, c) q x y); eauto.
      * apply elem_of_app. by left.
      * intros p [Hp|Hp]%elem_of_app; apply elem_of_app; [left|by right].
        apply Hqueue. by right.
      * intros p q cp cq Hp Hnp Hcp Hzp Hpq Hcq Hcovq.
        apply elem_of_app.
        assert (p ∈ vis ∧ p ∉ queue) as [Hpv Hpq'].
        { apply elem_of_app in Hp as [Hp|Hp].
          - split; [done|]. intros ?. apply Hnp, elem_of_app. by left.
          - exfalso. apply Hnp, elem_of_app. by right. }
        destruct (decide (p = (r, c))) as [->|Hne].
        -- destruct (decide (q ∈ vis)) as [?|Hqv]; [by left|]. right.
           destruct (Hall q cq) as [?|Hrev]; [| |by destruct Hcovq|done|].
           ++ apply Hnbrs. split; [done|]. by rewrite Hcq.
           ++ destruct q as [r' c']. simpl in *.
              by rewrite Hcell, decide_False.
           ++ destruct Hcovq. congruence.
        -- left. eapply (Hclosed p q); eauto.
           by intros [?|?]%elem_of_cons.
    + rewrite length_app. lia.
  - (* a numbered cell or a mine: nothing is pushed *)
    apply (IH next queue vis); [|lia].
    split_and!; try done.
    + intros p Hp. apply Hqueue. by right.
    + intros p q cp cq Hp Hnp Hcp [Hzp1 Hzp2] Hpq Hcq Hcovq.
      destruct (decide (p = (r, c))) as [->|Hne].
      * simpl in Hcp. simplify_eq. rewrite Hzp1, Hzp2 in Hzero.
        by rewrite bool_decide_eq_true_2 in Hzero.
      * eapply (Hclosed p q); eauto; [|done]. by intros [?|?]%elem_of_cons.
Qed.

Lemma floodInv_complete final vis :
  floodInv b0 start final [] vis → ∀ q, floods b0 start q ↔ q ∈ vis.
Proof.
  intros (Hshape & Hcell & Hsound & Hst & Hqueue & Hclosed) q. split; [|by auto].
  induction 1 as [|p q cp cq _ IHp Hcp Hzp Hpq Hcq Hcovq]; [done|].
  eapply (Hclosed p q); eauto. apply not_elem_of_nil.
Qed.
End FloodLoop.

(** ** [revealCell] *)

(** On a rectangular board and a cell of the board, [revealCell] returns a
    board of the same shape: the given board with the cells of [vis]
    revealed, where [vis] holds the cells that the flood reaches from a
    covered [(r, c)], and nothing if [(r, c)] is revealed or flagged. *)
Lemma revealCell_spec b r c x :
  rectangular b → cellAt b r c = Some x →
  ∃ (b' : Board) (vis : list (Z * Z)),
    revealCell b r c = Ok b' ∧
    shape b' = shape b ∧
    (∀ q, q ∈ vis ↔ coveredCell x ∧ floods b (r, c) q) ∧
    (∀ r' c', cellAt b' r' c' =
                if decide ((r', c') ∈ vis) then markRevealed <$> cellAt b r' c'
                else cellAt b r' c').
Proof.
  intros Hrect Hx. unfold revealCell, readCell. rewrite Hx. simpl.
  destruct (isRevealed x) eqn:Hrev; simpl.
  { exists b, []. split_and!; try done.
    intros q. rewrite elem_of_nil. unfold coveredCell. split; [done|].
    intros [[? _] _]. congruence. }
  destruct (isFlagged x) eqn:Hflag; simpl.
  { exists b, []. split_and!; try done.
    intros q. rewrite elem_of_nil. unfold coveredCell. split; [done|].
    intros [[_ ?] _]. congruence. }
  assert (coveredCell x) as Hcov by done.
  destruct (floodLoop_spec b r c Hrect (ex_intro _ x (conj Hx Hcov))
              (hiddenCount b) (setRevealed b r c) [(r, c)] [(r, c)])
    as (final & vis & Hrun & Hinv).
  { by apply (floodInv_init b r c x). }
  { rewrite (hiddenCount_setRevealed _ _ _ _ Hx Hrev). simpl. lia. }
  exists final, vis. split; [done|].
  pose proof (floodInv_complete b r c final vis Hinv) as Hvis.
  destruct Hinv as (Hshape & Hcell & _).
  split_and!; [done| |done].
  intros q. rewrite <-Hvis. tauto.
Qed.

Lemma floodNeighbors_measure nbrs : ∀ next queue,
  match floodNeighbors next queue nbrs with
  | Ok st =>
      (hiddenCount st.1 + length st.2 = hiddenCount next + length queue)%nat
  | TypeError => True
  | OutOfFuel => False
  end.
Proof.
  induction nbrs as [|[nr nc] rest IH]; intros next queue; simpl; [done|].
  unfold readCell. destruct (cellAt next nr nc) as [x|] eqn:Hx; simpl; [|done].
  destruct (isRevealed x) eqn:Hrev; simpl; [apply IH|].
  destruct (isFlagged x); simpl; [apply IH|].
  specialize (IH (setRevealed next nr nc) (queue ++ [(nr, nc)])).
  destruct (floodNeighbors _ _ rest) as [st| |]; [|done..].
  rewrite IH, length_app, (hiddenCount_setRevealed _ _ _ _ Hx Hrev). simpl. lia.
Qed.

Lemma floodLoop_fuel fuel : ∀ next queue,
  (hiddenCount next + length queue ≤ fuel)%nat →
  floodLoop fuel next queue ≠ OutOfFuel.
Proof.
  induction fuel as [|fuel IH]; intros next [|[r c] queue] Hfuel; simpl in *;
    try done; try lia.
  destruct (readCell next r c) as [x| |] eqn:Hread; simpl; try done.
  - destruct (bool_decide (adjacentMines x = 0) && negb (isMine x)).
    + destruct (neighbors next r c) as [nbrs| |] eqn:Hn; simpl; try done.
      * pose proof (floodNeighbors_measure nbrs next queue) as Hm.
        destruct (floodNeighbors next queue nbrs) as [st| |]; simpl; try done.
        apply IH. lia.
      * by destruct next.
    + apply IH. lia.
  - unfold readCell in Hread. by destruct (cellAt next r c).
Qed.

(** The bound on the passes of the loop of [revealCell] is never reached,
    on any board and at any coordinate. *)
Lemma revealCell_never_OutOfFuel b r c : revealCell b r c ≠ OutOfFuel.
Proof.
  unfold revealCell, readCell. destruct (cellAt b r c) as [x|] eqn:Hx; simpl; [|done].
  destruct (isRevealed x) eqn:Hrev; simpl; [done|].
  destruct (isFlagged x); simpl; [done|].
  apply floodLoop_fuel. rewrite (hiddenCount_setRevealed _ _ _ _ Hx Hrev).
  simpl. lia.
Qed.

(** The cells of the board returned by [revealCell], one by one. *)
Lemma revealCell_cells b r c x :
  rectangular b → cellAt b r c = Some x →
  ∃ b' : Board,
    revealCell b r c = Ok b' ∧
    shape b' = shape b ∧
    ∀ r' c' y, cellAt b r' c' = Some y →
      ∃ y', cellAt b' r' c' = Some y' ∧ sameButRevealed y y' ∧
            (isRevealed y' = true ↔
             isRevealed y = true ∨ (coveredCell x ∧ floods b (r, c) (r', c'))).
Proof.
  intros Hrect Hx.
  destruct (revealCell_spec b r c x Hrect Hx) as (b' & vis & Hrun & Hshape & Hvis & Hcell).
  exists b'. split_and!; [done..|].
  intros r' c' y Hy. rewrite Hcell, Hy. case_decide as Hq; simpl.
  - exists (markRevealed y). split_and!; [done..|].
    apply Hvis in Hq. simpl. tauto.
  - exists y. split_and!; [done..|].
    rewrite <-Hvis. tauto.
Qed.

Lemma floods_regionOrBorder b start x q :
  cellAt b start.1 start.2 = Some x →
  floods b start q → zeroRegion b start q ∨
    ∃ p, zeroRegion b start p ∧ adjacent p q ∧ is_Some (cellAt b q.1 q.2).
Proof.
  intros Hx. induction 1 as [|p q cp cq _ IH Hcp Hzp Hpq Hcq Hcovq].
  { left. constructor. }
  right. exists p. split_and!; [|done|by rewrite Hcq].
  destruct IH as [?|(p' & Hp' & Hadj & _)]; [done|].
  by apply (zeroRegion_step b start p' p cp).
Qed.

(** C1 (as amended).  Revealing a covered zero cell without a mine reveals
    exactly the cells that the flood reaches from it, going from a reached
    zero cell to each of its neighbors that is neither revealed nor
    flagged.  These cells lie in the connected zero region of the cell or
    on its border, no flagged cell is revealed, no cell outside the region
    and its border changes, and only [isRevealed] changes.  When no cell
    of the region and its border is flagged or revealed beforehand, the
    whole region and its whole border are revealed. *)
Theorem revealCell_floods b r c x :
  rectangular b → cellAt b r c = Some x →
  isRevealed x = false → isFlagged x = false →
  isMine x = false → adjacentMines x = 0 →
  ∃ b' : Board,
    revealCell b r c = Ok b' ∧
    shape b' = shape b ∧
    (∀ r' c' y, cellAt b r' c' = Some y →
       ∃ y', cellAt b' r' c' = Some y' ∧ sameButRevealed y y' ∧
             (isRevealed y' = true ↔
              isRevealed y = true ∨ floods b (r, c) (r', c'))) ∧
    (∀ q, floods b (r, c) q → regionOrBorder b (r, c) q) ∧
    (∀ r' c' y, cellAt b r' c' = Some y → isFlagged y = true →
       cellAt b' r' c' = Some y) ∧
    (∀ r' c', ¬ regionOrBorder b (r, c) (r', c') →
       cellAt b' r' c' = cellAt b r' c') ∧
    ((∀ q y, regionOrBorder b (r, c) q → cellAt b q.1 q.2 = Some y →
        coveredCell y) →
     ∀ q, regionOrBorder b (r, c) q →
       ∃ y', cellAt b' q.1 q.2 = Some y' ∧ isRevealed y' = true).
Proof.
  intros Hrect Hx Hrev Hflag Hmine Hadj.
  assert (coveredCell x) as Hcov by done.
  assert (∃ x, cellAt b r c = Some x ∧ coveredCell x) as Hst by eauto.
  destruct (revealCell_spec b r c x Hrect Hx)
    as (b' & vis & Hrun & Hshape & Hvis & Hcell).
  assert (∀ q, floods b (r, c) q → regionOrBorder b (r, c) q) as Hin.
  { intros q. by apply (floods_regionOrBorder b (r, c) x q). }
  exists b'. split_and!; [done..| | | | |]; [|done| | |].
  - intros r' c' y Hy. rewrite Hcell, Hy. case_decide as Hq; simpl.
    + exists (markRevealed y). split_and!; [done..|].
      apply Hvis in Hq. simpl. tauto.
    + exists y. split_and!; [done..|]. split; [tauto|].
      intros [?|Hfl]; [done|]. exfalso. by apply Hq, Hvis.
  - intros r' c' y Hy Hf. rewrite Hcell, Hy. case_decide as Hq; [|done].
    apply Hvis in Hq as [_ Hq].
    destruct (floods_covered b r c Hst (r', c') Hq) as (y' & Hy' & _ & Hf').
    simpl in Hy'. congruence.
  - intros r' c' Hout. rewrite Hcell. case_decide as Hq; [|done].
    apply Hvis in Hq as [_ Hq]. by apply Hin in Hq.
  - intros Hall.
    assert (∀ q, zeroRegion b (r, c) q →
              floods b (r, c) q ∧ ∃ y, cellAt b q.1 q.2 = Some y ∧ zeroCell y)
      as Hregion.
    { induction 1 as [|p q cq Hp [IHp (cp & Hcp & Hzp)] Hpq Hcq Hzq].
      - split; [constructor|]. exists x. by split.
      - split; [|by eauto].
        apply (floods_step b (r, c) p q cp cq); try done.
        apply (Hall q cq); [|done]. left.
        by apply (zeroRegion_step b (r, c) p q cq). }
    intros [r' c'] Hq.
    assert (floods b (r, c) (r', c')) as Hfl.
    { pose proof Hq as [Hq'|(p & Hp & Hpq & [y Hy])]; [by apply Hregion|].
      destruct (Hregion p Hp) as (Hfp & cp & Hcp & Hzp).
      apply (floods_step b (r, c) p (r', c') cp y); try done.
      by apply (Hall (r', c') y). }
    destruct (floods_covered b r c Hst (r', c') Hfl) as (y & Hy & _).
    simpl in *. rewrite Hcell, Hy.
    rewrite decide_True by (apply Hvis; done). simpl. eauto.
Qed.

(** The theorem on a board of two covered zero cells. *)
Lemma revealCell_floods_witness :
  ∃ b' : Board,
    revealCell [[makeCell; makeCell]] 0 0 = Ok b' ∧
    shape b' = shape [[makeCell; makeCell]] ∧
    (∀ r' c' y, cellAt [[makeCell; makeCell]] r' c' = Some y →
       ∃ y', cellAt b' r' c' = Some y' ∧ sameButRevealed y y' ∧
             (isRevealed y' = true ↔
              isRevealed y = true ∨ floods [[makeCell; makeCell]] (0, 0) (r', c'))) ∧
    (∀ q, floods [[makeCell; makeCell]] (0, 0) q →
       regionOrBorder [[makeCell; makeCell]] (0, 0) q) ∧
    (∀ r' c' y, cellAt [[makeCell; makeCell]] r' c' = Some y → isFlagged y = true →
       cellAt b' r' c' = Some y) ∧
    (∀ r' c', ¬ regionOrBorder [[makeCell; makeCell]] (0, 0) (r', c') →
       cellAt b' r' c' = cellAt [[makeCell; makeCell]] r' c') ∧
    ((∀ q y, regionOrBorder [[makeCell; makeCell]] (0, 0) q →
        cellAt [[makeCell; makeCell]] q.1 q.2 = Some y → coveredCell y) →
     ∀ q, regionOrBorder [[makeCell; makeCell]] (0, 0) q →
       ∃ y', cellAt b' q.1 q.2 = Some y' ∧ isRevealed y' = true).
Proof.
  apply (revealCell_floods [[makeCell; makeCell]] 0 0 makeCell).
  - repeat constructor.
  - reflexivity.
  - reflexivity.
  - reflexivity.
  - reflexivity.
  - reflexivity.
Defined.

(** C1 (as stated) fails.  On a row of three zero cells whose middle cell
    is flagged, all three cells form the connected zero region of the
    first one; revealing the first one reveals neither the flagged cell
    nor the unflagged third cell.  On a row of five zero cells without a
    flag whose middle cell is revealed, revealing the first cell leaves
    the last two cells of the region hidden. *)
Lemma revealCell_leaves_region_hidden :
  (rectangular flagInTheMiddle ∧
   cellAt flagInTheMiddle 0 0 = Some makeCell ∧
   zeroRegion flagInTheMiddle (0, 0) (0, 2) ∧
   cellAt flagInTheMiddle 0 2 = Some makeCell ∧
   revealCell flagInTheMiddle 0 0 =
     Ok [[markRevealed makeCell; flaggedCell; makeCell]]) ∧
  (rectangular revealedInTheMiddle ∧
   cellAt revealedInTheMiddle 0 0 = Some makeCell ∧
   zeroRegion revealedInTheMiddle (0, 0) (0, 4) ∧
   cellAt revealedInTheMiddle 0 4 = Some makeCell ∧
   revealCell revealedInTheMiddle 0 0 =
     Ok [[markRevealed makeCell; markRevealed makeCell; markRevealed makeCell;
          makeCell; makeCell]]).
Proof.
  split; split_and!; try reflexivity.
  - repeat constructor.
  - apply (zeroRegion_step _ _ (0, 1) (0, 2) makeCell); [|done..].
    apply (zeroRegion_step _ _ (0, 0) (0, 1) flaggedCell); [|done..].
    constructor.
  - repeat constructor.
  - apply (zeroRegion_step _ _ (0, 3) (0, 4) makeCell); [|done..].
    apply (zeroRegion_step _ _ (0, 2) (0, 3) makeCell); [|done..].
    apply (zeroRegion_step _ _ (0, 1) (0, 2) (markRevealed makeCell)); [|done..].
    apply (zeroRegion_step _ _ (0, 0) (0, 1) makeCell); [|done..].
    constructor.
Qed.

(** C10.  [revealCell] returns a board of the same dimensions whose cells
    keep [isMine], [isFlagged] and [adjacentMines]. *)
Theorem revealCell_frame b r c :
  rectangular b → is_Some (cellAt b r c) →
  ∃ b' : Board,
    revealCell b r c = Ok b' ∧
    length b' = length b ∧
    shape b' = shape b ∧
    ∀ r' c' y, cellAt b r' c' = Some y →
      ∃ y', cellAt b' r' c' = Some y' ∧
            isMine y' = isMine y ∧ isFlagged y' = isFlagged y ∧
            adjacentMines y' = adjacentMines y.
Proof.
  intros Hrect [x Hx].
  destruct (revealCell_cells b r c x Hrect Hx) as (b' & Hrun & Hshape & Hcells).
  exists b'. split_and!; [done| |done|].
  - unfold shape in Hshape.
    by rewrite <-(length_fmap length b'), Hshape, length_fmap.
  - intros r' c' y Hy. destruct (Hcells r' c' y Hy) as (y' & Hy' & Hsame & _).
    exists y'. by split.
Qed.

(** The theorem on the board with a flag in the middle, revealed at its
    third cell. *)
Lemma revealCell_frame_witness :
  ∃ b' : Board,
    revealCell flagInTheMiddle 0 2 = Ok b' ∧
    length b' = length flagInTheMiddle ∧
    shape b' = shape flagInTheMiddle ∧
    ∀ r' c' y, cellAt flagInTheMiddle r' c' = Some y →
      ∃ y', cellAt b' r' c' = Some y' ∧
            isMine y' = isMine y ∧ isFlagged y' = isFlagged y ∧
            adjacentMines y' = adjacentMines y.
Proof.
  apply (revealCell_frame flagInTheMiddle 0 2).
  - repeat constructor.
  - exists makeCell. reflexivity.
Defined.

(** ** Cells of a board *)

Lemma elem_of_cells b x :
  x ∈ cells b ↔ ∃ r c, cellAt b r c = Some x.
Proof.
  unfold cells. rewrite list_elem_of_In, in_concat. split.
  - intros (row & Hrow%list_elem_of_In & Hx%list_elem_of_In).
    apply list_elem_of_lookup in Hrow as [i Hi].
    apply list_elem_of_lookup in Hx as [j Hj].
    exists (Z.of_nat i), (Z.of_nat j). by rewrite cellAt_nat, Hi.
  - intros (r & c & (_ & _ & row & Hrow & Hx)%cellAt_Some).
    exists row. rewrite <-!list_elem_of_In.
    split; eapply list_elem_of_lookup_2; eauto.
Qed.

(** ** [checkWin] *)

Lemma countCells_row row : ∀ revealed total,
  foldl (λ '(revealed, total) cell,
           (if isRevealed cell then revealed + 1 else revealed, total + 1))
        (revealed, total) row =
  (revealed + Z.of_nat (length (filter (λ cell, isRevealed cell = true) row)),
   total + Z.of_nat (length row)).
Proof.
  induction row as [|x row IH]; intros revealed total; simpl.
  { f_equal; lia. }
  rewrite IH, filter_cons.
  destruct (isRevealed x); case_decide; try done; simpl; f_equal; lia.
Qed.

Lemma countCells_spec b :
  countCells b = (Z.of_nat (revealedCells b), Z.of_nat (length (cells b))).
Proof.
  unfold countCells, revealedCells, cells.
  assert (∀ revealed total,
    foldl (λ acc row,
             foldl (λ '(revealed, total) cell,
                      (if isRevealed cell then revealed + 1 else revealed, total + 1))
                   acc row)
          (revealed, total) b =
    (revealed + Z.of_nat (length (filter (λ cell, isRevealed cell = true) (concat b))),
     total + Z.of_nat (length (concat b)))) as Hgen.
  { induction b as [|row b IH]; intros revealed total; simpl.
    - f_equal; lia.
    - rewrite countCells_row, IH, filter_app, !length_app. f_equal; lia. }
  by rewrite Hgen.
Qed.

Lemma checkWin_true b t :
  checkWin b t = true ↔
  Z.of_nat (revealedCells b) = Z.of_nat (length (cells b)) - t.
Proof.
  unfold checkWin. rewrite countCells_spec. apply bool_decide_eq_true.
Qed.

(** Where no mine is revealed, every cell is a revealed cell, a mine, or a
    covered or flagged cell without a mine. *)
Lemma cells_partition (l : list CellState) :
  Forall (λ x, isMine x = true → isRevealed x = false) l →
  (length (filter (λ x, isRevealed x = true) l) +
   length (filter (λ x, isMine x = true) l) +
   length (filter (λ x, isMine x = false ∧ isRevealed x = false) l))%nat
  = length l.
Proof.
  induction 1 as [|x l Hx _ IH]; [done|].
  rewrite !filter_cons. simpl.
  destruct (isMine x) eqn:Hm, (isRevealed x) eqn:Hr;
    repeat case_decide; simpl; try lia; try naive_solver.
Qed.

(** C2 (as amended).  [checkWin] returns true exactly when the number of
    revealed cells is the number of cells minus [totalMines].  When
    [totalMines] is the number of mines of the board and no mine is
    revealed, it returns false whenever a cell without a mine is hidden,
    and true otherwise. *)
Theorem checkWin_counts b totalMines :
  (checkWin b totalMines = true ↔
   Z.of_nat (revealedCells b) = Z.of_nat (length (cells b)) - totalMines) ∧
  (totalMines = Z.of_nat (mineCells b) →
   (∀ r c x, cellAt b r c = Some x → isMine x = true → isRevealed x = false) →
   (checkWin b totalMines = true ↔
    ∀ r c x, cellAt b r c = Some x → isMine x = false → isRevealed x = true)).
Proof.
  split; [apply checkWin_true|]. intros -> Hmines.
  rewrite checkWin_true.
  pose proof (cells_partition (cells b)) as Hpart.
  unfold revealedCells, mineCells in *.
  assert (Forall (λ x, isMine x = true → isRevealed x = false) (cells b)) as Hall.
  { apply Forall_forall. intros x (r & c & Hx)%elem_of_cells. eauto. }
  specialize (Hpart Hall). split.
  - intros Hcount r c x Hx Hm.
    destruct (isRevealed x) eqn:Hr; [done|]. exfalso.
    assert (x ∈ filter (λ x, isMine x = false ∧ isRevealed x = false) (cells b)) as Hin.
    { apply list_elem_of_filter. split; [done|]. apply elem_of_cells. eauto. }
    destruct (filter (λ x, isMine x = false ∧ isRevealed x = false) (cells b));
      [by apply elem_of_nil in Hin|]. simpl in *. lia.
  - intros Hrev.
    assert (filter (λ x, isMine x = false ∧ isRevealed x = false) (cells b) = [])
      as Hnil.
    { destruct (filter (λ x, isMine x = false ∧ isRevealed x = false) (cells b))
        as [|x l] eqn:Hf; [done|].
      assert (x ∈ filter (λ x, isMine x = false ∧ isRevealed x = false) (cells b))
        as Hin by (rewrite Hf; left).
      apply list_elem_of_filter in Hin as [[Hm Hr] (r & c & Hx)%elem_of_cells].
      rewrite (Hrev r c x Hx Hm) in Hr. done. }
    rewrite Hnil in Hpart. simpl in *. lia.
Qed.

(** The theorem on a board with one mine and one revealed cell. *)
Lemma checkWin_counts_witness :
  checkWin [[mkCell true false false 0; mkCell false true false 1]] 1 = true ↔
  ∀ r c x,
    cellAt [[mkCell true false false 0; mkCell false true false 1]] r c = Some x →
    isMine x = false → isRevealed x = true.
Proof.
  apply (checkWin_counts [[mkCell true false false 0; mkCell false true false 1]] 1).
  - reflexivity.
  - intros r c x (_ & _ & row & Hrow & Hx)%cellAt_Some.
    destruct (Z.to_nat r) as [|[|?]]; simplify_eq/=.
    destruct (Z.to_nat c) as [|[|[|?]]]; simplify_eq/=; done.
Defined.

(** C2 (as stated) fails.  On the board of one covered cell without a
    mine, [checkWin] with [totalMines = 1] returns true although a cell
    without a mine is hidden.  The game reaches such a call: after ten
    flags on a new beginner board, which has no mine yet, a reveal floods
    the 71 other cells, [checkWin] returns true for the 10 mines of the
    difficulty and the game is won with ten cells without a mine hidden. *)
Lemma checkWin_true_with_hidden_cell :
  (cellAt [[makeCell]] 0 0 = Some makeCell ∧
   isMine makeCell = false ∧ isRevealed makeCell = false ∧
   checkWin [[makeCell]] 1 = true) ∧
  ∃ s,
    play halves (makeInitialState beginner) tenFlagsThenReveal = Ok s ∧
    status s = won ∧
    checkWin (board s) (mines (DIFFICULTIES beginner)) = true ∧
    cellAt (board s) 0 0 = Some flaggedCell ∧
    isMine flaggedCell = false ∧ isRevealed flaggedCell = false.
Proof.
  split; [done|].
  eexists. split_and!; try (vm_compute; reflexivity).
Qed.

(** ** Boards related cell by cell *)

Lemma boardRel_shape R b b' : boardRel R b b' → shape b' = shape b.
Proof.
  unfold boardRel, shape. induction 1 as [|row row' b b' Hrow _ IH]; [done|].
  rewrite !fmap_cons. f_equal; [|done]. symmetry. by eapply Forall2_length.
Qed.

Lemma boardRel_cellAt R b b' r c x :
  boardRel R b b' → cellAt b r c = Some x →
  ∃ y, cellAt b' r c = Some y ∧ R x y.
Proof.
  intros Hrel (Hr & Hc & row & Hrow & Hx)%cellAt_Some.
  destruct (Forall2_lookup_l _ _ _ _ _ Hrel Hrow) as (row' & Hrow' & Hrows).
  destruct (Forall2_lookup_l _ _ _ _ _ Hrows Hx) as (y & Hy & HR).
  exists y. split; [|done]. apply cellAt_Some. eauto.
Qed.

Lemma boardRel_cellAt_inv R b b' r c y :
  boardRel R b b' → cellAt b' r c = Some y →
  ∃ x, cellAt b r c = Some x ∧ R x y.
Proof.
  intros Hrel (Hr & Hc & row' & Hrow' & Hy)%cellAt_Some.
  destruct (Forall2_lookup_r _ _ _ _ _ Hrel Hrow') as (row & Hrow & Hrows).
  destruct (Forall2_lookup_r _ _ _ _ _ Hrows Hy) as (x & Hx & HR).
  exists x. split; [|done]. apply cellAt_Some. eauto.
Qed.

Lemma boardRel_intro (R : CellState → CellState → Prop) b b' :
  shape b' = shape b →
  (∀ r c x, cellAt b r c = Some x → ∃ y, cellAt b' r c = Some y ∧ R x y) →
  boardRel R b b'.
Proof.
  unfold shape. intros Hshape Hcells.
  apply Forall2_same_length_lookup_2.
  { by rewrite <-(length_fmap length b), <-Hshape, length_fmap. }
  intros i row row' Hrow Hrow'.
  assert (length row' = length row) as Hlen.
  { assert ((length <$> b') !! i = (length <$> b) !! i) as Hi by by rewrite Hshape.
    rewrite !list_lookup_fmap, Hrow, Hrow' in Hi. by simplify_eq/=. }
  apply Forall2_same_length_lookup_2; [done|].
  intros j x y Hx Hy.
  destruct (Hcells (Z.of_nat i) (Z.of_nat j) x) as (y' & Hy' & HR).
  { by rewrite cellAt_nat, Hrow. }
  rewrite cellAt_nat, Hrow' in Hy'. simpl in Hy'. congruence.
Qed.

Lemma boardRel_refl (R : CellState → CellState → Prop) b :
  (∀ x, R x x) → boardRel R b b.
Proof.
  intros HR. apply Forall2_same_length_lookup_2; [done|].
  intros i row row' ? ?. simplify_eq.
  apply Forall2_same_length_lookup_2; [done|]. intros j x y ? ?. by simplify_eq.
Qed.

Lemma boardRel_trans (R : CellState → CellState → Prop) b1 b2 b3 :
  (∀ x y z, R x y → R y z → R x z) →
  boardRel R b1 b2 → boardRel R b2 b3 → boardRel R b1 b3.
Proof.
  intros HR H12 H23. apply boardRel_intro.
  - by rewrite (boardRel_shape _ _ _ H23), (boardRel_shape _ _ _ H12).
  - intros r c x Hx.
    destruct (boardRel_cellAt _ _ _ _ _ _ H12 Hx) as (y & Hy & Hxy).
    destruct (boardRel_cellAt _ _ _ _ _ _ H23 Hy) as (z & Hz & Hyz).
    eauto.
Qed.

Lemma boardRel_impl (R R' : CellState → CellState → Prop) b b' :
  (∀ x y, R x y → R' x y) → boardRel R b b' → boardRel R' b b'.
Proof.
  intros HR Hrel. eapply Forall2_impl; [done|].
  intros row row' Hrow. eapply Forall2_impl; [done|]. auto.
Qed.

Lemma boardRel_rectangular R b b' :
  boardRel R b b' → rectangular b → rectangular b'.
Proof. intros Hrel. apply rectangular_shape. symmetry. by eapply boardRel_shape. Qed.

Lemma cellAdvance_refl x : cellAdvance x x.
Proof. unfold cellAdvance. tauto. Qed.

Lemma cellAdvance_trans x y z : cellAdvance x y → cellAdvance y z → cellAdvance x z.
Proof.
  unfold cellAdvance. intros (Hf & Hm & Hn) (Hf' & Hm' & Hn').
  split_and!; [congruence|tauto|]. intros Hz.
  destruct (Hn' Hz) as [Hy|Hy]; [by apply Hn|right; congruence].
Qed.

Lemma cellAdvance_cellReveal x y : cellAdvance x y → cellReveal x y.
Proof. unfold cellAdvance, cellReveal. tauto. Qed.

Lemma boardRel_staysRevealed b b' : boardRel cellReveal b b' → staysRevealed b b'.
Proof.
  intros Hrel r c x Hx Hrev.
  destruct (boardRel_cellAt _ _ _ _ _ _ Hrel Hx) as (y & Hy & _ & Hm). eauto.
Qed.

Lemma boardRel_noRevealedFlag b b' :
  boardRel cellAdvance b b' → noRevealedFlag b → noRevealedFlag b'.
Proof.
  intros Hrel Hb r c y Hy [Hrev Hflag].
  destruct (boardRel_cellAt_inv _ _ _ _ _ _ Hrel Hy) as (x & Hx & Hf & _ & Hn).
  apply (Hb r c x Hx). rewrite <-Hf. destruct (Hn Hrev); [done|congruence].
Qed.

Lemma boardRel_flaggedCells (R : CellState → CellState → Prop) b b' :
  (∀ x y, R x y → isFlagged y = isFlagged x) →
  boardRel R b b' → flaggedCells b' = flaggedCells b.
Proof.
  intros HR Hrel. unfold flaggedCells, cells.
  induction Hrel as [|row row' b b' Hrow _ IH]; [done|].
  simpl. rewrite !filter_app, !length_app, IH. f_equal.
  clear IH. induction Hrow as [|x y row row' Hxy _ IH]; [done|].
  rewrite !filter_cons, (HR _ _ Hxy).
  destruct (decide (isFlagged x = true)); simpl; by rewrite IH.
Qed.

(** ** Maps over the board *)

Lemma cellAt_imap (f : nat → nat → CellState → CellState) b r c :
  cellAt (imap (λ i row, imap (f i) row) b) r c =
  f (Z.to_nat r) (Z.to_nat c) <$> cellAt b r c.
Proof.
  unfold cellAt, rowAt. destruct (decide (0 ≤ r)); [|done].
  rewrite list_lookup_imap. destruct (b !! Z.to_nat r) as [row|]; simpl; [|done].
  destruct (decide (0 ≤ c)); [|done]. by rewrite list_lookup_imap.
Qed.

Lemma shape_imap (f : nat → nat → CellState → CellState) b :
  shape (imap (λ i row, imap (f i) row) b) = shape b.
Proof.
  unfold shape. apply list_eq. intros i.
  rewrite !list_lookup_fmap, list_lookup_imap.
  destruct (b !! i); simpl; [|done]. by rewrite length_imap.
Qed.

Lemma boardRel_imap (R : CellState → CellState → Prop)
    (f : nat → nat → CellState → CellState) b :
  (∀ i j x, R x (f i j x)) →
  boardRel R b (imap (λ i row, imap (f i) row) b).
Proof.
  intros HR. apply boardRel_intro; [apply shape_imap|].
  intros r c x Hx. rewrite cellAt_imap, Hx. simpl. eauto.
Qed.

Lemma cellAt_fmap (f : CellState → CellState) (b : Board) r c :
  cellAt ((λ row : list CellState, f <$> row) <$> b) r c = f <$> cellAt b r c.
Proof.
  unfold cellAt, rowAt. destruct (decide (0 ≤ r)); [|done].
  rewrite list_lookup_fmap. destruct (b !! Z.to_nat r) as [row|]; simpl; [|done].
  destruct (decide (0 ≤ c)); [|done]. by rewrite list_lookup_fmap.
Qed.

Lemma shape_fmap (f : CellState → CellState) (b : Board) :
  shape ((λ row : list CellState, f <$> row) <$> b) = shape b.
Proof.
  unfold shape. rewrite <-list_fmap_compose. apply list_fmap_ext.
  intros i row _. simpl. by rewrite length_fmap.
Qed.

(** ** [revealAllMines] *)

Lemma revealAllMines_cellAt b r c :
  cellAt (revealAllMines b) r c =
  (λ x, if isMine x then markRevealed x else x) <$> cellAt b r c.
Proof. apply cellAt_fmap. Qed.

Lemma revealAllMines_rel b : boardRel cellReveal b (revealAllMines b).
Proof.
  apply boardRel_intro; [apply shape_fmap|].
  intros r c x Hx. rewrite revealAllMines_cellAt, Hx. simpl.
  eexists. split; [done|]. unfold cellReveal. by destruct (isMine x).
Qed.

(** ** [toggleFlag] *)

Lemma toggleFlag_spec b r c x :
  cellAt b r c = Some x →
  ∃ b' : Board,
    toggleFlag b r c = Ok b' ∧
    shape b' = shape b ∧
    ∀ r' c', cellAt b' r' c' =
      if decide ((r', c') = (r, c) ∧ isRevealed x = false)
      then flipFlag <$> cellAt b r' c' else cellAt b r' c'.
Proof.
  intros Hx. pose proof (cellAt_nonneg _ _ _ _ Hx) as [Hr Hc].
  unfold toggleFlag, readCell. rewrite Hx. simpl.
  destruct (isRevealed x) eqn:Hrev.
  { exists b. split_and!; [done..|]. intros r' c'.
    case_decide as Hd; [by destruct Hd|done]. }
  eexists. split_and!; [done|..].
  - apply (shape_imap (λ ri ci cell,
      if bool_decide (Z.of_nat ri = r ∧ Z.of_nat ci = c) then flipFlag cell else cell)).
  - intros r' c'.
    rewrite (cellAt_imap (λ ri ci cell,
      if bool_decide (Z.of_nat ri = r ∧ Z.of_nat ci = c) then flipFlag cell else cell)).
    destruct (cellAt b r' c') as [y|] eqn:Hy; simpl; [|by case_decide].
    pose proof (cellAt_nonneg _ _ _ _ Hy) as [Hr' Hc'].
    rewrite !Z2Nat.id by done.
    case_bool_decide as H1; case_decide as H2; try done.
    + exfalso. apply H2. by destruct H1 as [-> ->].
    + exfalso. apply H1. destruct H2 as [? _]. by simplify_eq.
Qed.

(** ** Coordinates *)

Lemma elem_of_rowCoords q r c row :
  q ∈ rowCoords r c row ↔ q.1 = r ∧ c ≤ q.2 < c + Z.of_nat (length row).
Proof.
  revert c. induction row as [|x row IH]; intros c; simpl.
  { rewrite elem_of_nil. lia. }
  rewrite elem_of_cons, IH. destruct q as [r' c']. simpl. split.
  - intros [?|?]; [simplify_eq|]; lia.
  - intros [-> ?]. destruct (decide (c' = c)) as [->|?]; [by left|right; lia].
Qed.

Lemma elem_of_coordsFrom q k b :
  q ∈ coordsFrom k b ↔ is_Some (cellAt b (q.1 - k) q.2).
Proof.
  revert k. induction b as [|row b IH]; intros k; simpl.
  { rewrite elem_of_nil. split; [done|]. by intros [x (_ & _ & ? & ? & _)%cellAt_Some]. }
  rewrite elem_of_app, elem_of_rowCoords, IH. split.
  - intros [[Hr Hc]|[x (Hr & Hc & row' & Hrow' & Hx)%cellAt_Some]].
    + destruct (lookup_lt_is_Some_2 row (Z.to_nat q.2)) as [x Hx]; [lia|].
      exists x. apply cellAt_Some. split_and!; [lia..|].
      exists row. by replace (q.1 - k) with 0 by lia.
    + exists x. apply cellAt_Some. split_and!; [lia..|].
      exists row'. split; [|done].
      replace (Z.to_nat (q.1 - k)) with (S (Z.to_nat (q.1 - (k + 1)))) by lia. done.
  - intros [x (Hr & Hc & row' & Hrow' & Hx)%cellAt_Some].
    destruct (decide (q.1 = k)) as [Heq|Hne].
    + left. rewrite Heq, Z.sub_diag in Hrow'. simplify_eq/=.
      pose proof (lookup_lt_Some _ _ _ Hx). lia.
    + right. exists x. apply cellAt_Some. split_and!; [lia..|].
      exists row'. split; [|done].
      replace (Z.to_nat (q.1 - k)) with (S (Z.to_nat (q.1 - (k + 1)))) in Hrow' by lia.
      done.
Qed.

Lemma elem_of_coords q b : q ∈ coords b ↔ is_Some (cellAt b q.1 q.2).
Proof. unfold coords. rewrite elem_of_coordsFrom. by rewrite Z.sub_0_r. Qed.

Lemma rowCoords_pos (n r c : Z) row :
  (λ q : Z * Z, q.1 * n + q.2) <$> rowCoords r c row =
  seqZ (r * n + c) (Z.of_nat (length row)).
Proof.
  revert c. induction row as [|x row IH]; intros c; [done|].
  cbn [rowCoords length]. rewrite fmap_cons, IH, (seqZ_cons _ (Z.of_nat (S _))) by lia.
  simpl. f_equal. f_equal; lia.
Qed.

Lemma coordsFrom_pos (n : nat) r b :
  Forall (λ row : list CellState, length row = n) b →
  (λ q : Z * Z, q.1 * Z.of_nat n + q.2) <$> coordsFrom r b =
  seqZ (r * Z.of_nat n) (Z.of_nat (length b) * Z.of_nat n).
Proof.
  intros Hb. revert r. induction Hb as [|row b Hrow _ IH]; intros r; [done|].
  cbn [coordsFrom length]. rewrite fmap_app, rowCoords_pos, IH, Hrow.
  replace (Z.of_nat (S (length b)) * Z.of_nat n)
    with (Z.of_nat n + Z.of_nat (length b) * Z.of_nat n) by lia.
  rewrite seqZ_app by lia. f_equal; f_equal; lia.
Qed.

Lemma length_filter_fmap {A B} (f : A → B) (P : B → Prop)
    `{∀ y, Decision (P y)} (l : list A) :
  length (filter P (f <$> l)) = length (filter (λ x, P (f x)) l).
Proof.
  induction l as [|x l IH]; [done|].
  rewrite fmap_cons, !filter_cons. destruct (decide (P (f x))); simpl; by rewrite IH.
Qed.

Lemma filter_ext_elem {A} (P Q : A → Prop)
    `{∀ x, Decision (P x)} `{∀ x, Decision (Q x)} (l : list A) :
  (∀ x, x ∈ l → P x ↔ Q x) → filter P l = filter Q l.
Proof.
  induction l as [|x l IH]; intros Hl; [done|].
  rewrite !filter_cons, IH by (intros y Hy; apply Hl; by right).
  destruct (decide (P x)) as [HP|HP], (decide (Q x)) as [HQ|HQ]; try done.
  - exfalso. apply HQ, (Hl x); [left|done].
  - exfalso. apply HP, (Hl x); [left|done].
Qed.

(** The mines of a board whose [isMine] fields are set from a test of the
    coordinates. *)
Lemma mineCells_row (P : Z → Z → bool) (r : Z) row : ∀ c0,
  length (filter (λ y, isMine y = true)
            (imap (λ j x, withMine x (P r (c0 + Z.of_nat j))) row)) =
  length (filter (λ q : Z * Z, P q.1 q.2 = true) (rowCoords r c0 row)).
Proof.
  induction row as [|x row IH]; intros c0; [done|].
  rewrite imap_cons. cbn [rowCoords]. rewrite !filter_cons. simpl.
  rewrite Z.add_0_r.
  rewrite (imap_ext _ (λ j x, withMine x (P r (c0 + 1 + Z.of_nat j)))).
  2:{ intros j y _. simpl. do 2 f_equal. lia. }
  destruct (P r c0); simpl; by rewrite IH.
Qed.

Lemma mineCells_imap (P : Z → Z → bool) b : ∀ k,
  mineCells (imap (λ i row,
               imap (λ j x, withMine x (P (k + Z.of_nat i) (Z.of_nat j))) row) b) =
  length (filter (λ q : Z * Z, P q.1 q.2 = true) (coordsFrom k b)).
Proof.
  unfold mineCells, cells.
  induction b as [|row b IH]; intros k; [done|].
  rewrite imap_cons. cbn [concat coordsFrom]. rewrite !filter_app, !length_app.
  rewrite Z.add_0_r.
  rewrite (imap_ext _ (λ i row,
    imap (λ j x, withMine x (P (k + 1 + Z.of_nat i) (Z.of_nat j))) row)).
  2:{ intros i row' _. simpl. apply imap_ext. intros j y _. do 2 f_equal. lia. }
  rewrite IH. f_equal.
  rewrite <-(mineCells_row P k row 0). do 2 f_equal.
Qed.

(** ** [placeMines] *)

Lemma elem_of_exclusion (n r c : Z) nbrs i :
  i ∈ exclusion n r c nbrs ↔
  i = r * n + c ∨ ∃ q : Z * Z, q ∈ nbrs ∧ i = q.1 * n + q.2.
Proof.
  unfold exclusion.
  assert (∀ s : gset Z,
    i ∈ foldl (λ (s : gset Z) '(r, c), s ∪ {[ r * n + c ]}) s nbrs ↔
    i ∈ s ∨ ∃ q : Z * Z, q ∈ nbrs ∧ i = q.1 * n + q.2) as Hgen.
  { induction nbrs as [|[r' c'] nbrs IH]; intros s; simpl.
    - split; [by left|]. intros [?|(q & Hq & _)]; [done|]. by apply elem_of_nil in Hq.
    - rewrite IH, elem_of_union, elem_of_singleton. split.
      + intros [[?|?]|(q & Hq & ?)]; [by left| |].
        * right. exists (r', c'). split; [left|done].
        * right. exists q. split; [by right|done].
      + intros [?|(q & [->|Hq]%elem_of_cons & ?)]; [by left; left| |].
        * left. by right.
        * right. by exists q. }
  rewrite Hgen, elem_of_singleton. done.
Qed.

Lemma swap_perm l i j :
  (i < length l)%nat → (j < length l)%nat → swap l i j ≡ₚ l.
Proof.
  intros Hi Hj. unfold swap.
  destruct (lookup_lt_is_Some_2 l i Hi) as [a Ha].
  destruct (lookup_lt_is_Some_2 l j Hj) as [b Hb].
  rewrite Ha, Hb. by apply Permutation_insert_swap.
Qed.

Lemma fisherYates_perm rnd i : ∀ l,
  (i ≤ length l - 1)%nat → fisherYates rnd i l ≡ₚ l.
Proof.
  induction i as [|i IH]; intros l Hi; [done|].
  cbn [fisherYates].
  assert (rnd (S i) `mod` (S i + 1) < S i + 1)%nat as Hj
    by (apply Nat.mod_upper_bound; lia).
  assert (swap l (S i) (rnd (S i) `mod` (S i + 1)) ≡ₚ l) as Hswap
    by (apply swap_perm; lia).
  rewrite IH; [done|].
  rewrite (Permutation_length Hswap). lia.
Qed.

Lemma slice0_subseteq l e : slice0 l e ⊆ l.
Proof. unfold slice0. case_decide; apply subseteq_take. Qed.

Lemma slice0_sublist l e : slice0 l e `sublist_of` l.
Proof. unfold slice0. case_decide; apply sublist_take. Qed.

Lemma length_slice0 l e :
  0 ≤ e ≤ Z.of_nat (length l) → Z.of_nat (length (slice0 l e)) = e.
Proof.
  intros He. unfold slice0. rewrite decide_False by lia.
  rewrite length_take. lia.
Qed.

Lemma pos_inj (n r c r' c' : Z) :
  0 ≤ c < n → 0 ≤ c' < n → r * n + c = r' * n + c' → r = r' ∧ c = c'.
Proof. intros Hc Hc' Heq. assert (r = r') by nia. split; [done|nia]. Qed.

(** The positions that [placeMines] draws from, for a safe cell on a
    rectangular board: the row-major positions of the eligible cells. *)
Lemma candidates_eligible row0 rest r c nbrs :
  rectangular (row0 :: rest) →
  is_Some (cellAt (row0 :: rest) r c) →
  (∀ q, q ∈ nbrs ↔ adjacent (r, c) q ∧ is_Some (cellAt (row0 :: rest) q.1 q.2)) →
  length (filter (λ i, i ∉ exclusion (Z.of_nat (length row0)) r c nbrs)
            (seqZ 0 (Z.of_nat (length (row0 :: rest)) * Z.of_nat (length row0)))) =
  length (eligible (row0 :: rest) r c).
Proof.
  intros Hrect Hsafe Hnbrs.
  pose proof (coordsFrom_pos (length row0) 0 (row0 :: rest) Hrect) as Hpos.
  rewrite Z.mul_0_l in Hpos. rewrite <-Hpos, length_filter_fmap.
  unfold eligible, coords. f_equal. apply filter_ext_elem.
  intros [r' c'] Hq%elem_of_coords. simpl in *.
  apply (rectangular_cellAt _ _ _ _ Hrect) in Hsafe as Hsafe'.
  apply (rectangular_cellAt _ _ _ _ Hrect) in Hq as Hq'.
  rewrite elem_of_exclusion. split.
  - intros Hex. split.
    + intros ?; simplify_eq. apply Hex. by left.
    + intros Hadj. apply Hex. right. exists (r', c'). split; [|done].
      apply Hnbrs. by split.
  - intros [Hne Hnadj] [Heq|([r'' c''] & [Hadj Hin]%Hnbrs & Heq)]; simpl in *.
    + apply pos_inj in Heq as [-> ->]; [done|lia..].
    + apply (rectangular_cellAt _ _ _ _ Hrect) in Hin.
      apply pos_inj in Heq as [-> ->]; [done|lia..].
Qed.

Lemma length_filter_list_to_set (l L : list Z) :
  NoDup l → NoDup L → l ⊆ L →
  length (filter (λ i, i ∈ (list_to_set l : gset Z)) L) = length l.
Proof.
  intros Hl HL Hsub. apply Permutation_length, NoDup_Permutation.
  - by apply NoDup_filter.
  - done.
  - intros i. rewrite list_elem_of_filter, elem_of_list_to_set. split; [tauto|].
    intros Hi. split; [done|]. by apply Hsub.
Qed.

Lemma placeMines_rel rnd b n r c :
  b ≠ [] →
  ∃ b' : Board,
    placeMines rnd b n r c = Ok b' ∧
    boardRel (λ x y, ∃ m, y = withMine x m) b b'.
Proof.
  destruct b as [|row0 rest]; [done|]. intros _.
  unfold placeMines. destruct (neighbors_elem row0 rest r c) as (nbrs & -> & _).
  cbn [bind]. eexists. split; [done|].
  apply (boardRel_imap _ (λ i j cell, withMine cell _)). eauto.
Qed.

(** C4.  On a rectangular board and for a safe cell of the board,
    [placeMines] puts no mine on the safe cell nor on its neighbors, and
    when [mineCount] is at most the number of the positions outside this
    zone, the board it returns has exactly [mineCount] mines, whatever the
    random draws. *)
Theorem placeMines_mines rnd b mineCount safeRow safeCol :
  rectangular b → is_Some (cellAt b safeRow safeCol) →
  ∃ b' : Board,
    placeMines rnd b mineCount safeRow safeCol = Ok b' ∧
    (∀ r c y, cellAt b' r c = Some y →
       (r, c) = (safeRow, safeCol) ∨ adjacent (safeRow, safeCol) (r, c) →
       isMine y = false) ∧
    (0 ≤ mineCount ≤ Z.of_nat (length (eligible b safeRow safeCol)) →
     Z.of_nat (mineCells b') = mineCount).
Proof.
  intros Hrect Hsafe. destruct b as [|row0 rest]; [done|].
  unfold placeMines.
  destruct (neighbors_spec (row0 :: rest) safeRow safeCol Hrect) as (nbrs & -> & Hnbrs).
  cbn [bind].
  pose proof (candidates_eligible row0 rest safeRow safeCol nbrs Hrect Hsafe Hnbrs)
    as Hcount.
  set (ncols := Z.of_nat (length row0)) in *.
  set (excluded := exclusion ncols safeRow safeCol nbrs) in *.
  set (candidates := filter (λ i, i ∉ excluded)
         (seqZ 0 (Z.of_nat (length (row0 :: rest)) * ncols))) in *.
  set (shuffled := fisherYates rnd (length candidates - 1) candidates).
  set (chosen := slice0 shuffled mineCount).
  assert (shuffled ≡ₚ candidates) as Hperm by by apply fisherYates_perm.
  assert (∀ i, i ∈ chosen → i ∉ excluded) as Hchosen.
  { intros i Hi%slice0_subseteq. rewrite Hperm in Hi.
    by apply list_elem_of_filter in Hi as [? _]. }
  eexists. split; [done|]. split.
  - intros r c y Hy Hzone.
    rewrite (cellAt_imap (λ i j cell, withMine cell
      (bool_decide (Z.of_nat i * ncols + Z.of_nat j ∈ (list_to_set chosen : gset Z)))))
      in Hy.
    destruct (cellAt (row0 :: rest) r c) as [x|] eqn:Hx; simplify_eq/=.
    pose proof (cellAt_nonneg _ _ _ _ Hx) as [Hr Hc].
    rewrite !Z2Nat.id by done. apply bool_decide_eq_false.
    intros Hin%elem_of_list_to_set%Hchosen. apply Hin, elem_of_exclusion.
    destruct Hzone as [?|Hadj]; [left; by simplify_eq|right].
    exists (r, c). split; [|done]. apply Hnbrs. split; [done|]. simpl. by rewrite Hx.
  - intros Hmines.
    match goal with |- Z.of_nat (mineCells ?X) = _ =>
      assert (mineCells X =
              length (filter (λ q : Z * Z,
                        bool_decide (q.1 * ncols + q.2 ∈ (list_to_set chosen : gset Z)) = true)
                      (coordsFrom 0 (row0 :: rest)))) as ->
    end.
    { exact (mineCells_imap
        (λ r c, bool_decide (r * ncols + c ∈ (list_to_set chosen : gset Z)))
        (row0 :: rest) 0). }
    pose proof (coordsFrom_pos (length row0) 0 (row0 :: rest) Hrect) as Hpos.
    rewrite Z.mul_0_l in Hpos. fold ncols in Hpos.
    assert (length (filter (λ q : Z * Z,
                      bool_decide (q.1 * ncols + q.2 ∈ (list_to_set chosen : gset Z)) = true)
                    (coordsFrom 0 (row0 :: rest))) =
            length (filter (λ i, i ∈ (list_to_set chosen : gset Z))
                      (seqZ 0 (Z.of_nat (length (row0 :: rest)) * ncols)))) as ->.
    { rewrite <-Hpos, length_filter_fmap. f_equal. apply filter_ext_elem.
      intros q _. apply bool_decide_eq_true. }
    assert (NoDup candidates) as Hnd by (apply NoDup_filter, NoDup_seqZ).
    rewrite length_filter_list_to_set.
    + apply length_slice0. rewrite (Permutation_length Hperm), Hcount. done.
    + apply (sublist_NoDup chosen shuffled); [by rewrite Hperm|apply slice0_sublist].
    + apply NoDup_seqZ.
    + intros i Hi%slice0_subseteq. rewrite Hperm in Hi.
      by apply list_elem_of_filter in Hi as [_ ?].
Qed.

(** The theorem on an empty board of four rows and four columns, for
    three mines and the safe cell in a corner. *)
Lemma placeMines_mines_witness :
  ∃ b' : Board,
    placeMines (λ i, i) (makeEmptyBoard 4 4) 3 0 0 = Ok b' ∧
    Z.of_nat (mineCells b') = 3.
Proof.
  destruct (placeMines_mines (λ i, i) (makeEmptyBoard 4 4) 3 0 0)
    as (b' & Hrun & _ & Hcount).
  - repeat constructor.
  - by eexists.
  - exists b'. split; [done|]. apply Hcount.
    assert (length (eligible (makeEmptyBoard 4 4) 0 0) = 12%nat) as ->
      by (vm_compute; reflexivity).
    lia.
Defined.

(** ** [computeAdjacent] *)

Lemma mapIndexed_Forall2 {A B} (f : Z → A → outcome B) (R : A → B → Prop) l :
  ∀ i,
    (∀ k x, l !! k = Some x → ∃ y, f (i + Z.of_nat k) x = Ok y ∧ R x y) →
    ∃ l', mapIndexed f i l = Ok l' ∧ Forall2 R l l'.
Proof.
  induction l as [|x l IH]; intros i Hf; simpl.
  { exists []. by split. }
  destruct (Hf 0%nat x) as (y & Hy & HR); [done|].
  rewrite Z.add_0_r in Hy. rewrite Hy. simpl.
  destruct (IH (i + 1)) as (l' & -> & Hl').
  { intros k x' Hk. destruct (Hf (S k) x' Hk) as (y' & Hy' & HR').
    exists y'. split; [|done]. rewrite <-Hy'. f_equal. lia. }
  simpl. exists (y :: l'). split; [done|]. by constructor.
Qed.

Lemma countMines_Ok b nbrs :
  (∀ q, q ∈ nbrs → is_Some (cellAt b q.1 q.2)) →
  ∃ n, countMines b nbrs = Ok n.
Proof.
  induction nbrs as [|[r c] nbrs IH]; intros Hin; simpl; [by eauto|].
  destruct (Hin (r, c)) as [x Hx]; [left|]. simpl in Hx.
  unfold readCell. rewrite Hx. simpl.
  destruct IH as [n ->]; [|simpl; by eauto].
  intros q Hq. apply Hin. by right.
Qed.

Lemma computeAdjacent_rel b :
  rectangular b →
  ∃ b' : Board,
    computeAdjacent b = Ok b' ∧
    boardRel (λ x y, ∃ n, y = withAdjacent x n) b b'.
Proof.
  intros Hrect. unfold computeAdjacent, boardRel.
  apply mapIndexed_Forall2. intros i row Hrow.
  apply mapIndexed_Forall2. intros j x Hx.
  destruct (isMine x); [by eauto|].
  destruct (neighbors_spec b (0 + Z.of_nat i) (0 + Z.of_nat j) Hrect)
    as (nbrs & -> & Hnbrs). simpl.
  destruct (countMines_Ok b nbrs) as [n ->]; [|simpl; by eauto].
  intros q Hq. by apply Hnbrs in Hq as [_ ?].
Qed.

(** ** [revealCell], as a relation between boards *)

Lemma revealCell_rel b r c x :
  rectangular b → cellAt b r c = Some x →
  ∃ b' : Board,
    revealCell b r c = Ok b' ∧
    boardRel cellUncover b b' ∧
    (isFlagged x = false →
     ∃ y, cellAt b' r c = Some y ∧ isRevealed y = true).
Proof.
  intros Hrect Hx.
  destruct (revealCell_cells b r c x Hrect Hx) as (b' & Hrun & Hshape & Hcells).
  exists b'. split_and!; [done| |].
  - apply boardRel_intro; [done|]. intros r' c' y Hy.
    destruct (Hcells r' c' y Hy) as (y' & Hy' & Hsame & Hrev).
    exists y'. split; [done|]. split; [done|].
    destruct Hsame as (_ & Hflag & _). split_and!; [done|tauto|].
    intros [?|[Hcov Hfl]]%Hrev; [by left|right].
    destruct (floods_covered b r c (ex_intro _ x (conj Hx Hcov)) (r', c') Hfl)
      as (y'' & Hy'' & _ & ?).
    simpl in Hy''. congruence.
  - intros Hflag. destruct (Hcells r c x Hx) as (y' & Hy' & _ & Hrev).
    exists y'. split; [done|]. apply Hrev.
    destruct (isRevealed x) eqn:Hr; [by left|right].
    split; [done|constructor].
Qed.

Lemma cellUncover_refl x : cellUncover x x.
Proof. split; [done|apply cellAdvance_refl]. Qed.

Lemma cellUncover_trans x y z : cellUncover x y → cellUncover y z → cellUncover x z.
Proof.
  intros [(Hm & Hf & Ha) Hadv] [(Hm' & Hf' & Ha') Hadv']. split.
  - split_and!; congruence.
  - by eapply cellAdvance_trans.
Qed.

(** ** Floods one after the other *)

Lemma isCoveredAt_true b q : isCoveredAt b q = true ↔ coveredAt b q.
Proof.
  unfold isCoveredAt, coveredAt, coveredCell.
  destruct (cellAt b q.1 q.2) as [x|].
  - split.
    + intros Hx. exists x. split; [done|].
      by destruct (isFlagged x), (isRevealed x).
    + intros (x' & ? & Hr & Hf). simplify_eq. by rewrite Hr, Hf.
  - split; [done|]. by intros (x & ? & _).
Qed.

Section FloodsAfterReveal.
Variables b b1 : Board.
Variable vis : list (Z * Z).
Hypothesis Hcell : ∀ r c,
  cellAt b1 r c =
  if decide ((r, c) ∈ vis) then markRevealed <$> cellAt b r c else cellAt b r c.
Hypothesis Hclosed : ∀ p q cp cq,
  p ∈ vis → cellAt b p.1 p.2 = Some cp → zeroCell cp → adjacent p q →
  cellAt b q.1 q.2 = Some cq → coveredCell cq → q ∈ vis.

Lemma coveredAt_after q : coveredAt b1 q ↔ coveredAt b q ∧ q ∉ vis.
Proof.
  destruct q as [r c]. unfold coveredAt. simpl. rewrite Hcell. split.
  - intros (x & Hx & Hcov). case_decide as Hq.
    + destruct (cellAt b r c); simplify_eq/=. by destruct Hcov.
    + eauto.
  - intros [(x & Hx & Hcov) Hq]. rewrite decide_False by done. eauto.
Qed.

Lemma zeroCell_after p cp :
  cellAt b p.1 p.2 = Some cp → zeroCell cp →
  ∃ cp', cellAt b1 p.1 p.2 = Some cp' ∧ zeroCell cp'.
Proof.
  destruct p as [r c]. simpl. intros Hcp Hz. rewrite Hcell, Hcp.
  case_decide; simpl; eauto.
Qed.

Lemma zeroCell_before p cp' :
  cellAt b1 p.1 p.2 = Some cp' → zeroCell cp' →
  ∃ cp, cellAt b p.1 p.2 = Some cp ∧ zeroCell cp.
Proof.
  destruct p as [r c]. simpl. rewrite Hcell. intros Hcp Hz.
  destruct (cellAt b r c) as [cp|]; [|by case_decide].
  exists cp. split; [done|]. case_decide; by simplify_eq/=.
Qed.

Lemma floods_before q p : coveredAt b1 q → floods b1 q p → floods b q p.
Proof.
  intros Hq. induction 1 as [|p' p cp cq _ IH Hcp Hzp Hadj Hcq Hcov]; [constructor|].
  destruct (zeroCell_before p' cp Hcp Hzp) as (cp0 & Hcp0 & Hzp0).
  assert (coveredAt b1 p) as [(cq0 & Hcq0 & Hcov0) _]%coveredAt_after by by exists cq.
  by apply (floods_step b q p' p cp0 cq0).
Qed.

Lemma floods_after q p :
  coveredAt b q → floods b q p → p ∈ vis ∨ (coveredAt b1 q ∧ floods b1 q p).
Proof.
  intros Hq. induction 1 as [|p' p cp cq _ IH Hcp Hzp Hadj Hcq Hcov].
  { destruct (decide (q ∈ vis)); [by left|right].
    split; [by apply coveredAt_after|constructor]. }
  destruct (decide (p ∈ vis)) as [?|Hp]; [by left|right].
  destruct IH as [Hp'|[Hq1 Hfl]].
  { exfalso. apply Hp. by apply (Hclosed p' p cp cq). }
  split; [done|].
  destruct (zeroCell_after p' cp Hcp Hzp) as (cp1 & Hcp1 & Hzp1).
  assert (coveredAt b1 p) as (cq1 & Hcq1 & Hcov1).
  { apply coveredAt_after. split; [by exists cq|done]. }
  by apply (floods_step b1 q p' p cp1 cq1).
Qed.
End FloodsAfterReveal.

(** The board that a sequence of reveals returns: the given board with
    the cells revealed that the floods from the covered cells of the
    sequence reach. *)
Lemma revealEach_floods qs : ∀ b,
  rectangular b →
  (∀ q, q ∈ qs → is_Some (cellAt b q.1 q.2)) →
  ∃ (b' : Board) (vis : list (Z * Z)),
    revealEach b qs = Ok b' ∧
    shape b' = shape b ∧
    (∀ p, p ∈ vis ↔ ∃ q, q ∈ qs ∧ coveredAt b q ∧ floods b q p) ∧
    (∀ r c, cellAt b' r c =
       if decide ((r, c) ∈ vis) then markRevealed <$> cellAt b r c
       else cellAt b r c).
Proof.
  induction qs as [|[r0 c0] qs IH]; intros b Hrect Hin.
  { exists b, []. split_and!; [done..| |done].
    intros p. split; [by intros ?%elem_of_nil|].
    intros (q & ?%elem_of_nil & _). done. }
  destruct (Hin (r0, c0)) as [x Hx]; [left|]. simpl in Hx.
  destruct (revealCell_spec b r0 c0 x Hrect Hx)
    as (b1 & vis1 & Hrun1 & Hshape1 & Hvis1 & Hcell1).
  assert (∀ p, p ∈ vis1 ↔ coveredAt b (r0, c0) ∧ floods b (r0, c0) p) as Hvis1'.
  { intros p. rewrite Hvis1. unfold coveredAt. simpl. split.
    - intros [? ?]. split; [by exists x|done].
    - intros [(x' & Hx' & ?) ?]. by simplify_eq. }
  assert (∀ p q cp cq,
    p ∈ vis1 → cellAt b p.1 p.2 = Some cp → zeroCell cp → adjacent p q →
    cellAt b q.1 q.2 = Some cq → coveredCell cq → q ∈ vis1) as Hclosed.
  { intros p q cp cq [Hcov Hfl]%Hvis1' Hcp Hzp Hadj Hcq Hcq'.
    apply Hvis1'. split; [done|]. by apply (floods_step b _ p q cp cq). }
  destruct (IH b1) as (b' & vis2 & Hrun2 & Hshape2 & Hvis2 & Hcell2).
  { by eapply rectangular_shape. }
  { intros q Hq. destruct (Hin q) as [y Hy]; [by right|].
    rewrite Hcell1, Hy. case_decide; simpl; eauto. }
  exists b', (vis1 ++ vis2). split_and!.
  - cbn [revealEach]. by rewrite Hrun1.
  - congruence.
  - intros p. rewrite elem_of_app, Hvis1', Hvis2. split.
    + intros [[Hcov Hfl]|(q & Hq & Hcov & Hfl)].
      * exists (r0, c0). split; [left|done].
      * exists q. split; [by right|].
        apply (coveredAt_after b b1 vis1 Hcell1) in Hcov as Hcov'.
        split; [by destruct Hcov'|].
        by apply (floods_before b b1 vis1 Hcell1).
    + intros (q & [->|Hq]%elem_of_cons & Hcov & Hfl); [by left|].
      destruct (floods_after b b1 vis1 Hcell1 Hclosed q p Hcov Hfl)
        as [Hp|[Hcov1 Hfl1]].
      * left. by apply Hvis1'.
      * right. by exists q.
  - intros r c. rewrite Hcell2, Hcell1.
    destruct (decide ((r, c) ∈ vis2)) as [H2|H2];
      destruct (decide ((r, c) ∈ vis1)) as [H1|H1].
    + rewrite decide_True by (apply elem_of_app; by left).
      by destruct (cellAt b r c).
    + by rewrite decide_True by (apply elem_of_app; by right).
    + by rewrite decide_True by (apply elem_of_app; by left).
    + rewrite decide_False; [done|]. by intros [?|?]%elem_of_app.
Qed.

(** ** [chordReveal] *)

Lemma countFlags_spec b nbrs :
  (∀ q, q ∈ nbrs → is_Some (cellAt b q.1 q.2)) →
  countFlags b nbrs =
  Ok (Z.of_nat (length (filter (λ q, isFlaggedAt b q = true) nbrs))).
Proof.
  induction nbrs as [|[r c] nbrs IH]; intros Hin; [done|].
  destruct (Hin (r, c)) as [x Hx]; [left|]. simpl in Hx.
  cbn [countFlags]. unfold readCell. rewrite Hx. cbn [bind].
  rewrite IH by (intros q Hq; apply Hin; by right). cbn [bind].
  assert (isFlaggedAt b (r, c) = isFlagged x) as Hf
    by (unfold isFlaggedAt; simpl; by rewrite Hx).
  rewrite filter_cons, Hf.
  destruct (isFlagged x); case_decide; try done; simpl; f_equal; lia.
Qed.

Lemma chordLoop_revealEach b nbrs : ∀ next,
  (∀ q, q ∈ nbrs → is_Some (cellAt b q.1 q.2)) →
  chordLoop b next nbrs =
  revealEach next (filter (λ q, isCoveredAt b q = true) nbrs).
Proof.
  induction nbrs as [|[r c] nbrs IH]; intros next Hin; [done|].
  destruct (Hin (r, c)) as [x Hx]; [left|]. simpl in Hx.
  cbn [chordLoop]. unfold readCell. rewrite Hx. cbn [bind].
  assert (isCoveredAt b (r, c) = negb (isFlagged x) && negb (isRevealed x)) as Hf
    by (unfold isCoveredAt; simpl; by rewrite Hx).
  rewrite filter_cons, Hf.
  assert (∀ q, q ∈ nbrs → is_Some (cellAt b q.1 q.2)) as Hin'
    by (intros q Hq; apply Hin; by right).
  destruct (negb (isFlagged x) && negb (isRevealed x)); case_decide; try done.
  - cbn [revealEach]. destruct (revealCell next r c); simpl; [by apply IH|done..].
  - by apply IH.
Qed.

Lemma revealEach_rel qs : ∀ b,
  rectangular b →
  (∀ q, q ∈ qs → is_Some (cellAt b q.1 q.2)) →
  ∃ b' : Board,
    revealEach b qs = Ok b' ∧
    boardRel cellUncover b b' ∧
    ∀ q, q ∈ qs → isFlaggedAt b q = false →
      ∃ y, cellAt b' q.1 q.2 = Some y ∧ isRevealed y = true.
Proof.
  induction qs as [|[r c] qs IH]; intros b Hrect Hin.
  { exists b. split_and!; [done| |].
    - apply boardRel_refl, cellUncover_refl.
    - intros q Hq. by apply elem_of_nil in Hq. }
  destruct (Hin (r, c)) as [x Hx]; [left|]. simpl in Hx.
  destruct (revealCell_rel b r c x Hrect Hx) as (b1 & Hrun & Hrel & Hrev).
  destruct (IH b1) as (b' & Hrun' & Hrel' & Hrev').
  { by eapply boardRel_rectangular. }
  { intros q Hq. destruct (Hin q) as [y Hy]; [by right|].
    destruct (boardRel_cellAt _ _ _ _ _ _ Hrel Hy) as (y' & -> & _). eauto. }
  exists b'. split_and!.
  - cbn [revealEach]. by rewrite Hrun.
  - eapply boardRel_trans; [apply cellUncover_trans|done..].
  - intros q [->|Hq]%elem_of_cons Hflag.
    + unfold isFlaggedAt in Hflag. simpl in *. rewrite Hx in Hflag.
      destruct (Hrev Hflag) as (y & Hy & Hr).
      destruct (boardRel_cellAt _ _ _ _ _ _ Hrel' Hy) as (y' & Hy' & _ & _ & Hm & _).
      eauto.
    + apply (Hrev' q Hq). unfold isFlaggedAt in *.
      destruct (Hin q) as [y Hy]; [by right|]. rewrite Hy in Hflag.
      destruct (boardRel_cellAt _ _ _ _ _ _ Hrel Hy) as (y' & -> & (_ & Hf & _) & _).
      congruence.
Qed.

Lemma chordReveal_rel b r c :
  rectangular b → is_Some (cellAt b r c) →
  ∃ b' : Board, chordReveal b r c = Ok b' ∧ boardRel cellUncover b b'.
Proof.
  intros Hrect [x Hx].
  assert (boardRel cellUncover b b) as Hrefl
    by apply boardRel_refl, cellUncover_refl.
  destruct (neighbors_spec b r c Hrect) as (nbrs & Hnbrs & Hin).
  assert (∀ q, q ∈ nbrs → is_Some (cellAt b q.1 q.2)) as Hin'
    by (intros q Hq; by apply Hin in Hq as [_ ?]).
  unfold chordReveal, readCell. rewrite Hx. cbn [bind].
  destruct (negb (isRevealed x) || bool_decide (adjacentMines x = 0)); [by eauto|].
  rewrite Hnbrs. cbn [bind]. rewrite (countFlags_spec b nbrs Hin'). cbn [bind].
  case_bool_decide; [by eauto|].
  rewrite (chordLoop_revealEach b nbrs b Hin').
  destruct (revealEach_rel (filter (λ q, isCoveredAt b q = true) nbrs) b Hrect)
    as (b' & Hrun & Hrel & _); [|by eauto].
  intros q [_ Hq]%list_elem_of_filter. by apply Hin'.
Qed.

(** C5.  [chordReveal] returns the board it was given unless the cell is
    revealed, has a positive count and has exactly as many flagged
    neighbors as its count.  In that case it returns the board obtained by
    [revealCell] at every neighbor that is neither flagged nor revealed,
    one after the other: each of these neighbors is revealed, and the
    cells revealed are exactly those that the floods from these
    neighbors reach. *)
Theorem chordReveal_gate b r c x nbrs :
  rectangular b → cellAt b r c = Some x → neighbors b r c = Ok nbrs →
  (¬ (isRevealed x = true ∧ 0 < adjacentMines x ∧
      Z.of_nat (length (filter (λ q, isFlaggedAt b q = true) nbrs))
      = adjacentMines x) →
   chordReveal b r c = Ok b) ∧
  (isRevealed x = true ∧ 0 < adjacentMines x ∧
   Z.of_nat (length (filter (λ q, isFlaggedAt b q = true) nbrs))
   = adjacentMines x →
   ∃ b' : Board,
     chordReveal b r c = Ok b' ∧
     revealEach b (filter (λ q, isCoveredAt b q = true) nbrs) = Ok b' ∧
     shape b' = shape b ∧
     (∀ q, q ∈ nbrs → isCoveredAt b q = true →
        ∃ y, cellAt b' q.1 q.2 = Some y ∧ isRevealed y = true) ∧
     (∀ r' c' y, cellAt b r' c' = Some y →
        ∃ y', cellAt b' r' c' = Some y' ∧ sameButRevealed y y' ∧
              (isRevealed y' = true ↔
               isRevealed y = true ∨
               ∃ q, q ∈ nbrs ∧ isCoveredAt b q = true ∧ floods b q (r', c')))).
Proof.
  intros Hrect Hx Hnbrs.
  destruct (neighbors_spec b r c Hrect) as (nbrs' & Hnbrs' & Hin).
  rewrite Hnbrs in Hnbrs'. simplify_eq.
  assert (∀ q, q ∈ nbrs' → is_Some (cellAt b q.1 q.2)) as Hin'
    by (intros q Hq; by apply Hin in Hq as [_ ?]).
  unfold chordReveal, readCell. rewrite Hx. cbn [bind].
  rewrite Hnbrs. cbn [bind]. rewrite (countFlags_spec b nbrs' Hin'). cbn [bind].
  split.
  - intros Hgate. destruct (isRevealed x); simpl; [|done].
    case_bool_decide as Hadj; simpl; [done|].
    case_bool_decide as Hcount; [done|]. exfalso. apply Hgate.
    split_and!; [done| |done]. rewrite <-Hcount in *. lia.
  - intros (Hrev & Hadj & Hcount). rewrite Hrev. simpl.
    rewrite bool_decide_eq_false_2 by lia. simpl.
    rewrite bool_decide_eq_false_2 by (intros Hne; by apply Hne).
    rewrite (chordLoop_revealEach b nbrs' b Hin').
    destruct (revealEach_floods (filter (λ q, isCoveredAt b q = true) nbrs') b Hrect)
      as (b' & vis & Hrun & Hshape & Hvis & Hcell).
    { intros q [_ Hq]%list_elem_of_filter. by apply Hin'. }
    assert (∀ p, p ∈ vis ↔
              ∃ q, q ∈ nbrs' ∧ isCoveredAt b q = true ∧ floods b q p) as Hvis'.
    { intros p. rewrite Hvis. split.
      - intros (q & [Hcov Hq]%list_elem_of_filter & _ & Hfl). by exists q.
      - intros (q & Hq & Hcov & Hfl). exists q. split_and!; [|by apply isCoveredAt_true|done].
        by apply list_elem_of_filter. }
    exists b'. split_and!; [done..| |].
    + intros [r' c'] Hq Hcov. pose proof Hcov as (y & Hy & _)%isCoveredAt_true.
      simpl in *. rewrite Hcell, Hy, decide_True; [by eauto|].
      apply Hvis'. exists (r', c'). split_and!; [done..|constructor].
    + intros r' c' y Hy. rewrite Hcell, Hy. case_decide as Hp; simpl.
      * exists (markRevealed y). split_and!; [done..|]. simpl.
        apply Hvis' in Hp. tauto.
      * exists y. split_and!; [done..|]. split; [tauto|].
        intros [?|Hfl]; [done|]. exfalso. by apply Hp, Hvis'.
Qed.

(** The theorem on a row of a flagged mine, a revealed cell of count one
    and a covered cell: the covered cell is revealed. *)
Lemma chordReveal_gate_witness :
  ∃ b' : Board,
    chordReveal chordRow 0 1 = Ok b' ∧
    revealEach chordRow (filter (λ q, isCoveredAt chordRow q = true) [(0, 0); (0, 2)])
      = Ok b' ∧
    shape b' = shape chordRow ∧
    (∀ q, q ∈ [(0, 0); (0, 2)] → isCoveredAt chordRow q = true →
       ∃ y, cellAt b' q.1 q.2 = Some y ∧ isRevealed y = true) ∧
    (∀ r' c' y, cellAt chordRow r' c' = Some y →
       ∃ y', cellAt b' r' c' = Some y' ∧ sameButRevealed y y' ∧
             (isRevealed y' = true ↔
              isRevealed y = true ∨
              ∃ q, q ∈ [(0, 0); (0, 2)] ∧ isCoveredAt chordRow q = true ∧
                   floods chordRow q (r', c'))).
Proof.
  apply (chordReveal_gate chordRow 0 1 (mkCell false true false 1) [(0, 0); (0, 2)]).
  - repeat constructor.
  - reflexivity.
  - reflexivity.
  - split_and!; [reflexivity|simpl; lia|reflexivity].
Defined.

(** ** The scan for a revealed mine *)

Lemma scanRow_None row r c0 :
  scanRow row r c0 = None →
  ∀ x, x ∈ row → ¬ (isMine x = true ∧ isRevealed x = true).
Proof.
  revert c0. induction row as [|y row IH]; intros c0 Hscan x Hx.
  { by apply elem_of_nil in Hx. }
  simpl in Hscan. destruct (isMine y && isRevealed y) eqn:Hy; [done|].
  apply elem_of_cons in Hx as [->|Hx]; [|by eapply IH].
  intros [Hm Hr]. by rewrite Hm, Hr in Hy.
Qed.

Lemma scanRow_Some row r c0 p :
  scanRow row r c0 = Some p →
  p.1 = r ∧ c0 ≤ p.2 ∧
  (∃ x, row !! Z.to_nat (p.2 - c0) = Some x ∧
        isMine x = true ∧ isRevealed x = true) ∧
  (∀ j x, row !! j = Some x → c0 + Z.of_nat j < p.2 →
     ¬ (isMine x = true ∧ isRevealed x = true)).
Proof.
  revert c0. induction row as [|y row IH]; intros c0 Hscan; [done|].
  simpl in Hscan. destruct (isMine y && isRevealed y) eqn:Hy.
  - simplify_eq/=. apply andb_true_iff in Hy as [Hm Hr].
    split_and!; [done|lia| |].
    + exists y. by rewrite Z.sub_diag.
    + intros j x _ ?. lia.
  - destruct (IH _ Hscan) as (Hp1 & Hp2 & (x & Hx & Hmine) & Hfirst).
    split_and!; [done|lia| |].
    + exists x. split; [|done].
      replace (Z.to_nat (p.2 - c0)) with (S (Z.to_nat (p.2 - (c0 + 1)))) by lia.
      done.
    + intros [|j] x' Hx' Hlt [Hm Hr]; simplify_eq/=.
      * by rewrite Hm, Hr in Hy.
      * apply (Hfirst j x' Hx'); [lia|done].
Qed.

Lemma scanBoard_None b k :
  scanBoard b k = None →
  ∀ r c x, cellAt b r c = Some x → ¬ (isMine x = true ∧ isRevealed x = true).
Proof.
  revert k. induction b as [|row b IH]; intros k Hscan r c x Hx.
  { by apply cellAt_Some in Hx as (_ & _ & ? & ? & _). }
  simpl in Hscan. destruct (scanRow row k 0) as [p|] eqn:Hrow; [done|].
  apply cellAt_Some in Hx as (Hr & Hc & row' & Hrow' & Hx).
  destruct (Z.to_nat r) as [|i] eqn:Hi; simplify_eq/=.
  - eapply scanRow_None; [done|]. by eapply list_elem_of_lookup_2.
  - apply (IH _ Hscan (Z.of_nat i) c x). apply cellAt_Some.
    split_and!; [lia..|]. exists row'. by rewrite Nat2Z.id.
Qed.

Lemma scanBoard_Some b k p :
  scanBoard b k = Some p →
  k ≤ p.1 ∧
  (∃ x, cellAt b (p.1 - k) p.2 = Some x ∧
        isMine x = true ∧ isRevealed x = true) ∧
  (∀ r c x, cellAt b r c = Some x → before (k + r, c) p →
     ¬ (isMine x = true ∧ isRevealed x = true)).
Proof.
  revert k. induction b as [|row b IH]; intros k Hscan; [done|].
  simpl in Hscan. destruct (scanRow row k 0) as [p'|] eqn:Hrow.
  - simplify_eq. apply scanRow_Some in Hrow as (Hp1 & Hp2 & (x & Hx & Hmine) & Hfirst).
    split_and!; [lia| |].
    + exists x. split; [|done]. apply cellAt_Some.
      split_and!; [lia..|]. exists row. rewrite Hp1, Z.sub_diag.
      by rewrite Z.sub_0_r in Hx.
    + intros r c x' (Hr & Hc & row' & Hrow' & Hx')%cellAt_Some [Hlt|[Heq Hlt]];
        simpl in *; [lia|].
      assert (r = 0) as -> by lia. simplify_eq/=.
      apply (Hfirst (Z.to_nat c) x' Hx'). lia.
  - destruct (IH _ Hscan) as (Hk & (x & Hx & Hmine) & Hfirst).
    split_and!; [lia| |].
    + exists x. split; [|done].
      apply cellAt_Some in Hx as (Hr & Hc & row' & Hrow' & Hx).
      apply cellAt_Some. split_and!; [lia..|]. exists row'. split; [|done].
      replace (Z.to_nat (p.1 - k)) with (S (Z.to_nat (p.1 - (k + 1)))) by lia.
      done.
    + intros r c x' (Hr & Hc & row' & Hrow' & Hx')%cellAt_Some Hbefore.
      destruct (Z.to_nat r) as [|i] eqn:Hi; simplify_eq/=.
      * eapply scanRow_None; [done|]. by eapply list_elem_of_lookup_2.
      * apply (Hfirst (Z.of_nat i) c x').
        -- apply cellAt_Some. split_and!; [lia..|]. exists row'. by rewrite Nat2Z.id.
        -- destruct Hbefore as [?|[? ?]]; simpl in *; [left|right]; simpl; lia.
Qed.

(** ** The moves of the game *)

(** C6.  In a playing state, when the board that [chordReveal] returns
    has a revealed mine, the [CHORD] move ends in a lost state whose board
    has every mine revealed and whose [losingCell] is the first revealed
    mine of that board in row-major order. *)
Theorem chord_reveals_mine rnd s r c b :
  status s = playing →
  chordReveal (board s) r c = Ok b →
  (∃ r' c' y, cellAt b r' c' = Some y ∧ isMine y = true ∧ isRevealed y = true) →
  ∃ s' p,
    reducer rnd s (CHORD r c) = Ok s' ∧
    status s' = lost ∧
    board s' = revealAllMines b ∧
    (∀ r' c' y, cellAt (board s') r' c' = Some y → isMine y = true →
       isRevealed y = true) ∧
    losingCell s' = Some p ∧
    (∃ x, cellAt b p.1 p.2 = Some x ∧ isMine x = true ∧ isRevealed x = true) ∧
    (∀ q x, cellAt b q.1 q.2 = Some x → before q p →
       ¬ (isMine x = true ∧ isRevealed x = true)).
Proof.
  intros Hst Hchord (r' & c' & y & Hy & Hmine).
  unfold reducer. rewrite Hst, bool_decide_eq_false_2 by (intros Hne; by apply Hne).
  rewrite Hchord. cbn [bind].
  destruct (scanBoard b 0) as [p|] eqn:Hscan.
  2:{ exfalso. by apply (scanBoard_None b 0 Hscan r' c' y). }
  apply scanBoard_Some in Hscan as (_ & Hp & Hfirst).
  rewrite Z.sub_0_r in Hp.
  exists (lostState s b p), p. split_and!; try done.
  - intros r1 c1 y1 Hy1 Hm1. simpl in Hy1.
    rewrite revealAllMines_cellAt in Hy1.
    destruct (cellAt b r1 c1) as [x1|]; simplify_eq/=.
    destruct (isMine x1) eqn:Hx1; [done|congruence].
  - intros [r1 c1] x Hx Hbefore. apply (Hfirst r1 c1 x Hx).
    by rewrite Z.add_0_l.
Qed.

(** The theorem on the row of a flagged cell without a mine, a revealed
    cell of count one and a covered mine: the chord reveals the mine. *)
Lemma chord_reveals_mine_witness :
  ∃ s' p,
    reducer (λ i, i) chordState (CHORD 0 1) = Ok s' ∧
    status s' = lost ∧
    board s' = revealAllMines chordLossBoard ∧
    (∀ r' c' y, cellAt (board s') r' c' = Some y → isMine y = true →
       isRevealed y = true) ∧
    losingCell s' = Some p ∧
    (∃ x, cellAt chordLossBoard p.1 p.2 = Some x ∧
          isMine x = true ∧ isRevealed x = true) ∧
    (∀ q x, cellAt chordLossBoard q.1 q.2 = Some x → before q p →
       ¬ (isMine x = true ∧ isRevealed x = true)).
Proof.
  apply (chord_reveals_mine (λ i, i) chordState 0 1 chordLossBoard).
  - reflexivity.
  - reflexivity.
  - exists 0, 2, (mkCell true true false 0). by split_and!.
Defined.

(** C7.  The [FLAG] move on an idle state, at a cell of the board that is
    not revealed, returns a playing state whose board is the board of the
    state with the flag of this cell flipped, and whose [flagCount] is one
    more or one less according to the new flag.  No mine is placed: a
    board without mines stays without mines. *)
Theorem flag_in_idle rnd s r c x :
  status s = idle →
  cellAt (board s) r c = Some x → isRevealed x = false →
  (∀ r' c' y, cellAt (board s) r' c' = Some y → isMine y = false) →
  ∃ s',
    reducer rnd s (FLAG r c) = Ok s' ∧
    status s' = playing ∧
    cellAt (board s') r c = Some (flipFlag x) ∧
    (∀ r' c', (r', c') ≠ (r, c) →
       cellAt (board s') r' c' = cellAt (board s) r' c') ∧
    flagCount s' = flagCount s + (if isFlagged x then -1 else 1) ∧
    (∀ r' c' y, cellAt (board s') r' c' = Some y → isMine y = false).
Proof.
  intros Hst Hx Hrev Hmines.
  destruct (toggleFlag_spec (board s) r c x Hx) as (b' & Hrun & Hshape & Hcell).
  assert (cellAt b' r c = Some (flipFlag x)) as Hnew.
  { rewrite Hcell, decide_True, Hx by done. done. }
  unfold reducer. rewrite Hst. simpl.
  unfold readCell at 1. rewrite Hx. cbn [bind]. rewrite Hrev, Hrun. cbn [bind].
  unfold readCell. rewrite Hnew. cbn [bind].
  eexists. split; [done|]. simpl. split_and!; [done..| | |].
  - intros r' c' Hne. rewrite Hcell. rewrite decide_False; [done|]. by intros [? _].
  - by destruct (isFlagged x).
  - intros r' c' y Hy. rewrite Hcell in Hy.
    destruct (cellAt (board s) r' c') as [x'|] eqn:Hx'; [|by case_decide].
    specialize (Hmines r' c' x' Hx').
    case_decide; simplify_eq/=; done.
Qed.

(** The theorem on the initial state of a beginner game, flagged in its
    first cell. *)
Lemma flag_in_idle_witness :
  ∃ s',
    reducer (λ i, i) (makeInitialState beginner) (FLAG 0 0) = Ok s' ∧
    status s' = playing ∧
    cellAt (board s') 0 0 = Some (flipFlag makeCell) ∧
    (∀ r' c', (r', c') ≠ (0, 0) →
       cellAt (board s') r' c' =
       cellAt (board (makeInitialState beginner)) r' c') ∧
    flagCount s' = flagCount (makeInitialState beginner) +
                   (if isFlagged makeCell then -1 else 1) ∧
    (∀ r' c' y, cellAt (board s') r' c' = Some y → isMine y = false).
Proof.
  apply (flag_in_idle (λ i, i) (makeInitialState beginner) 0 0 makeCell).
  - reflexivity.
  - reflexivity.
  - reflexivity.
  - intros r' c' y (_ & _ & row & Hrow & Hy)%cellAt_Some.
    simpl in Hrow. unfold makeEmptyBoard in Hrow.
    apply lookup_replicate in Hrow as [-> _].
    by apply lookup_replicate in Hy as [-> _].
Defined.

(** C8.  In a won or lost state the [REVEAL], [FLAG], [CHORD] and [TICK]
    moves return the state they were given, at any coordinate.  [TICK]
    returns the state it was given in every status but [playing], where
    it adds one to [elapsed] and changes nothing else. *)
Theorem terminal_states rnd s :
  (status s = won ∨ status s = lost →
   (∀ r c, reducer rnd s (REVEAL r c) = Ok s) ∧
   (∀ r c, reducer rnd s (FLAG r c) = Ok s) ∧
   (∀ r c, reducer rnd s (CHORD r c) = Ok s) ∧
   reducer rnd s TICK = Ok s) ∧
  (status s ≠ playing → reducer rnd s TICK = Ok s) ∧
  (status s = playing →
   reducer rnd s TICK =
   Ok (mkState (board s) playing (difficulty s) (flagCount s) (elapsed s + 1)
               (startTime s) (losingCell s))).
Proof.
  split_and!.
  - intros Hst. unfold reducer. split_and!; intros.
    + by rewrite bool_decide_eq_true_2.
    + by rewrite bool_decide_eq_true_2.
    + rewrite bool_decide_eq_true_2; [done|]. by destruct Hst as [-> | ->].
    + rewrite bool_decide_eq_true_2; [done|]. by destruct Hst as [-> | ->].
  - intros Hst. unfold reducer. by rewrite bool_decide_eq_true_2.
  - intros Hst. unfold reducer.
    rewrite bool_decide_eq_false_2 by (intros Hne; by apply Hne).
    by rewrite Hst.
Qed.

(** The theorem on a lost state. *)
Lemma terminal_states_witness :
  (∀ r c, reducer (λ i, i) lostExample (REVEAL r c) = Ok lostExample) ∧
  (∀ r c, reducer (λ i, i) lostExample (FLAG r c) = Ok lostExample) ∧
  (∀ r c, reducer (λ i, i) lostExample (CHORD r c) = Ok lostExample) ∧
  reducer (λ i, i) lostExample TICK = Ok lostExample.
Proof.
  apply (terminal_states (λ i, i) lostExample). by right.
Defined.

(** ** Counting flags *)

Lemma board_ext (b b' : Board) :
  shape b' = shape b → (∀ r c, cellAt b' r c = cellAt b r c) → b' = b.
Proof.
  intros Hshape Hcells. symmetry.
  assert (boardRel eq b b') as Hrel.
  { apply boardRel_intro; [done|]. intros r c x Hx. exists x. by rewrite Hcells. }
  apply list_eq_Forall2. eapply Forall2_impl; [exact Hrel|].
  intros row row' Hrow. by apply list_eq_Forall2.
Qed.

Lemma cellAt_alter (f : CellState → CellState) (b : Board) r c r' c' :
  0 ≤ r → 0 ≤ c →
  cellAt (alter (alter f (Z.to_nat c)) (Z.to_nat r) b) r' c' =
  if decide ((r', c') = (r, c)) then f <$> cellAt b r' c' else cellAt b r' c'.
Proof.
  intros Hr Hc. unfold cellAt, rowAt.
  destruct (decide (0 ≤ r')); [|by case_decide].
  destruct (decide (Z.to_nat r' = Z.to_nat r)) as [Heq|Hneq].
  - rewrite Heq, list_lookup_alter_eq.
    destruct (b !! Z.to_nat r) as [row|]; simpl; [|by case_decide].
    destruct (decide (0 ≤ c')); [|by case_decide].
    case_decide as Hd.
    + simplify_eq. by rewrite list_lookup_alter_eq.
    + rewrite list_lookup_alter_ne; [done|].
      intros Hcc. apply Hd. f_equal; lia.
  - rewrite list_lookup_alter_ne by done.
    rewrite decide_False; [done|]. intros ?; simplify_eq.
Qed.

Lemma shape_alter (f : CellState → CellState) (b : Board) i j :
  shape (alter (alter f j) i b) = shape b.
Proof.
  unfold shape. apply list_eq. intros k.
  rewrite !list_lookup_fmap.
  destruct (decide (k = i)) as [->|Hne].
  - rewrite list_lookup_alter_eq. destruct (b !! i); simpl; [|done].
    by rewrite length_alter.
  - by rewrite list_lookup_alter_ne.
Qed.

Lemma flaggedRow_alter row j x :
  row !! j = Some x →
  Z.of_nat (length (filter (λ cell, isFlagged cell = true) (alter flipFlag j row))) =
  Z.of_nat (length (filter (λ cell, isFlagged cell = true) row)) +
  (if isFlagged x then -1 else 1).
Proof.
  revert j. induction row as [|y row IH]; intros [|j] Hx; simplify_eq/=.
  - rewrite !filter_cons. simpl.
    destruct (isFlagged x); repeat case_decide; try done; simpl; lia.
  - rewrite !filter_cons. specialize (IH j Hx).
    destruct (decide (isFlagged y = true)); simpl; lia.
Qed.

Lemma flaggedCells_alter (b : Board) i j row x :
  b !! i = Some row → row !! j = Some x →
  Z.of_nat (flaggedCells (alter (alter flipFlag j) i b)) =
  Z.of_nat (flaggedCells b) + (if isFlagged x then -1 else 1).
Proof.
  unfold flaggedCells, cells. intros Hrow Hx. revert i Hrow.
  induction b as [|row' b IH]; intros [|i] Hrow; simplify_eq/=.
  - rewrite !filter_app, !length_app.
    pose proof (flaggedRow_alter row j x Hx). lia.
  - rewrite !filter_app, !length_app. specialize (IH i Hrow). lia.
Qed.

Lemma flaggedCells_toggle b b' r c x :
  cellAt b r c = Some x →
  shape b' = shape b →
  (∀ r' c', cellAt b' r' c' =
     if decide ((r', c') = (r, c)) then flipFlag <$> cellAt b r' c'
     else cellAt b r' c') →
  Z.of_nat (flaggedCells b') =
  Z.of_nat (flaggedCells b) + (if isFlagged x then -1 else 1).
Proof.
  intros Hx Hshape Hcells.
  pose proof Hx as (Hr & Hc & row & Hrow & Hx')%cellAt_Some.
  assert (b' = alter (alter flipFlag (Z.to_nat c)) (Z.to_nat r) b) as ->.
  { apply board_ext.
    - by rewrite shape_alter.
    - intros r' c'. by rewrite Hcells, cellAt_alter. }
  by apply (flaggedCells_alter b _ _ row x).
Qed.

Lemma flaggedCells_makeEmptyBoard n m : flaggedCells (makeEmptyBoard n m) = 0%nat.
Proof.
  unfold flaggedCells.
  destruct (filter _ (cells (makeEmptyBoard n m))) as [|x l] eqn:Hf; [done|].
  assert (x ∈ filter (λ cell, isFlagged cell = true) (cells (makeEmptyBoard n m)))
    as Hin by (rewrite Hf; left).
  apply list_elem_of_filter in Hin as [Hflag (r & c & Hx)%elem_of_cells].
  apply cellAt_Some in Hx as (_ & _ & row & Hrow & Hx).
  unfold makeEmptyBoard in Hrow. apply lookup_replicate in Hrow as [-> _].
  by apply lookup_replicate in Hx as [-> _].
Qed.

Lemma rectangular_makeEmptyBoard n m : (0 < n)%nat → rectangular (makeEmptyBoard n m).
Proof.
  intros Hn. destruct n as [|n]; [lia|]. unfold makeEmptyBoard, rectangular.
  cbn [replicate]. rewrite length_replicate.
  apply Forall_forall. intros row Hrow.
  change (row ∈ replicate (S n) (replicate m makeCell)) in Hrow.
  apply elem_of_replicate in Hrow as [-> _]. by rewrite length_replicate.
Qed.

(** ** The steps of the reducer *)

Lemma withMine_advance x m : cellAdvance x (withMine x m).
Proof. unfold cellAdvance. simpl. tauto. Qed.

Lemma withAdjacent_advance x n : cellAdvance x (withAdjacent x n).
Proof. unfold cellAdvance. simpl. tauto. Qed.

(** The board on which the [REVEAL] move calls [revealCell]: the board of
    the state, with mines and counts if the state is idle. *)
Lemma reveal_prepares rnd s r c :
  rectangular (board s) →
  ∃ b0 st,
    (if bool_decide (status s = idle)
     then
       do b1 <- placeMines rnd (board s) (mines (DIFFICULTIES (difficulty s))) r c;
       do b2 <- computeAdjacent b1;
       Ok (b2, playing)
     else Ok (board s, status s)) = Ok (b0, st) ∧
    boardRel cellAdvance (board s) b0.
Proof.
  intros Hrect. case_bool_decide.
  - destruct (placeMines_rel rnd (board s) (mines (DIFFICULTIES (difficulty s))) r c)
      as (b1 & -> & Hrel1).
    { intros Hnil. by rewrite Hnil in Hrect. }
    cbn [bind].
    destruct (computeAdjacent_rel b1) as (b2 & -> & Hrel2).
    { by eapply boardRel_rectangular. }
    cbn [bind]. exists b2, playing. split; [done|].
    eapply boardRel_trans; [apply cellAdvance_trans| |].
    + eapply boardRel_impl; [|exact Hrel1].
      intros x y [m ->]. apply withMine_advance.
    + eapply boardRel_impl; [|exact Hrel2].
      intros x y [n ->]. apply withAdjacent_advance.
  - exists (board s), (status s). split; [done|].
    apply boardRel_refl, cellAdvance_refl.
Qed.

(** A move that does not start a new game leaves the board as it is up to
    reveals of unflagged cells, or flips the flag of one hidden cell, or
    ends a lost game by revealing the mines. *)
Lemma reducer_step rnd s a s' :
  rectangular (board s) → ¬ isReset a → reducer rnd s a = Ok s' →
  (boardRel cellAdvance (board s) (board s') ∧ flagCount s' = flagCount s) ∨
  (∃ r c x,
     cellAt (board s) r c = Some x ∧ isRevealed x = false ∧
     shape (board s') = shape (board s) ∧
     (∀ r' c', cellAt (board s') r' c' =
        if decide ((r', c') = (r, c)) then flipFlag <$> cellAt (board s) r' c'
        else cellAt (board s) r' c') ∧
     flagCount s' = flagCount s + (if isFlagged x then -1 else 1)) ∨
  (∃ b,
     boardRel cellAdvance (board s) b ∧ board s' = revealAllMines b ∧
     flagCount s' = flagCount s ∧ status s' = lost).
Proof.
  intros Hrect Hreset Hrun.
  assert (boardRel cellAdvance (board s) (board s)) as Hrefl
    by apply boardRel_refl, cellAdvance_refl.
  destruct a as [r c|r c|r c| | |]; simpl in Hrun; try done.
  - (* REVEAL *)
    case_bool_decide; [left; by simplify_eq|].
    unfold readCell at 1 in Hrun.
    destruct (cellAt (board s) r c) as [x|] eqn:Hx; [|done]. cbn [bind] in Hrun.
    destruct (isRevealed x || isFlagged x); [left; by simplify_eq|].
    destruct (reveal_prepares rnd s r c Hrect) as (b0 & st & Hprep & Hrel0).
    rewrite Hprep in Hrun. cbn [bind fst snd] in Hrun.
    destruct (boardRel_cellAt _ _ _ _ _ _ Hrel0 Hx) as (x0 & Hx0 & _).
    destruct (revealCell_rel b0 r c x0) as (b & Hreveal & Hrel & _);
      [by eapply boardRel_rectangular|done|].
    rewrite Hreveal in Hrun. cbn [bind] in Hrun.
    assert (boardRel cellAdvance (board s) b) as Hrelb.
    { eapply boardRel_trans; [apply cellAdvance_trans|done|].
      eapply boardRel_impl; [|exact Hrel]. by intros ? ? [_ ?]. }
    destruct (readCell b r c) as [hit| |]; [|done..]. cbn [bind] in Hrun.
    destruct (isMine hit).
    { right; right. exists b. by simplify_eq. }
    left. destruct (checkWin b _); by simplify_eq.
  - (* FLAG *)
    case_bool_decide; [left; by simplify_eq|].
    unfold readCell at 1 in Hrun.
    destruct (cellAt (board s) r c) as [x|] eqn:Hx; [|done]. cbn [bind] in Hrun.
    destruct (isRevealed x) eqn:Hrev; [left; by simplify_eq|].
    destruct (toggleFlag_spec (board s) r c x Hx) as (b' & Htoggle & Hshape & Hcell).
    rewrite Htoggle in Hrun. cbn [bind] in Hrun.
    assert (cellAt b' r c = Some (flipFlag x)) as Hnew.
    { rewrite Hcell, decide_True, Hx by done. done. }
    unfold readCell in Hrun. rewrite Hnew in Hrun. cbn [bind] in Hrun.
    right; left. exists r, c, x. simplify_eq. simpl. split_and!; [done..| |].
    + intros r' c'. rewrite Hcell.
      destruct (decide ((r', c') = (r, c))).
      * by rewrite decide_True.
      * rewrite decide_False; [done|]. by intros [? _].
    + by destruct (isFlagged x).
  - (* CHORD *)
    case_bool_decide; [left; by simplify_eq|].
    destruct (chordReveal (board s) r c) as [b| |] eqn:Hchord; [|done..].
    cbn [bind] in Hrun.
    assert (boardRel cellAdvance (board s) b) as Hrelb.
    { destruct (chordReveal_rel (board s) r c Hrect) as (b' & Hchord' & Hrel).
      - unfold chordReveal, readCell in Hchord.
        destruct (cellAt (board s) r c); [by eauto|done].
      - rewrite Hchord in Hchord'. simplify_eq.
        eapply boardRel_impl; [|exact Hrel]. by intros ? ? [_ ?]. }
    destruct (scanBoard b 0) as [p|].
    { right; right. exists b. by simplify_eq. }
    left. destruct (checkWin b _); by simplify_eq.
  - (* TICK *)
    left. case_bool_decide; by simplify_eq.
Qed.

Lemma reducer_rectangular rnd s a s' :
  rectangular (board s) → reducer rnd s a = Ok s' → rectangular (board s').
Proof.
  intros Hrect Hrun.
  assert (∀ d, rectangular (board (makeInitialState d))) as Hinit.
  { intros d. apply rectangular_makeEmptyBoard. destruct d; simpl; lia. }
  destruct (decide (isReset a)) as [Hreset|Hreset].
  { destruct a; try done; simpl in Hrun; simplify_eq; apply Hinit. }
  destruct (reducer_step rnd s a s' Hrect Hreset Hrun)
    as [[Hrel _]|[(r & c & x & _ & _ & Hshape & _)|(b & Hrel & Hb & _)]].
  - by eapply boardRel_rectangular.
  - eapply rectangular_shape; [|done]. done.
  - rewrite Hb. eapply boardRel_rectangular; [apply revealAllMines_rel|].
    by eapply boardRel_rectangular.
Qed.

Lemma reachable_rectangular s : reachable s → rectangular (board s).
Proof.
  induction 1 as [d|rnd s a s' _ IH Hrun].
  - apply rectangular_makeEmptyBoard. destruct d; simpl; lia.
  - by eapply reducer_rectangular.
Qed.

(** On a rectangular board a move at a coordinate of the board returns
    a state: no exception is raised. *)
Lemma reducer_total rnd s a :
  rectangular (board s) → inBounds s a → ∃ s', reducer rnd s a = Ok s'.
Proof.
  intros Hrect Hin. destruct a as [r c|r c|r c| | |]; simpl in *.
  - (* REVEAL *)
    case_bool_decide; [by eauto|]. destruct Hin as [x Hx].
    unfold readCell at 1. rewrite Hx. cbn [bind].
    destruct (isRevealed x || isFlagged x); [by eauto|].
    destruct (reveal_prepares rnd s r c Hrect) as (b0 & st & -> & Hrel0).
    cbn [bind fst snd].
    destruct (boardRel_cellAt _ _ _ _ _ _ Hrel0 Hx) as (x0 & Hx0 & _).
    destruct (revealCell_rel b0 r c x0) as (b & -> & Hrel & _);
      [by eapply boardRel_rectangular|done|].
    cbn [bind].
    destruct (boardRel_cellAt _ _ _ _ _ _ Hrel Hx0) as (hit & Hhit & _).
    unfold readCell. rewrite Hhit. cbn [bind].
    destruct (isMine hit); [by eauto|]. destruct (checkWin b _); by eauto.
  - (* FLAG *)
    case_bool_decide; [by eauto|]. destruct Hin as [x Hx].
    unfold readCell at 1. rewrite Hx. cbn [bind].
    destruct (isRevealed x) eqn:Hrev; [by eauto|].
    destruct (toggleFlag_spec (board s) r c x Hx) as (b' & -> & _ & Hcell).
    cbn [bind]. unfold readCell.
    rewrite Hcell, decide_True, Hx by done. simpl. by eauto.
  - (* CHORD *)
    case_bool_decide; [by eauto|].
    destruct (chordReveal_rel (board s) r c Hrect Hin) as (b & -> & _).
    cbn [bind]. destruct (scanBoard b 0); [by eauto|].
    destruct (checkWin b _); by eauto.
  - by eauto.
  - by eauto.
  - case_bool_decide; by eauto.
Qed.

(** The idle states of a game are the initial states: their boards have
    no mine, no flag and no revealed cell. *)
Lemma reachable_idle s :
  reachable s → status s = idle → s = makeInitialState (difficulty s).
Proof.
  induction 1 as [d|rnd s a s' Hreach IH Hrun]; [done|]. intros Hidle.
  assert (s' = s → s' = makeInitialState (difficulty s')) as Hsame.
  { intros ->. by apply IH. }
  destruct a as [r c|r c|r c| |d|]; simpl in Hrun.
  - (* REVEAL *)
    case_bool_decide; [apply Hsame; by simplify_eq|].
    destruct (readCell (board s) r c) as [x| |]; [|done..]. cbn [bind] in Hrun.
    destruct (isRevealed x || isFlagged x); [apply Hsame; by simplify_eq|].
    exfalso.
    destruct (bool_decide (status s = idle)) eqn:Hst.
    + destruct (placeMines _ _ _ _ _) as [b1| |]; [|done..]. cbn [bind] in Hrun.
      destruct (computeAdjacent b1) as [b2| |]; [|done..]. cbn [bind fst snd] in Hrun.
      destruct (revealCell b2 r c) as [b| |]; [|done..]. cbn [bind] in Hrun.
      destruct (readCell b r c) as [hit| |]; [|done..]. cbn [bind] in Hrun.
      destruct (isMine hit); [by simplify_eq|].
      destruct (checkWin b _); by simplify_eq.
    + apply bool_decide_eq_false in Hst. cbn [bind fst snd] in Hrun.
      destruct (revealCell (board s) r c) as [b| |]; [|done..]. cbn [bind] in Hrun.
      destruct (readCell b r c) as [hit| |]; [|done..]. cbn [bind] in Hrun.
      destruct (isMine hit); [by simplify_eq|].
      destruct (checkWin b _); simplify_eq; simpl in *; done.
  - (* FLAG *)
    case_bool_decide; [apply Hsame; by simplify_eq|].
    destruct (readCell (board s) r c) as [x| |]; [|done..]. cbn [bind] in Hrun.
    destruct (isRevealed x); [apply Hsame; by simplify_eq|].
    destruct (toggleFlag (board s) r c) as [b'| |]; [|done..]. cbn [bind] in Hrun.
    destruct (readCell b' r c) as [y| |]; [|done..]. cbn [bind] in Hrun.
    exfalso. simplify_eq. simpl in Hidle. by case_bool_decide.
  - (* CHORD *)
    case_bool_decide as Hst; [apply Hsame; by simplify_eq|].
    destruct (chordReveal (board s) r c) as [b| |]; [|done..]. cbn [bind] in Hrun.
    exfalso. destruct (scanBoard b 0); [by simplify_eq|].
    destruct (checkWin b _); simplify_eq; simpl in *; congruence.
  - by simplify_eq.
  - by simplify_eq.
  - case_bool_decide as Hst; [apply Hsame; by simplify_eq|].
    exfalso. simplify_eq. simpl in *. congruence.
Qed.

(** C9.  In every reachable state [flagCount] is the number of flagged
    cells of the board. *)
Theorem reachable_flagCount s :
  reachable s → flagCount s = Z.of_nat (flaggedCells (board s)).
Proof.
  induction 1 as [d|rnd s a s' Hreach IH Hrun].
  { simpl. by rewrite flaggedCells_makeEmptyBoard. }
  pose proof (reachable_rectangular s Hreach) as Hrect.
  destruct (decide (isReset a)) as [Hreset|Hreset].
  { destruct a; try done; simpl in Hrun; simplify_eq; simpl;
      by rewrite flaggedCells_makeEmptyBoard. }
  destruct (reducer_step rnd s a s' Hrect Hreset Hrun)
    as [[Hrel ->]|[(r & c & x & Hx & _ & Hshape & Hcell & ->)|(b & Hrel & -> & -> & _)]].
  - rewrite IH. f_equal. symmetry.
    apply (boardRel_flaggedCells cellAdvance); [|done]. by intros x y [? _].
  - rewrite IH. symmetry. by apply (flaggedCells_toggle _ _ r c x).
  - rewrite IH. f_equal. symmetry. etrans.
    + apply (boardRel_flaggedCells cellReveal); [|apply revealAllMines_rel].
      by intros x y [? _].
    + apply (boardRel_flaggedCells cellAdvance); [|done]. by intros x y [? _].
Qed.

(** The theorem on the state after a flag in the corner of a new
    beginner game. *)
Lemma reachable_flagCount_witness :
  ∃ s, reducer halves (makeInitialState beginner) (FLAG 0 0) = Ok s ∧
       flagCount s = 1 ∧
       flagCount s = Z.of_nat (flaggedCells (board s)).
Proof.
  eexists. split; [reflexivity|]. split; [reflexivity|].
  apply reachable_flagCount.
  apply (reachable_step halves (makeInitialState beginner) (FLAG 0 0)).
  - apply reachable_init.
  - reflexivity.
Defined.

(** ** The invariant of the board *)

Lemma boardRel_keepsInvariant b b' : boardRel cellAdvance b b' → keepsInvariant b b'.
Proof.
  intros Hrel. split.
  - apply boardRel_staysRevealed.
    eapply boardRel_impl; [apply cellAdvance_cellReveal|done].
  - by apply boardRel_noRevealedFlag.
Qed.

Lemma readCell_is_Some {A} b r c (k : CellState → outcome A) y :
  (do x <- readCell b r c; k x) = Ok y → is_Some (cellAt b r c).
Proof. unfold readCell. destruct (cellAt b r c); [by eauto|done]. Qed.

Lemma noRevealedFlag_cells b :
  Forall (λ x, ¬ (isRevealed x = true ∧ isFlagged x = true)) (cells b) →
  noRevealedFlag b.
Proof.
  rewrite Forall_forall. intros Hall r c x Hx. apply Hall, elem_of_cells. eauto.
Qed.

(** C3 (as amended).  [placeMines], [computeAdjacent], [revealCell],
    [toggleFlag] and [chordReveal] keep the invariant that no cell is both
    revealed and flagged, and hide no revealed cell.  [revealAllMines]
    hides no revealed cell, and keeps the invariant when no mine is
    flagged.  A move of the game other than [NEW_GAME] and
    [SET_DIFFICULTY] hides no revealed cell, and from a board with the
    invariant the only cells it leaves both revealed and flagged are the
    mines of a lost game.  [NEW_GAME] and [SET_DIFFICULTY] return a board
    with the invariant. *)
Theorem engine_keeps_invariant :
  (∀ rnd b n r c b', placeMines rnd b n r c = Ok b' → keepsInvariant b b') ∧
  (∀ b b', rectangular b → computeAdjacent b = Ok b' → keepsInvariant b b') ∧
  (∀ b r c b', rectangular b → revealCell b r c = Ok b' → keepsInvariant b b') ∧
  (∀ b r c b', toggleFlag b r c = Ok b' → keepsInvariant b b') ∧
  (∀ b r c b', rectangular b → chordReveal b r c = Ok b' → keepsInvariant b b') ∧
  (∀ b, staysRevealed b (revealAllMines b) ∧
        (noRevealedFlag b →
         (∀ r c x, cellAt b r c = Some x → isMine x = true → isFlagged x = false) →
         noRevealedFlag (revealAllMines b))) ∧
  (∀ rnd s a s',
     rectangular (board s) → ¬ isReset a → reducer rnd s a = Ok s' →
     staysRevealed (board s) (board s') ∧
     (noRevealedFlag (board s) →
      ∀ r c y, cellAt (board s') r c = Some y →
        isRevealed y = true → isFlagged y = true →
        isMine y = true ∧ status s' = lost)) ∧
  (∀ rnd s a s', isReset a → reducer rnd s a = Ok s' → noRevealedFlag (board s')).
Proof.
  split_and!.
  - intros rnd b n r c b' Hrun.
    destruct (placeMines_rel rnd b n r c) as (b'' & Hrun' & Hrel).
    { intros ->. done. }
    rewrite Hrun in Hrun'. simplify_eq. apply boardRel_keepsInvariant.
    eapply boardRel_impl; [|exact Hrel]. intros x y [m ->]. apply withMine_advance.
  - intros b b' Hrect Hrun.
    destruct (computeAdjacent_rel b Hrect) as (b'' & Hrun' & Hrel).
    rewrite Hrun in Hrun'. simplify_eq. apply boardRel_keepsInvariant.
    eapply boardRel_impl; [|exact Hrel]. intros x y [n ->]. apply withAdjacent_advance.
  - intros b r c b' Hrect Hrun.
    destruct (readCell_is_Some _ _ _ _ _ Hrun) as [x Hx].
    destruct (revealCell_rel b r c x Hrect Hx) as (b'' & Hrun' & Hrel & _).
    rewrite Hrun in Hrun'. simplify_eq. apply boardRel_keepsInvariant.
    eapply boardRel_impl; [|exact Hrel]. by intros ? ? [_ ?].
  - intros b r c b' Hrun.
    destruct (readCell_is_Some _ _ _ _ _ Hrun) as [x Hx].
    destruct (toggleFlag_spec b r c x Hx) as (b'' & Hrun' & Hshape & Hcell).
    rewrite Hrun in Hrun'. simplify_eq. split.
    + intros r' c' y Hy Hrev. rewrite Hcell, Hy.
      destruct (decide ((r', c') = (r, c) ∧ isRevealed x = false)) as [[? Hx']|_];
        [|exists y; by split].
      simplify_eq. congruence.
    + intros Hb r' c' y' Hy'. rewrite Hcell in Hy'.
      destruct (cellAt b r' c') as [y|] eqn:Hy; [|by case_decide].
      case_decide as Hd; simplify_eq/=; [|by eapply Hb].
      destruct Hd as [? Hx']. simplify_eq. intros [? _]. congruence.
  - intros b r c b' Hrect Hrun.
    pose proof (readCell_is_Some _ _ _ _ _ Hrun) as Hin.
    destruct (chordReveal_rel b r c Hrect Hin) as (b'' & Hrun' & Hrel).
    rewrite Hrun in Hrun'. simplify_eq. apply boardRel_keepsInvariant.
    eapply boardRel_impl; [|exact Hrel]. by intros ? ? [_ ?].
  - intros b. split; [apply boardRel_staysRevealed, revealAllMines_rel|].
    intros Hb Hmines r c y Hy. rewrite revealAllMines_cellAt in Hy.
    destruct (cellAt b r c) as [x|] eqn:Hx; simplify_eq/=.
    destruct (isMine x) eqn:Hm; [|by eapply Hb].
    simpl. rewrite (Hmines r c x Hx Hm). by intros [_ ?].
  - intros rnd s a s' Hrect Hreset Hrun.
    destruct (reducer_step rnd s a s' Hrect Hreset Hrun)
      as [[Hrel _]|[(r & c & x & Hx & Hrev & Hshape & Hcell & _)|(b & Hrel & Hb & _ & Hlost)]].
    + destruct (boardRel_keepsInvariant _ _ Hrel) as [Hstay Hkeep].
      split; [done|]. intros Hinv r c y Hy Hr Hf.
      by destruct (Hkeep Hinv r c y Hy).
    + split.
      * intros r' c' y Hy Hr. rewrite Hcell, Hy.
        case_decide; simplify_eq/=; [congruence|exists y; by split].
      * intros Hinv r' c' y' Hy' Hr Hf. exfalso. rewrite Hcell in Hy'.
        destruct (cellAt (board s) r' c') as [y|] eqn:Hy; [|by case_decide].
        case_decide; simplify_eq/=; [congruence|]. by eapply Hinv.
    + rewrite Hb. split.
      * intros r c x Hx Hr.
        destruct (boardRel_cellAt _ _ _ _ _ _ Hrel Hx) as (y & Hy & _ & Hm & _).
        rewrite revealAllMines_cellAt, Hy. simpl. eexists. split; [done|].
        destruct (isMine y); simpl; auto.
      * intros Hinv r c y' Hy' Hr Hf. split; [|done].
        rewrite revealAllMines_cellAt in Hy'.
        destruct (cellAt b r c) as [y|] eqn:Hy; simplify_eq/=.
        destruct (isMine y) eqn:Hm; [done|]. exfalso.
        by apply (boardRel_noRevealedFlag _ _ Hrel Hinv r c y Hy).
  - intros rnd s a s' Hreset Hrun.
    assert (∀ d, noRevealedFlag (board (makeInitialState d))) as Hinit.
    { intros d r c x (_ & _ & row & Hrow & Hx)%cellAt_Some.
      simpl in Hrow. unfold makeEmptyBoard in Hrow.
      apply lookup_replicate in Hrow as [-> _].
      apply lookup_replicate in Hx as [-> _]. by intros [? _]. }
    destruct a; try done; simpl in Hrun; simplify_eq; apply Hinit.
Qed.

(** The theorem on the board with a flag in the middle: revealing its
    first cell keeps the invariant. *)
Lemma engine_keeps_invariant_witness :
  keepsInvariant flagInTheMiddle [[markRevealed makeCell; flaggedCell; makeCell]].
Proof.
  destruct engine_keeps_invariant as (_ & _ & Hreveal & _).
  apply (Hreveal flagInTheMiddle 0 0).
  - repeat constructor.
  - reflexivity.
Defined.

(** C3 (as stated) fails.  [revealAllMines] reveals a flagged mine.  In a
    beginner game, after a first reveal in the corner, a flag on a mine
    and a reveal of another mine, the flagged mine is revealed; a new
    game then hides the revealed corner. *)
Lemma lost_game_reveals_flagged_mine :
  (noRevealedFlag [[flaggedMine]] ∧
   cellAt (revealAllMines [[flaggedMine]]) 0 0 = Some (mkCell true true true 0)) ∧
  ∃ s1 s2 s3 s4,
    reducer halves (makeInitialState beginner) (REVEAL 0 0) = Ok s1 ∧
    reducer halves s1 (FLAG 0 2) = Ok s2 ∧
    reducer halves s2 (REVEAL 0 3) = Ok s3 ∧
    reducer halves s3 NEW_GAME = Ok s4 ∧
    noRevealedFlag (board s2) ∧
    cellAt (board s3) 0 2 = Some (mkCell true true true 0) ∧
    cellAt (board s3) 0 0 = Some (mkCell false true false 0) ∧
    cellAt (board s4) 0 0 = Some (mkCell false false false 0).
Proof.
  split.
  - split; [|reflexivity]. apply noRevealedFlag_cells.
    repeat constructor. by intros [? _].
  - do 4 eexists. split_and!; try (vm_compute; reflexivity).
    apply noRevealedFlag_cells.
    match goal with |- ?G => apply (bool_decide_unpack G) end.
    vm_compute. exact I.
Qed.

(** ** No call runs out of fuel *)

(** [OutOfFuel] only stands for a loop of [revealCell] cut short, which
    never happens: no function of the engine and no move returns it. *)

Lemma bind_fueled {A B} (m : outcome A) (k : A → outcome B) :
  m ≠ OutOfFuel → (∀ a, k a ≠ OutOfFuel) → bind m k ≠ OutOfFuel.
Proof. intros Hm Hk. destruct m; simpl; auto. Qed.

Lemma readCell_fueled b r c : readCell b r c ≠ OutOfFuel.
Proof. unfold readCell. by destruct (cellAt b r c). Qed.

Lemma neighbors_fueled b r c : neighbors b r c ≠ OutOfFuel.
Proof. by destruct b. Qed.

Ltac fueled :=
  repeat first
    [ done
    | apply readCell_fueled
    | apply neighbors_fueled
    | apply revealCell_never_OutOfFuel
    | apply bind_fueled; [|intros ?]
    | match goal with
      | |- (if ?c then _ else _) ≠ OutOfFuel => destruct c
      | |- match ?o with Some _ => _ | None => _ end ≠ OutOfFuel => destruct o
      end ].

Lemma countMines_fueled b nbrs : countMines b nbrs ≠ OutOfFuel.
Proof. induction nbrs as [|[r c] nbrs IH]; simpl; fueled. Qed.

Lemma countFlags_fueled b nbrs : countFlags b nbrs ≠ OutOfFuel.
Proof. induction nbrs as [|[r c] nbrs IH]; simpl; fueled. Qed.

Lemma mapIndexed_fueled {A B} (f : Z → A → outcome B) l : ∀ i,
  (∀ i x, f i x ≠ OutOfFuel) → mapIndexed f i l ≠ OutOfFuel.
Proof.
  induction l as [|x l IH]; intros i Hf; simpl; [done|].
  apply bind_fueled; [apply Hf|]. intros y.
  apply bind_fueled; [by apply IH|done].
Qed.

Lemma computeAdjacent_fueled b : computeAdjacent b ≠ OutOfFuel.
Proof.
  unfold computeAdjacent. apply mapIndexed_fueled. intros r row.
  apply mapIndexed_fueled. intros c cell. fueled. apply countMines_fueled.
Qed.

Lemma placeMines_fueled rnd b n r c : placeMines rnd b n r c ≠ OutOfFuel.
Proof. unfold placeMines. destruct b; fueled. Qed.

Lemma toggleFlag_fueled b r c : toggleFlag b r c ≠ OutOfFuel.
Proof. unfold toggleFlag. fueled. Qed.

Lemma chordLoop_fueled b nbrs : ∀ next, chordLoop b next nbrs ≠ OutOfFuel.
Proof. induction nbrs as [|[r c] nbrs IH]; intros next; simpl; fueled. Qed.

Lemma chordReveal_fueled b r c : chordReveal b r c ≠ OutOfFuel.
Proof.
  unfold chordReveal. fueled; [apply countFlags_fueled|apply chordLoop_fueled].
Qed.

Lemma reducer_fueled rnd s a : reducer rnd s a ≠ OutOfFuel.
Proof.
  destruct a; simpl; fueled;
    first [apply placeMines_fueled | apply computeAdjacent_fueled
          | apply countFlags_fueled | apply chordLoop_fueled].
Qed.

(* ================================================================= *)
(** * Further properties of the engine *)

(** ** [neighbors] *)

Lemma NoDup_flat_map {A B} (f : A → list B) (l : list A) :
  NoDup l →
  (∀ x, x ∈ l → NoDup (f x)) →
  (∀ x y z, x ∈ l → y ∈ l → z ∈ f x → z ∈ f y → x = y) →
  NoDup (flat_map f l).
Proof.
  induction 1 as [|x l Hx Hl IH]; intros Hf Hdisj; simpl; [constructor|].
  apply NoDup_app. split_and!.
  - apply Hf. left.
  - intros z Hz Hz'. apply elem_of_flat_map in Hz' as (y & Hy & Hzy).
    apply Hx. rewrite (Hdisj x y z); [done|left|by right|done..].
  - apply IH.
    + intros y Hy. apply Hf. by right.
    + intros y1 y2 z Hy1 Hy2. apply Hdisj; by right.
Qed.

Lemma NoDup_offsets : NoDup [-1; 0; 1].
Proof.
  rewrite !NoDup_cons, !elem_of_cons, !elem_of_nil.
  split_and!; [lia..|constructor].
Qed.

Lemma NoDup_neighborAt nrows ncols row col dr dc :
  NoDup (neighborAt nrows ncols row col dr dc).
Proof.
  unfold neighborAt. repeat case_bool_decide; try constructor.
  - apply not_elem_of_nil.
  - constructor.
Qed.

Lemma neighborAt_grid_NoDup nrows ncols r c :
  NoDup (flat_map (λ dr, flat_map (λ dc, neighborAt nrows ncols r c dr dc)
                                  [-1; 0; 1])
                  [-1; 0; 1]).
Proof.
  apply NoDup_flat_map; [apply NoDup_offsets| |].
  - intros dr _. apply NoDup_flat_map; [apply NoDup_offsets| |].
    + intros dc _. apply NoDup_neighborAt.
    + intros dc dc' q _ _ (_ & Hq & _)%elem_of_neighborAt (_ & Hq' & _)%elem_of_neighborAt.
      simplify_eq. lia.
  - intros dr dr' q _ _ (dc & _ & (_ & Hq & _)%elem_of_neighborAt)%elem_of_flat_map
      (dc' & _ & (_ & Hq' & _)%elem_of_neighborAt)%elem_of_flat_map.
    simplify_eq. lia.
Qed.

Lemma neighbors_NoDup b r c nbrs : neighbors b r c = Ok nbrs → NoDup nbrs.
Proof.
  destruct b as [|row0 rest]; [done|]. intros [= <-].
  exact (neighborAt_grid_NoDup _ _ r c).
Qed.

Lemma neighbors_length b r c nbrs : neighbors b r c = Ok nbrs → (length nbrs ≤ 8)%nat.
Proof.
  intros Hn. pose proof (neighbors_NoDup b r c nbrs Hn) as Hnd.
  destruct b as [|row0 rest]; [done|].
  destruct (neighbors_elem row0 rest r c) as (l & Hl & Hin).
  rewrite Hn in Hl. simplify_eq.
  assert (l ⊆+ [(r - 1, c - 1); (r - 1, c); (r - 1, c + 1); (r, c - 1);
                (r, c + 1); (r + 1, c - 1); (r + 1, c); (r + 1, c + 1)]) as Hsub.
  { apply NoDup_submseteq; [done|]. intros [r' c'] Hq. apply Hin in Hq as [(Hne & Hr & Hc) _].
    simpl in *. rewrite !elem_of_cons.
    assert (r' = r - 1 ∨ r' = r ∨ r' = r + 1) as Hr' by lia.
    assert (c' = c - 1 ∨ c' = c ∨ c' = c + 1) as Hc' by lia.
    destruct Hr' as [-> | [-> | ->]], Hc' as [-> | [-> | ->]]; try done;
      replace (r - 1 + 1) with r in * by lia; tauto. }
  by apply submseteq_length in Hsub.
Qed.

(** X1.  On a rectangular board [neighbors] returns, for any coordinate
    on or off the board, the cells of the board that are adjacent to it
    and no other coordinate: never the coordinate itself, nothing outside
    the bounds, each cell once, eight at most. *)
Theorem neighbors_on_board b r c :
  rectangular b →
  ∃ nbrs,
    neighbors b r c = Ok nbrs ∧
    (∀ q, q ∈ nbrs ↔ adjacent (r, c) q ∧ is_Some (cellAt b q.1 q.2)) ∧
    ((r, c) ∉ nbrs) ∧
    NoDup nbrs ∧
    (length nbrs ≤ 8)%nat.
Proof.
  intros Hrect. destruct (neighbors_spec b r c Hrect) as (nbrs & Hn & Hin).
  exists nbrs. split_and!; [done..| | |].
  - intros Hq. by apply Hin in Hq as [[Hne _] _].
  - by eapply neighbors_NoDup.
  - by eapply neighbors_length.
Qed.

Lemma neighbors_on_board_witness :
  ∃ nbrs,
    neighbors (makeEmptyBoard 2 3) 0 3 = Ok nbrs ∧
    (∀ q, q ∈ nbrs ↔
          adjacent (0, 3) q ∧ is_Some (cellAt (makeEmptyBoard 2 3) q.1 q.2)) ∧
    ((0, 3) ∉ nbrs) ∧
    NoDup nbrs ∧
    (length nbrs ≤ 8)%nat.
Proof. apply (neighbors_on_board (makeEmptyBoard 2 3) 0 3). repeat constructor. Defined.

(** X2.  Adjacency as [neighbors] computes it is symmetric: between two
    cells of a rectangular board, one is a neighbor of the other exactly
    when the other is a neighbor of the one. *)
Theorem neighbors_symmetric b p q ps qs :
  rectangular b →
  is_Some (cellAt b p.1 p.2) → is_Some (cellAt b q.1 q.2) →
  neighbors b p.1 p.2 = Ok ps → neighbors b q.1 q.2 = Ok qs →
  q ∈ ps ↔ p ∈ qs.
Proof.
  intros Hrect Hp Hq Hps Hqs.
  destruct (neighbors_spec b p.1 p.2 Hrect) as (ps' & Hps' & Hinp).
  destruct (neighbors_spec b q.1 q.2 Hrect) as (qs' & Hqs' & Hinq).
  rewrite Hps in Hps'. rewrite Hqs in Hqs'. simplify_eq.
  rewrite Hinp, Hinq. destruct p as [r c], q as [r' c']. unfold adjacent. simpl.
  split; intros [(Hne & ? & ?) _]; (split; [|done]); split_and!; try lia;
    intros ?; by simplify_eq.
Qed.

Lemma neighbors_symmetric_witness :
  (1, 1) ∈ [(0, 1); (1, 0); (1, 1)] ↔ (0, 0) ∈ [(0, 0); (0, 1); (1, 0)].
Proof.
  apply (neighbors_symmetric (makeEmptyBoard 2 2) (0, 0) (1, 1)).
  - repeat constructor.
  - by eexists.
  - by eexists.
  - reflexivity.
  - reflexivity.
Defined.

(** ** [computeAdjacent] *)

Lemma NoDup_rowCoords r c row : NoDup (rowCoords r c row).
Proof.
  revert c. induction row as [|x row IH]; intros c; simpl; constructor; [|done].
  rewrite elem_of_rowCoords. simpl. lia.
Qed.

Lemma NoDup_coordsFrom k b : NoDup (coordsFrom k b).
Proof.
  revert k. induction b as [|row b IH]; intros k; simpl; [constructor|].
  apply NoDup_app. split_and!; [apply NoDup_rowCoords| |done].
  intros q [Hq _]%elem_of_rowCoords [x Hx]%elem_of_coordsFrom.
  apply cellAt_nonneg in Hx. lia.
Qed.

Lemma rowCoords_length r c row row' :
  length row = length row' → rowCoords r c row = rowCoords r c row'.
Proof.
  revert c row'. induction row as [|x row IH]; intros c [|x' row'] Hlen;
    simplify_eq/=; [done|]. f_equal. by apply IH.
Qed.

Lemma coords_shape b b' : shape b = shape b' → coords b = coords b'.
Proof.
  unfold coords, shape. generalize 0. revert b'.
  induction b as [|row b IH]; intros [|row' b'] k Hshape; simplify_eq/=; [done|].
  f_equal; [by apply rowCoords_length|by apply IH].
Qed.

Lemma mineNeighbors_ext b b' p :
  shape b = shape b' → (∀ q, isMineAt b q = isMineAt b' q) →
  mineNeighbors b p = mineNeighbors b' p.
Proof.
  intros Hshape Hmine. unfold mineNeighbors. rewrite (coords_shape b b' Hshape).
  f_equal. apply filter_ext_elem. intros q _. by rewrite Hmine.
Qed.

(** The neighbors that hold a mine, counted from the list that
    [neighbors] returns and counted over the board. *)
Lemma mineNeighbors_neighbors b r c nbrs :
  rectangular b → neighbors b r c = Ok nbrs →
  length (filter (λ q, isMineAt b q = true) nbrs) = mineNeighbors b (r, c).
Proof.
  intros Hrect Hn. unfold mineNeighbors.
  destruct (neighbors_spec b r c Hrect) as (nbrs' & Hn' & Hin).
  rewrite Hn in Hn'. simplify_eq.
  apply Permutation_length, NoDup_Permutation.
  - apply NoDup_filter. by eapply neighbors_NoDup.
  - apply NoDup_filter, NoDup_coordsFrom.
  - intros q. rewrite !list_elem_of_filter, Hin, elem_of_coords. tauto.
Qed.

Lemma mineNeighbors_le b p : rectangular b → (mineNeighbors b p ≤ 8)%nat.
Proof.
  intros Hrect. destruct p as [r c].
  destruct (neighbors_spec b r c Hrect) as (nbrs & Hn & _).
  rewrite <-(mineNeighbors_neighbors b r c nbrs Hrect Hn).
  etrans; [apply length_filter|]. by eapply neighbors_length.
Qed.

Lemma countMines_spec b nbrs :
  (∀ q, q ∈ nbrs → is_Some (cellAt b q.1 q.2)) →
  countMines b nbrs =
  Ok (Z.of_nat (length (filter (λ q, isMineAt b q = true) nbrs))).
Proof.
  induction nbrs as [|[r c] nbrs IH]; intros Hin; [done|].
  destruct (Hin (r, c)) as [x Hx]; [left|]. simpl in Hx.
  cbn [countMines]. unfold readCell. rewrite Hx. cbn [bind].
  rewrite IH by (intros q Hq; apply Hin; by right). cbn [bind].
  assert (isMineAt b (r, c) = isMine x) as Hf
    by (unfold isMineAt; simpl; by rewrite Hx).
  rewrite filter_cons, Hf.
  destruct (isMine x); case_decide; try done; simpl; f_equal; lia.
Qed.

Lemma mapIndexed_imap {A B} (f : Z → A → outcome B) l :
  ∀ (g : nat → A → B) i,
    (∀ k x, l !! k = Some x → f (i + Z.of_nat k) x = Ok (g k x)) →
    mapIndexed f i l = Ok (imap g l).
Proof.
  induction l as [|x l IH]; intros g i Hf; [reflexivity|].
  cbn [mapIndexed]. rewrite imap_cons.
  pose proof (Hf 0%nat x eq_refl) as H0. rewrite Z.add_0_r in H0.
  rewrite H0. cbn [bind].
  rewrite (IH (g ∘ S) (i + 1)); [done|].
  intros k x' Hk. simpl. rewrite <-(Hf (S k) x' Hk). f_equal. lia.
Qed.

(** The board that [computeAdjacent] returns, cell by cell. *)
Lemma computeAdjacent_spec b :
  rectangular b →
  ∃ b' : Board,
    computeAdjacent b = Ok b' ∧
    shape b' = shape b ∧
    ∀ r c, cellAt b' r c =
      (λ x, withAdjacent x
              (if isMine x then 0 else Z.of_nat (mineNeighbors b (r, c))))
      <$> cellAt b r c.
Proof.
  intros Hrect.
  set (g := λ (i j : nat) (x : CellState),
         withAdjacent x
           (if isMine x then 0
            else Z.of_nat (mineNeighbors b (Z.of_nat i, Z.of_nat j)))).
  exists (imap (λ i row, imap (g i) row) b). split_and!.
  - unfold computeAdjacent. apply mapIndexed_imap. intros i row Hrow.
    apply mapIndexed_imap. intros j x Hx. unfold g.
    destruct (isMine x); [done|]. rewrite !Z.add_0_l.
    destruct (neighbors_spec b (Z.of_nat i) (Z.of_nat j) Hrect) as (nbrs & Hn & Hin).
    rewrite Hn. cbn [bind]. rewrite countMines_spec.
    + cbn [bind]. by rewrite (mineNeighbors_neighbors b _ _ nbrs Hrect Hn).
    + intros q Hq. by apply Hin in Hq as [_ ?].
  - apply shape_imap.
  - intros r c. rewrite cellAt_imap.
    destruct (cellAt b r c) as [x|] eqn:Hx; [|done]. simpl.
    apply cellAt_nonneg in Hx as [Hr Hc]. unfold g. by rewrite !Z2Nat.id.
Qed.

Lemma isMineAt_computeAdjacent b b' :
  rectangular b → computeAdjacent b = Ok b' → ∀ q, isMineAt b' q = isMineAt b q.
Proof.
  intros Hrect Hrun q.
  destruct (computeAdjacent_spec b Hrect) as (b'' & Hrun' & _ & Hcell).
  rewrite Hrun in Hrun'. simplify_eq. unfold isMineAt. rewrite Hcell.
  by destruct (cellAt b q.1 q.2).
Qed.

(** X3.  On a rectangular board [computeAdjacent] returns a board of the
    same shape in which every cell keeps [isMine], [isRevealed] and
    [isFlagged], a mine has count 0 and any other cell has as count the
    number of its neighbors that hold a mine, a number from 0 to 8. *)
Theorem computeAdjacent_counts b :
  rectangular b →
  ∃ b' : Board,
    computeAdjacent b = Ok b' ∧
    shape b' = shape b ∧
    countsComputed b' ∧
    ∀ r c x, cellAt b r c = Some x →
      ∃ y, cellAt b' r c = Some y ∧
           isMine y = isMine x ∧ isRevealed y = isRevealed x ∧
           isFlagged y = isFlagged x ∧
           adjacentMines y =
             (if isMine x then 0 else Z.of_nat (mineNeighbors b (r, c))) ∧
           0 ≤ adjacentMines y ≤ 8.
Proof.
  intros Hrect.
  destruct (computeAdjacent_spec b Hrect) as (b' & Hrun & Hshape & Hcell).
  exists b'. split_and!; [done..| |].
  - intros r c y Hy. rewrite Hcell in Hy.
    destruct (cellAt b r c) as [x|]; simplify_eq/=.
    destruct (isMine x); [done|]. f_equal.
    apply mineNeighbors_ext; [done|].
    intros q. symmetry. by apply isMineAt_computeAdjacent.
  - intros r c x Hx. rewrite Hcell, Hx. simpl. eexists.
    split_and!; try done; simpl;
      pose proof (mineNeighbors_le b (r, c) Hrect); destruct (isMine x); lia.
Qed.

Lemma computeAdjacent_counts_witness :
  ∃ b' : Board,
    computeAdjacent chordRow = Ok b' ∧
    shape b' = shape chordRow ∧
    countsComputed b' ∧
    ∀ r c x, cellAt chordRow r c = Some x →
      ∃ y, cellAt b' r c = Some y ∧
           isMine y = isMine x ∧ isRevealed y = isRevealed x ∧
           isFlagged y = isFlagged x ∧
           adjacentMines y =
             (if isMine x then 0 else Z.of_nat (mineNeighbors chordRow (r, c))) ∧
           0 ≤ adjacentMines y ≤ 8.
Proof. apply (computeAdjacent_counts chordRow). repeat constructor. Defined.

(** X4.  [computeAdjacent] is idempotent: on a board that it returned it
    returns the same board, and so it does on any rectangular board whose
    counts are already those of its mines. *)
Theorem computeAdjacent_idempotent b :
  rectangular b →
  (countsComputed b → computeAdjacent b = Ok b) ∧
  (∀ b', computeAdjacent b = Ok b' → computeAdjacent b' = Ok b').
Proof.
  intros Hrect.
  assert (∀ b0, rectangular b0 → countsComputed b0 → computeAdjacent b0 = Ok b0)
    as Hfix.
  { intros b0 Hrect0 Hcounts.
    destruct (computeAdjacent_spec b0 Hrect0) as (b1 & Hrun & Hshape & Hcell).
    rewrite Hrun. f_equal. apply board_ext; [done|]. intros r c. rewrite Hcell.
    destruct (cellAt b0 r c) as [x|] eqn:Hx; [|done]. simpl.
    rewrite <-(Hcounts r c x Hx). by destruct x. }
  split; [by apply Hfix|]. intros b' Hrun.
  destruct (computeAdjacent_spec b Hrect) as (b'' & Hrun' & Hshape & Hcell).
  rewrite Hrun in Hrun'. simplify_eq. apply Hfix.
  - by eapply rectangular_shape.
  - intros r c y Hy. rewrite Hcell in Hy.
    destruct (cellAt b r c) as [x|]; simplify_eq/=.
    destruct (isMine x); [done|]. f_equal.
    apply mineNeighbors_ext; [done|].
    intros q. symmetry. by apply isMineAt_computeAdjacent.
Qed.

Lemma computeAdjacent_idempotent_witness :
  ∃ b' : Board, computeAdjacent chordRow = Ok b' ∧ computeAdjacent b' = Ok b'.
Proof.
  eexists. split; [reflexivity|].
  apply (computeAdjacent_idempotent chordRow); [repeat constructor|reflexivity].
Defined.

(** ** [revealCell], further *)

Lemma zeroCell_no_mine_neighbor b p q cp cq :
  countsComputed b →
  cellAt b p.1 p.2 = Some cp → zeroCell cp →
  adjacent p q → cellAt b q.1 q.2 = Some cq →
  isMine cq = false.
Proof.
  intros Hcounts Hcp [Hzero Hmine] Hadj Hcq. destruct p as [r c]. simpl in *.
  pose proof (Hcounts r c cp Hcp) as Hcount. rewrite Hmine, Hzero in Hcount.
  destruct (isMine cq) eqn:Hm; [|done]. exfalso.
  assert (q ∈ filter (λ q, adjacent (r, c) q ∧ isMineAt b q = true) (coords b))
    as Hin.
  { apply list_elem_of_filter. split_and!; [done| |].
    - unfold isMineAt. by rewrite Hcq.
    - apply elem_of_coords. by rewrite Hcq. }
  unfold mineNeighbors in Hcount.
  destruct (filter _ (coords b)); [by apply elem_of_nil in Hin|]. simpl in *. lia.
Qed.

Lemma countsComputed_computeAdjacent b b' :
  rectangular b → computeAdjacent b = Ok b' → countsComputed b'.
Proof.
  intros Hrect Hrun.
  destruct (computeAdjacent_spec b Hrect) as (b'' & Hrun' & Hshape & Hcell).
  rewrite Hrun in Hrun'. simplify_eq.
  intros r c y Hy. rewrite Hcell in Hy.
  destruct (cellAt b r c) as [x|]; simplify_eq/=.
  destruct (isMine x); [done|]. f_equal.
  apply mineNeighbors_ext; [done|].
  intros q. symmetry. by apply isMineAt_computeAdjacent.
Qed.

(** X5.  On a rectangular board whose counts are those of its mines,
    revealing a cell without a mine reveals no mine: the flood fill stays
    on cells without mines. *)
Theorem revealCell_reveals_no_mine b r c x :
  rectangular b → countsComputed b →
  cellAt b r c = Some x → isMine x = false →
  ∃ b' : Board,
    revealCell b r c = Ok b' ∧
    ∀ r' c' y, cellAt b r' c' = Some y → isMine y = true →
      cellAt b' r' c' = Some y.
Proof.
  intros Hrect Hcounts Hx Hmine.
  destruct (revealCell_spec b r c x Hrect Hx) as (b' & vis & Hrun & _ & Hvis & Hcell).
  exists b'. split; [done|]. intros r' c' y Hy Hm.
  rewrite Hcell, Hy. case_decide as Hq; [|done]. exfalso.
  apply Hvis in Hq as [_ Hfl].
  inversion Hfl as [Heq|p q cp cq _ Hcp Hzp Hadj Hcq _ Heq].
  - simplify_eq. congruence.
  - subst q. simpl in Hcq. rewrite Hy in Hcq. simplify_eq.
    rewrite (zeroCell_no_mine_neighbor b p (r', c') cp cq) in Hm; done.
Qed.

Lemma revealCell_reveals_no_mine_witness :
  ∃ b' : Board,
    revealCell mineInTheCorner 0 2 = Ok b' ∧
    ∀ r' c' y, cellAt mineInTheCorner r' c' = Some y → isMine y = true →
      cellAt b' r' c' = Some y.
Proof.
  apply (revealCell_reveals_no_mine mineInTheCorner 0 2 makeCell).
  - repeat constructor.
  - apply (countsComputed_computeAdjacent mineInTheCornerBare).
    + repeat constructor.
    + reflexivity.
  - reflexivity.
  - reflexivity.
Defined.

(** X6.  [revealCell] returns the board it was given when the cell is
    already revealed or flagged, and revealing a cell a second time
    changes nothing: on the board that [revealCell] returned, the same
    call returns that board. *)
Theorem revealCell_idempotent b r c x :
  rectangular b → cellAt b r c = Some x →
  (isRevealed x = true ∨ isFlagged x = true → revealCell b r c = Ok b) ∧
  ∃ b' : Board, revealCell b r c = Ok b' ∧ revealCell b' r c = Ok b'.
Proof.
  intros Hrect Hx.
  assert (isRevealed x = true ∨ isFlagged x = true → revealCell b r c = Ok b)
    as Hnoop.
  { intros Hor. unfold revealCell, readCell. rewrite Hx. cbn [bind].
    by destruct Hor as [-> | ->]; [|rewrite orb_true_r]. }
  split; [done|].
  destruct (isFlagged x) eqn:Hflag.
  { exists b. split; apply Hnoop; by right. }
  destruct (revealCell_rel b r c x Hrect Hx) as (b' & Hrun & _ & Hrev).
  destruct (Hrev Hflag) as (y & Hy & Hr).
  exists b'. split; [done|].
  unfold revealCell, readCell. rewrite Hy. cbn [bind]. by rewrite Hr.
Qed.

Lemma revealCell_idempotent_witness :
  ∃ b' : Board,
    revealCell mineInTheCorner 0 2 = Ok b' ∧ revealCell b' 0 2 = Ok b'.
Proof.
  apply (revealCell_idempotent mineInTheCorner 0 2 makeCell).
  - repeat constructor.
  - reflexivity.
Defined.

(** X7.  Revealing a covered cell that holds a mine or has a count other
    than 0 reveals this cell and nothing else, on any board: the flood
    fill does not start from it. *)
Theorem revealCell_single b r c x :
  cellAt b r c = Some x → coveredCell x →
  isMine x = true ∨ adjacentMines x ≠ 0 →
  ∃ b' : Board,
    revealCell b r c = Ok b' ∧
    shape b' = shape b ∧
    cellAt b' r c = Some (markRevealed x) ∧
    ∀ r' c', (r', c') ≠ (r, c) → cellAt b' r' c' = cellAt b r' c'.
Proof.
  intros Hx [Hrev Hflag] Hstop.
  pose proof (cellAt_nonneg _ _ _ _ Hx) as [Hr Hc].
  exists (setRevealed b r c). split_and!.
  - unfold revealCell, readCell. rewrite Hx. cbn [bind]. rewrite Hrev, Hflag. simpl.
    rewrite (hiddenCount_setRevealed _ _ _ _ Hx Hrev). cbn [floodLoop].
    unfold readCell. rewrite (cellAt_setRevealed_eq _ _ _ _ Hx). cbn [bind].
    assert (bool_decide (adjacentMines (markRevealed x) = 0)
            && negb (isMine (markRevealed x)) = false) as ->;
      [|by destruct (hiddenCount (setRevealed b r c))].
    simpl. destruct Hstop as [-> | Hadj]; [by rewrite andb_false_r|].
    by rewrite bool_decide_eq_false_2.
  - apply shape_setRevealed.
  - by apply cellAt_setRevealed_eq.
  - intros r' c' Hne. by apply cellAt_setRevealed_ne.
Qed.

Lemma revealCell_single_witness :
  ∃ b' : Board,
    revealCell mineInTheCorner 0 0 = Ok b' ∧
    shape b' = shape mineInTheCorner ∧
    cellAt b' 0 0 = Some (markRevealed (mkCell true false false 0)) ∧
    ∀ r' c', (r', c') ≠ (0, 0) → cellAt b' r' c' = cellAt mineInTheCorner r' c'.
Proof.
  apply (revealCell_single mineInTheCorner 0 0 (mkCell true false false 0)).
  - reflexivity.
  - done.
  - by left.
Defined.

(** ** Coordinates off the board *)

(** X8.  On a rectangular board [revealCell], [toggleFlag] and
    [chordReveal] return a board at every coordinate of the board, and
    raise a [TypeError] at every other coordinate: a negative row or
    column, a row or a column past the end. *)
Theorem off_board_TypeError b r c :
  rectangular b →
  (0 ≤ r < Z.of_nat (length b) ∧ 0 ≤ c < Z.of_nat (length (default [] (head b))) →
   (∃ b', revealCell b r c = Ok b') ∧
   (∃ b', toggleFlag b r c = Ok b') ∧
   (∃ b', chordReveal b r c = Ok b')) ∧
  (¬ (0 ≤ r < Z.of_nat (length b) ∧ 0 ≤ c < Z.of_nat (length (default [] (head b)))) →
   revealCell b r c = TypeError ∧
   toggleFlag b r c = TypeError ∧
   chordReveal b r c = TypeError).
Proof.
  intros Hrect. destruct b as [|row0 rest]; [done|].
  pose proof (rectangular_cellAt row0 rest r c Hrect) as Hin. simpl. split.
  - intros Hrc. apply Hin in Hrc as [x Hx]. split_and!.
    + destruct (revealCell_rel _ r c x Hrect Hx) as (b' & ? & _). eauto.
    + destruct (toggleFlag_spec _ r c x Hx) as (b' & ? & _). eauto.
    + destruct (chordReveal_rel (row0 :: rest) r c Hrect) as (b' & ? & _); eauto.
  - intros Hrc.
    assert (cellAt (row0 :: rest) r c = None) as Hnone.
    { destruct (cellAt (row0 :: rest) r c) eqn:Hx; [|done].
      exfalso. apply Hrc, Hin. eauto. }
    unfold revealCell, toggleFlag, chordReveal, readCell. by rewrite Hnone.
Qed.

Lemma off_board_TypeError_witness :
  revealCell mineInTheCorner 2 0 = TypeError ∧
  toggleFlag mineInTheCorner 2 0 = TypeError ∧
  chordReveal mineInTheCorner 2 0 = TypeError.
Proof.
  apply (off_board_TypeError mineInTheCorner 2 0).
  - repeat constructor.
  - simpl. lia.
Defined.

(** ** [toggleFlag], further *)

(** X9.  On a cell that is not revealed [toggleFlag] flips the flag of
    this cell and changes nothing else, and a second [toggleFlag] at the
    same cell gives the first board back; on a revealed cell it returns
    the board it was given. *)
Theorem toggleFlag_involutive b r c x :
  cellAt b r c = Some x →
  (isRevealed x = true → toggleFlag b r c = Ok b) ∧
  (isRevealed x = false →
   ∃ b1 : Board,
     toggleFlag b r c = Ok b1 ∧
     shape b1 = shape b ∧
     cellAt b1 r c = Some (flipFlag x) ∧
     (∀ r' c', (r', c') ≠ (r, c) → cellAt b1 r' c' = cellAt b r' c') ∧
     toggleFlag b1 r c = Ok b).
Proof.
  intros Hx. split.
  - intros Hrev. unfold toggleFlag, readCell. rewrite Hx. cbn [bind]. by rewrite Hrev.
  - intros Hrev.
    destruct (toggleFlag_spec b r c x Hx) as (b1 & Hrun & Hshape & Hcell).
    assert (cellAt b1 r c = Some (flipFlag x)) as Hnew.
    { rewrite Hcell, decide_True, Hx by done. done. }
    exists b1. split_and!; [done..| |].
    + intros r' c' Hne. rewrite Hcell.
      by destruct (decide ((r', c') = (r, c) ∧ isRevealed x = false)) as [[? _]|].
    + destruct (toggleFlag_spec b1 r c (flipFlag x) Hnew)
        as (b2 & Hrun2 & Hshape2 & Hcell2).
      rewrite Hrun2. f_equal. apply board_ext; [congruence|].
      intros r' c'. rewrite Hcell2, Hcell. simpl.
      destruct (decide ((r', c') = (r, c))) as [Heq|Hne].
      * rewrite !decide_True by done. simplify_eq. rewrite Hx. simpl.
        f_equal. destruct x as [m rv [|] n]; done.
      * rewrite !decide_False; [done|by intros [? _]..].
Qed.

Lemma toggleFlag_involutive_witness :
  ∃ b1 : Board,
    toggleFlag mineInTheCorner 0 0 = Ok b1 ∧
    shape b1 = shape mineInTheCorner ∧
    cellAt b1 0 0 = Some (flipFlag (mkCell true false false 0)) ∧
    (∀ r' c', (r', c') ≠ (0, 0) → cellAt b1 r' c' = cellAt mineInTheCorner r' c') ∧
    toggleFlag b1 0 0 = Ok mineInTheCorner.
Proof.
  apply (toggleFlag_involutive mineInTheCorner 0 0 (mkCell true false false 0)).
  - reflexivity.
  - reflexivity.
Defined.

(** ** [revealAllMines], further *)

(** X10.  [revealAllMines] returns a board of the same shape where every
    mine is revealed and keeps its other fields, and every other cell is
    as it was; applying it twice is applying it once. *)
Theorem revealAllMines_mines b :
  shape (revealAllMines b) = shape b ∧
  (∀ r c x, cellAt b r c = Some x →
     cellAt (revealAllMines b) r c =
     Some (if isMine x then markRevealed x else x)) ∧
  (∀ r c y, cellAt (revealAllMines b) r c = Some y → isMine y = true →
     isRevealed y = true) ∧
  revealAllMines (revealAllMines b) = revealAllMines b.
Proof.
  split_and!.
  - apply shape_fmap.
  - intros r c x Hx. by rewrite revealAllMines_cellAt, Hx.
  - intros r c y Hy Hm. rewrite revealAllMines_cellAt in Hy.
    destruct (cellAt b r c) as [x|]; simplify_eq/=.
    destruct (isMine x) eqn:Hx; [done|congruence].
  - apply board_ext; [apply shape_fmap|].
    intros r c. rewrite !revealAllMines_cellAt.
    destruct (cellAt b r c) as [x|]; [|done]. simpl. f_equal.
    by destruct (isMine x) eqn:Hm; simpl; rewrite ?Hm.
Qed.

(** ** [placeMines], further *)

Lemma length_slice0_gen l e :
  Z.of_nat (length (slice0 l e)) =
  if decide (e < 0) then Z.max 0 (Z.of_nat (length l) + e)
  else Z.min e (Z.of_nat (length l)).
Proof. unfold slice0. case_decide; rewrite length_take; lia. Qed.

(** The board that [placeMines] returns for a safe cell of a rectangular
    board: its cells, where its mines can be, how many they are. *)
Lemma placeMines_spec rnd b n r c :
  rectangular b → is_Some (cellAt b r c) →
  ∃ b' : Board,
    placeMines rnd b n r c = Ok b' ∧
    shape b' = shape b ∧
    (∀ r' c' x, cellAt b r' c' = Some x →
       ∃ m, cellAt b' r' c' = Some (withMine x m) ∧
            (m = true → (r', c') ≠ (r, c) ∧ ¬ adjacent (r, c) (r', c'))) ∧
    Z.of_nat (mineCells b') =
      (if decide (n < 0)
       then Z.max 0 (Z.of_nat (length (eligible b r c)) + n)
       else Z.min n (Z.of_nat (length (eligible b r c)))).
Proof.
  intros Hrect Hsafe. destruct b as [|row0 rest]; [done|].
  unfold placeMines.
  destruct (neighbors_spec (row0 :: rest) r c Hrect) as (nbrs & -> & Hnbrs).
  cbn [bind].
  pose proof (candidates_eligible row0 rest r c nbrs Hrect Hsafe Hnbrs) as Hcount.
  set (ncols := Z.of_nat (length row0)) in *.
  set (excluded := exclusion ncols r c nbrs) in *.
  set (candidates := filter (λ i, i ∉ excluded)
         (seqZ 0 (Z.of_nat (length (row0 :: rest)) * ncols))) in *.
  set (shuffled := fisherYates rnd (length candidates - 1) candidates).
  set (chosen := slice0 shuffled n).
  assert (shuffled ≡ₚ candidates) as Hperm by by apply fisherYates_perm.
  assert (∀ i, i ∈ chosen → i ∉ excluded) as Hchosen.
  { intros i Hi%slice0_subseteq. rewrite Hperm in Hi.
    by apply list_elem_of_filter in Hi as [? _]. }
  eexists. split; [done|]. split_and!.
  - apply (shape_imap (λ i j cell, withMine cell
      (bool_decide (Z.of_nat i * ncols + Z.of_nat j ∈ (list_to_set chosen : gset Z))))).
  - intros r' c' x Hx.
    rewrite (cellAt_imap (λ i j cell, withMine cell
      (bool_decide (Z.of_nat i * ncols + Z.of_nat j ∈ (list_to_set chosen : gset Z))))).
    rewrite Hx. simpl. eexists. split; [done|].
    pose proof (cellAt_nonneg _ _ _ _ Hx) as [Hr Hc].
    rewrite !Z2Nat.id by done.
    intros Hin%bool_decide_eq_true%elem_of_list_to_set%Hchosen.
    unfold excluded in Hin. rewrite elem_of_exclusion in Hin. split.
    + intros ?. simplify_eq. apply Hin. by left.
    + intros Hadj. apply Hin. right. exists (r', c'). split; [|done].
      apply Hnbrs. split; [done|]. simpl. by rewrite Hx.
  - match goal with |- Z.of_nat (mineCells ?X) = _ =>
      assert (mineCells X =
              length (filter (λ q : Z * Z,
                        bool_decide (q.1 * ncols + q.2 ∈ (list_to_set chosen : gset Z)) = true)
                      (coordsFrom 0 (row0 :: rest)))) as ->
    end.
    { exact (mineCells_imap
        (λ r c, bool_decide (r * ncols + c ∈ (list_to_set chosen : gset Z)))
        (row0 :: rest) 0). }
    pose proof (coordsFrom_pos (length row0) 0 (row0 :: rest) Hrect) as Hpos.
    rewrite Z.mul_0_l in Hpos. fold ncols in Hpos.
    assert (length (filter (λ q : Z * Z,
                      bool_decide (q.1 * ncols + q.2 ∈ (list_to_set chosen : gset Z)) = true)
                    (coordsFrom 0 (row0 :: rest))) =
            length (filter (λ i, i ∈ (list_to_set chosen : gset Z))
                      (seqZ 0 (Z.of_nat (length (row0 :: rest)) * ncols)))) as ->.
    { rewrite <-Hpos, length_filter_fmap. f_equal. apply filter_ext_elem.
      intros q _. apply bool_decide_eq_true. }
    assert (NoDup candidates) as Hnd by (apply NoDup_filter, NoDup_seqZ).
    rewrite length_filter_list_to_set.
    + unfold chosen. rewrite length_slice0_gen, (Permutation_length Hperm), Hcount.
      done.
    + apply (sublist_NoDup chosen shuffled); [by rewrite Hperm|apply slice0_sublist].
    + apply NoDup_seqZ.
    + intros i Hi%slice0_subseteq. rewrite Hperm in Hi.
      by apply list_elem_of_filter in Hi as [_ ?].
Qed.

(** X11.  The Fisher-Yates loop of [placeMines] returns a permutation of
    the list it is given, whatever the random draws: no candidate is lost
    and none is repeated, and the length is kept. *)
Theorem fisherYates_permutation rnd l :
  fisherYates rnd (length l - 1) l ≡ₚ l ∧
  length (fisherYates rnd (length l - 1) l) = length l.
Proof.
  assert (fisherYates rnd (length l - 1) l ≡ₚ l) as Hperm
    by by apply fisherYates_perm.
  split; [done|by rewrite Hperm].
Qed.

(** X12.  For a safe cell of a rectangular board [placeMines] returns a
    board of the same shape whose cells keep [isRevealed], [isFlagged]
    and [adjacentMines]; its mines lie outside the safe cell and its
    neighbors, and the mines the board had before are gone.  Asked for
    more mines than there are positions outside this zone, it puts a mine
    on each of these positions and no more. *)
Theorem placeMines_frame rnd b mineCount safeRow safeCol :
  rectangular b → is_Some (cellAt b safeRow safeCol) → 0 ≤ mineCount →
  ∃ b' : Board,
    placeMines rnd b mineCount safeRow safeCol = Ok b' ∧
    shape b' = shape b ∧
    (∀ r c x, cellAt b r c = Some x →
       ∃ y, cellAt b' r c = Some y ∧
            isRevealed y = isRevealed x ∧ isFlagged y = isFlagged x ∧
            adjacentMines y = adjacentMines x ∧
            (isMine y = true → (r, c) ∈ eligible b safeRow safeCol)) ∧
    Z.of_nat (mineCells b') =
      Z.min mineCount (Z.of_nat (length (eligible b safeRow safeCol))).
Proof.
  intros Hrect Hsafe Hn.
  destruct (placeMines_spec rnd b mineCount safeRow safeCol Hrect Hsafe)
    as (b' & Hrun & Hshape & Hcell & Hcount).
  exists b'. split_and!; [done..| |].
  - intros r c x Hx. destruct (Hcell r c x Hx) as (m & Hy & Hm).
    eexists. split; [done|]. simpl. split_and!; [done..|].
    intros Hmine. apply list_elem_of_filter. split; [by apply Hm|].
    apply elem_of_coords. simpl. by rewrite Hx.
  - by rewrite Hcount, decide_False by lia.
Qed.

Lemma placeMines_frame_witness :
  ∃ b' : Board,
    placeMines halves mineInTheCorner 7 1 1 = Ok b' ∧
    shape b' = shape mineInTheCorner ∧
    (∀ r c x, cellAt mineInTheCorner r c = Some x →
       ∃ y, cellAt b' r c = Some y ∧
            isRevealed y = isRevealed x ∧ isFlagged y = isFlagged x ∧
            adjacentMines y = adjacentMines x ∧
            (isMine y = true → (r, c) ∈ eligible mineInTheCorner 1 1)) ∧
    Z.of_nat (mineCells b') =
      Z.min 7 (Z.of_nat (length (eligible mineInTheCorner 1 1))).
Proof.
  apply (placeMines_frame halves mineInTheCorner 7 1 1).
  - repeat constructor.
  - by eexists.
  - lia.
Defined.

(** ** Invariants of the game *)

Lemma cellAt_makeEmptyBoard n m r c :
  cellAt (makeEmptyBoard n m) r c =
  if decide (0 ≤ r < Z.of_nat n ∧ 0 ≤ c < Z.of_nat m) then Some makeCell else None.
Proof.
  unfold makeEmptyBoard. case_decide as Hd.
  - apply cellAt_Some. split_and!; [lia..|].
    exists (replicate m makeCell). split; apply lookup_replicate; split; (done || lia).
  - destruct (cellAt _ r c) as [x|] eqn:Hx; [|done]. exfalso. apply Hd.
    apply cellAt_Some in Hx as (Hr & Hc & row & Hrow & Hx).
    apply lookup_replicate in Hrow as [-> Hlt].
    apply lookup_replicate in Hx as [_ Hlt']. lia.
Qed.

Lemma shape_makeEmptyBoard n m : shape (makeEmptyBoard n m) = replicate n m.
Proof.
  unfold shape, makeEmptyBoard. rewrite fmap_replicate. by rewrite length_replicate.
Qed.

Lemma mineCells_zero b :
  (∀ r c x, cellAt b r c = Some x → isMine x = false) → mineCells b = 0%nat.
Proof.
  intros Hno. unfold mineCells.
  destruct (filter _ (cells b)) as [|x l] eqn:Hf; [done|].
  assert (x ∈ filter (λ cell, isMine cell = true) (cells b)) as Hin
    by (rewrite Hf; left).
  apply list_elem_of_filter in Hin as [Hmine (r & c & Hx)%elem_of_cells].
  rewrite (Hno _ _ _ Hx) in Hmine. done.
Qed.

Lemma boardRel_mineCells (R : CellState → CellState → Prop) b b' :
  (∀ x y, R x y → isMine y = isMine x) →
  boardRel R b b' → mineCells b' = mineCells b.
Proof.
  intros HR Hrel. unfold mineCells, cells.
  induction Hrel as [|row row' b b' Hrow _ IH]; [done|].
  simpl. rewrite !filter_app, !length_app, IH. f_equal.
  clear IH. induction Hrow as [|x y row row' Hxy _ IH]; [done|].
  rewrite !filter_cons. rewrite (HR _ _ Hxy).
  destruct (decide (isMine x = true)); simpl; by rewrite IH.
Qed.

Lemma boardRel_isMineAt (R : CellState → CellState → Prop) b b' q :
  (∀ x y, R x y → isMine y = isMine x) →
  boardRel R b b' → isMineAt b' q = isMineAt b q.
Proof.
  intros HR Hrel. unfold isMineAt.
  destruct (cellAt b q.1 q.2) as [x|] eqn:Hx.
  - destruct (boardRel_cellAt _ _ _ _ _ _ Hrel Hx) as (y & -> & Hxy). by apply HR.
  - destruct (cellAt b' q.1 q.2) as [y|] eqn:Hy; [|done].
    destruct (boardRel_cellAt_inv _ _ _ _ _ _ Hrel Hy) as (x & Hx' & _). congruence.
Qed.

Lemma boardRel_countsComputed (R : CellState → CellState → Prop) b b' :
  (∀ x y, R x y → sameMines x y) →
  boardRel R b b' → countsComputed b → countsComputed b'.
Proof.
  intros HR Hrel Hcounts r c y Hy.
  destruct (boardRel_cellAt_inv _ _ _ _ _ _ Hrel Hy) as (x & Hx & [Hm Ha]%HR).
  rewrite Hm, Ha, (Hcounts _ _ _ Hx).
  rewrite (mineNeighbors_ext b b'); [done|symmetry; by eapply boardRel_shape|].
  intros q. symmetry. eapply boardRel_isMineAt; [|done].
  intros ?? []%HR. done.
Qed.

Lemma cellUncover_sameMines x y : cellUncover x y → sameMines x y.
Proof. intros [(? & _ & ?) _]. by split. Qed.

Lemma revealAllMines_sameMines b : boardRel sameMines b (revealAllMines b).
Proof.
  apply boardRel_intro.
  - apply (shape_fmap (λ x, if isMine x then markRevealed x else x)).
  - intros r c x Hx. rewrite revealAllMines_cellAt, Hx. simpl.
    eexists. split; [done|]. by destruct (isMine x).
Qed.

(** A flood fill on a board whose counts are those of its mines reaches
    no mine, but the cell it starts from. *)
Lemma floods_mine b start q y :
  countsComputed b → floods b start q →
  cellAt b q.1 q.2 = Some y → isMine y = true → q = start.
Proof.
  intros Hcounts Hfl Hy Hmine.
  inversion Hfl as [Heq|p q' cp cq _ Hcp Hzp Hadj Hcq _ Heq]; [done|]. subst q'.
  rewrite (zeroCell_no_mine_neighbor b p q cp y Hcounts Hcp Hzp Hadj Hy) in Hmine.
  done.
Qed.

Lemma revealCell_mines b r c x :
  rectangular b → countsComputed b → cellAt b r c = Some x →
  ∃ b' : Board,
    revealCell b r c = Ok b' ∧
    boardRel cellUncover b b' ∧
    (isFlagged x = false → ∃ y, cellAt b' r c = Some y ∧ isRevealed y = true) ∧
    ∀ r' c' y', cellAt b' r' c' = Some y' →
      isMine y' = true → isRevealed y' = true →
      (r', c') = (r, c) ∨
      ∃ y, cellAt b r' c' = Some y ∧ isMine y = true ∧ isRevealed y = true.
Proof.
  intros Hrect Hcounts Hx.
  destruct (revealCell_rel b r c x Hrect Hx) as (b' & Hrun & Hrel & Hstart).
  destruct (revealCell_cells b r c x Hrect Hx) as (b'' & Hrun' & _ & Hcells).
  rewrite Hrun in Hrun'. injection Hrun' as <-.
  exists b'. split_and!; [done..|].
  intros r' c' y' Hy' Hmine Hrev.
  destruct (boardRel_cellAt_inv _ _ _ _ _ _ Hrel Hy') as (y & Hy & _).
  destruct (Hcells r' c' y Hy) as (y'' & Hy'' & (Hm & _) & Hiff).
  assert (y'' = y') as -> by congruence.
  destruct (proj1 Hiff Hrev) as [Hrev0|[_ Hfl]].
  - right. exists y. split_and!; [done| |done]. by rewrite <-Hm.
  - left. apply (floods_mine b (r, c) (r', c') y Hcounts Hfl Hy). by rewrite <-Hm.
Qed.

Lemma mineNeighbors_none b p :
  (∀ q, adjacent p q → isMineAt b q = false) → mineNeighbors b p = 0%nat.
Proof.
  intros Hno. unfold mineNeighbors.
  destruct (filter _ (coords b)) as [|q l] eqn:Hf; [done|].
  assert (q ∈ filter (λ q, adjacent p q ∧ isMineAt b q = true) (coords b)) as Hin
    by (rewrite Hf; left).
  apply list_elem_of_filter in Hin as [[Hadj Hmine] _].
  rewrite (Hno q Hadj) in Hmine. done.
Qed.

Lemma coords_length row0 rest :
  rectangular (row0 :: rest) →
  length (coords (row0 :: rest)) = (length (row0 :: rest) * length row0)%nat.
Proof.
  intros Hrect.
  pose proof (coordsFrom_pos (length row0) 0 (row0 :: rest) Hrect) as Hpos.
  apply (f_equal length) in Hpos. rewrite length_fmap, length_seqZ in Hpos.
  unfold coords. lia.
Qed.

(** The exclusion zone of [placeMines] takes at most nine positions. *)
Lemma eligible_length b r c :
  rectangular b → (length (coords b) ≤ length (eligible b r c) + 9)%nat.
Proof.
  intros Hrect.
  destruct (neighbors_spec b r c Hrect) as (nbrs & Hrun & Hnbrs).
  pose proof (neighbors_length b r c nbrs Hrun) as Hlen.
  pose proof (filter_app_complement
    (λ q : Z * Z, q ≠ (r, c) ∧ ¬ adjacent (r, c) q) (coords b)) as Hperm.
  apply Permutation_length in Hperm. rewrite length_app in Hperm.
  fold (eligible b r c) in Hperm.
  assert (length (filter (λ q : Z * Z, ¬ (q ≠ (r, c) ∧ ¬ adjacent (r, c) q)) (coords b))
          ≤ length ((r, c) :: nbrs))%nat as Hzone.
  { apply submseteq_length, NoDup_submseteq.
    - apply NoDup_filter, NoDup_coordsFrom.
    - intros q [Hq Hin]%list_elem_of_filter.
      destruct (decide (q = (r, c))) as [->|Hne]; [left|right].
      apply Hnbrs. split; [|by apply elem_of_coords].
      destruct (decide (adjacent (r, c) q)); [done|]. by destruct Hq. }
  cbn [length] in Hzone. lia.
Qed.

(** The board of a game after the mines of its first reveal are placed
    and counted. *)
Lemma first_reveal_board rnd n m M r c :
  (0 < n)%nat → is_Some (cellAt (makeEmptyBoard n m) r c) →
  0 ≤ M ≤ Z.of_nat n * Z.of_nat m - 9 →
  ∃ b2 : Board,
    (do b1 <- placeMines rnd (makeEmptyBoard n m) M r c;
     do b2 <- computeAdjacent b1;
     Ok (b2, playing)) = Ok (b2, playing) ∧
    shape b2 = replicate n m ∧
    countsComputed b2 ∧
    Z.of_nat (mineCells b2) = M ∧
    (∀ r' c' y, cellAt b2 r' c' = Some y → coveredCell y) ∧
    (∃ x, cellAt b2 r c = Some x ∧ zeroCell x) ∧
    (∀ q y, adjacent (r, c) q → cellAt b2 q.1 q.2 = Some y → isMine y = false).
Proof.
  intros Hn Hsafe HM.
  pose proof (rectangular_makeEmptyBoard n m Hn) as Hrect.
  destruct (placeMines_spec rnd _ M r c Hrect Hsafe)
    as (b1 & -> & Hshape1 & Hcell1 & Hcount1).
  cbn [bind].
  assert (rectangular b1) as Hrect1 by by eapply rectangular_shape.
  destruct (computeAdjacent_spec b1 Hrect1) as (b2 & Hrun2 & Hshape2 & Hcell2).
  rewrite Hrun2. cbn [bind]. exists b2.
  assert (∀ r' c' y, cellAt b2 r' c' = Some y →
            ∃ mn k, y = withAdjacent (withMine makeCell mn) k ∧
                    cellAt b1 r' c' = Some (withMine makeCell mn) ∧
                    (mn = true → (r', c') ≠ (r, c) ∧ ¬ adjacent (r, c) (r', c'))) as Hcells.
  { intros r' c' y Hy. rewrite Hcell2 in Hy.
    destruct (cellAt b1 r' c') as [x1|] eqn:Hx1; [|done]. simpl in Hy.
    destruct (cellAt (makeEmptyBoard n m) r' c') as [x0|] eqn:Hx0.
    - destruct (Hcell1 r' c' x0 Hx0) as (mn & Hx1' & Hmn).
      rewrite cellAt_makeEmptyBoard in Hx0. case_decide; [|done].
      simplify_eq. eauto.
    - assert (is_Some (cellAt (makeEmptyBoard n m) r' c')) as [? ?]; [|congruence].
      apply elem_of_coords with (q := (r', c')).
      rewrite (coords_shape _ b1) by done. apply elem_of_coords. simpl. eauto. }
  assert (∀ q y, adjacent (r, c) q → cellAt b2 q.1 q.2 = Some y → isMine y = false)
    as Hzone.
  { intros [r' c'] y Hadj Hy. destruct (Hcells r' c' y Hy) as (mn & k & -> & _ & Hmn).
    simpl. destruct mn; [|done]. by destruct Hmn. }
  split_and!; [done| | | | | |done].
  - by rewrite Hshape2, Hshape1, shape_makeEmptyBoard.
  - by eapply countsComputed_computeAdjacent.
  - assert (mineCells b2 = mineCells b1) as ->.
    { destruct (computeAdjacent_rel b1 Hrect1) as (b2' & Hrun2' & Hrel).
      assert (b2' = b2) as -> by congruence.
      eapply boardRel_mineCells; [|exact Hrel]. intros x y [k ->]. done. }
    rewrite Hcount1, decide_False by lia.
    pose proof (eligible_length (makeEmptyBoard n m) r c Hrect) as Hlen.
    destruct n as [|n']; [lia|].
    change (makeEmptyBoard (S n') m)
      with (replicate m makeCell :: replicate n' (replicate m makeCell)) in *.
    rewrite coords_length in Hlen by done.
    cbn [length] in Hlen. rewrite !length_replicate in Hlen. lia.
  - intros r' c' y Hy. destruct (Hcells r' c' y Hy) as (mn & k & -> & _). done.
  - destruct Hsafe as [x0 Hx0].
    assert (is_Some (cellAt b2 r c)) as [x Hx].
    { apply elem_of_coords with (q := (r, c)).
      rewrite (coords_shape b2 (makeEmptyBoard n m)) by congruence.
      apply elem_of_coords. simpl. eauto. }
    exists x. split; [done|].
    destruct (Hcells r c x Hx) as (mn & k & Hxeq & Hx1 & Hmn).
    assert (mn = false) as -> by (destruct mn; [by destruct Hmn|done]).
    pose proof Hx as Hx'. rewrite Hcell2, Hx1 in Hx'. simpl in Hx'.
    injection Hx' as <-. split; [|done]. simpl.
    rewrite mineNeighbors_none; [done|].
    intros q Hadj. unfold isMineAt.
    destruct (cellAt b1 q.1 q.2) as [y1|] eqn:Hy1; [|done].
    assert (is_Some (cellAt b2 q.1 q.2)) as [y2 Hy2].
    { rewrite Hcell2, Hy1. simpl. eauto. }
    pose proof (Hzone q y2 Hadj Hy2) as Hm.
    rewrite Hcell2, Hy1 in Hy2. simpl in Hy2. injection Hy2 as <-. done.
Qed.

(** Revealing a covered cell of a board without revealed mine: the cell
    is revealed, and it is the only mine that may be. *)
Lemma reveal_covered b0 r c x0 :
  rectangular b0 → countsComputed b0 → noRevealedMine b0 →
  cellAt b0 r c = Some x0 → isFlagged x0 = false →
  ∃ (b : Board) (hit : CellState),
    revealCell b0 r c = Ok b ∧
    boardRel cellUncover b0 b ∧
    cellAt b r c = Some hit ∧ isRevealed hit = true ∧ isMine hit = isMine x0 ∧
    (isMine x0 = false → noRevealedMine b).
Proof.
  intros Hrect Hcounts Hhidden Hx0 Hflag.
  destruct (revealCell_mines b0 r c x0 Hrect Hcounts Hx0)
    as (b & Hrun & Hrel & Hstart & Hmines).
  destruct (Hstart Hflag) as (hit & Hhit & Hrev).
  destruct (boardRel_cellAt _ _ _ _ _ _ Hrel Hx0) as (hit' & Hhit' & Hun).
  assert (hit' = hit) as -> by congruence.
  destruct Hun as [(Hm & _) _].
  exists b, hit. split_and!; [done..|].
  intros Hsafe r' c' y' Hy' [Hmine' Hrev'].
  destruct (Hmines r' c' y' Hy' Hmine' Hrev') as [?|(y & Hy & ? & ?)].
  - simplify_eq. congruence.
  - by apply (Hhidden r' c' y Hy).
Qed.

Lemma gameInv_init d : gameInv (makeInitialState d).
Proof.
  assert (∀ r c x, cellAt (board (makeInitialState d)) r c = Some x → x = makeCell)
    as Hblank.
  { intros r c x Hx. simpl in Hx. rewrite cellAt_makeEmptyBoard in Hx.
    case_decide; by simplify_eq. }
  assert (∀ r c x, cellAt (board (makeInitialState d)) r c = Some x → isMine x = false)
    as Hno by (intros r c x ->%Hblank; done).
  split; simpl.
  - apply shape_makeEmptyBoard.
  - done.
  - done.
  - split; [by intros [? ?]|done].
  - intros r c x Hx. rewrite (Hblank _ _ _ Hx). simpl.
    rewrite mineNeighbors_none; [done|].
    intros q _. unfold isMineAt.
    destruct (cellAt _ q.1 q.2) as [y|] eqn:Hy; [|done]. by eapply Hno.
  - left. by apply mineCells_zero.
  - intros _ r c x ->%Hblank [? _]. done.
  - done.
  - done.
  - done.
Qed.

(** A state that is not lost, after a state that is not lost. *)
Lemma gameInv_step s s' :
  gameInv s → status s ≠ lost → status s' ≠ lost →
  difficulty s' = difficulty s → startTime s' = startTime s →
  0 ≤ elapsed s' → losingCell s' = losingCell s →
  shape (board s') = shape (board s) →
  countsComputed (board s') →
  (mineCells (board s') = 0%nat ∨
   Z.of_nat (mineCells (board s')) = mines (DIFFICULTIES (difficulty s))) →
  noRevealedMine (board s') →
  (status s' = won →
   checkWin (board s') (mines (DIFFICULTIES (difficulty s))) = true) →
  gameInv s'.
Proof.
  intros Hinv Hst Hst' Hd Htime Hel Hcell Hshape Hcounts Hmines Hhidden Hwon.
  assert (losingCell s = None) as Hnone.
  { destruct (losingCell s) eqn:Hl; [|done]. destruct Hst.
    apply (inv_losingCell s Hinv). by rewrite Hl. }
  split; rewrite ?Hd, ?Htime, ?Hcell; try done.
  - rewrite Hshape. apply (inv_shape s Hinv).
  - apply (inv_startTime s Hinv).
  - rewrite Hnone. split; [by intros [? ?]|done].
  - by rewrite Hnone.
Qed.

(** The state of a lost game. *)
Lemma gameInv_lostState s b p x :
  gameInv s →
  shape b = shape (board s) → countsComputed b →
  (mineCells b = 0%nat ∨
   Z.of_nat (mineCells b) = mines (DIFFICULTIES (difficulty s))) →
  cellAt b p.1 p.2 = Some x → isMine x = true →
  gameInv (lostState s b p).
Proof.
  intros Hinv Hshape Hcounts Hmines Hx Hmine.
  pose proof (revealAllMines_sameMines b) as Hrel.
  split; simpl.
  - rewrite (boardRel_shape _ _ _ Hrel), Hshape. apply (inv_shape s Hinv).
  - apply (inv_startTime s Hinv).
  - apply (inv_elapsed s Hinv).
  - split; [done|by eexists].
  - by apply (boardRel_countsComputed sameMines b).
  - rewrite (boardRel_mineCells sameMines b); [done| |done]. by intros ?? [? _].
  - done.
  - done.
  - intros q [= <-]. rewrite revealAllMines_cellAt, Hx. simpl. rewrite Hmine.
    eexists. split; [done|]. by split.
  - intros _ r c y Hy Hm. rewrite revealAllMines_cellAt in Hy.
    destruct (cellAt b r c) as [y0|] eqn:Hy0; [|done]. simpl in Hy.
    injection Hy as <-. destruct (isMine y0) eqn:Hm0; [done|]. congruence.
Qed.

Lemma uncover_mineCells b b' :
  boardRel cellUncover b b' → mineCells b' = mineCells b.
Proof.
  apply boardRel_mineCells. by intros x y [? _]%cellUncover_sameMines.
Qed.

Lemma uncover_countsComputed b b' :
  boardRel cellUncover b b' → countsComputed b → countsComputed b'.
Proof. apply boardRel_countsComputed, cellUncover_sameMines. Qed.

(** The invariants of a game are kept by every move. *)
Lemma reducer_gameInv rnd s a s' :
  reachable s → gameInv s → reducer rnd s a = Ok s' → gameInv s'.
Proof.
  intros Hreach Hinv Hrun.
  pose proof (reachable_rectangular s Hreach) as Hrect.
  destruct a as [r c|r c|r c| |d|]; simpl in Hrun.
  - (* REVEAL *)
    case_bool_decide as Hgate; [by simplify_eq|].
    assert (status s ≠ lost) as Hnl by tauto.
    destruct (cellAt (board s) r c) as [x|] eqn:Hx;
      unfold readCell at 1 in Hrun; rewrite Hx in Hrun; [|done].
    cbn [bind] in Hrun.
    destruct (isRevealed x) eqn:Hrev; cbn [orb] in Hrun; [by simplify_eq|].
    destruct (isFlagged x) eqn:Hfl; [by simplify_eq|].
    assert (∃ (b0 : Board) (st : GameStatus) (x0 : CellState),
      (if bool_decide (status s = idle)
       then
         do b1 <- placeMines rnd (board s) (mines (DIFFICULTIES (difficulty s))) r c;
         do b2 <- computeAdjacent b1;
         Ok (b2, playing)
       else Ok (board s, status s)) = Ok (b0, st) ∧
      st = playing ∧
      shape b0 = shape (board s) ∧ countsComputed b0 ∧ noRevealedMine b0 ∧
      (mineCells b0 = 0%nat ∨
       Z.of_nat (mineCells b0) = mines (DIFFICULTIES (difficulty s))) ∧
      cellAt b0 r c = Some x0 ∧ isFlagged x0 = false)
      as (b0 & st & x0 & Hplaced & -> & Hshape0 & Hcounts0 & Hhidden0 & Hmines0 & Hx0 & Hfl0).
    { destruct (decide (status s = idle)) as [Hidle|Hidle].
      - rewrite bool_decide_eq_true_2 by done.
        pose proof (reachable_idle s Hreach Hidle) as Hs.
        assert (board s = makeEmptyBoard (rows (DIFFICULTIES (difficulty s)))
                                         (cols (DIFFICULTIES (difficulty s)))) as Hb
          by by rewrite Hs at 1.
        rewrite Hb.
        destruct (first_reveal_board rnd
                    (rows (DIFFICULTIES (difficulty s)))
                    (cols (DIFFICULTIES (difficulty s)))
                    (mines (DIFFICULTIES (difficulty s))) r c)
          as (b2 & -> & Hshape2 & Hcounts2 & Hmines2 & Hcov2 & (x2 & Hx2 & Hz2) & _).
        + by destruct (difficulty s); simpl; lia.
        + rewrite <-Hb. by eexists.
        + by destruct (difficulty s); simpl; lia.
        + exists b2, playing, x2. split_and!; try done.
          * by rewrite Hshape2, shape_makeEmptyBoard.
          * intros r' c' y Hy [_ Hr]. destruct (Hcov2 r' c' y Hy). congruence.
          * by right.
          * by destruct (Hcov2 r c x2 Hx2).
      - rewrite bool_decide_eq_false_2 by done.
        exists (board s), (status s), x. split_and!; try done.
        + destruct (status s); tauto.
        + apply (inv_counts s Hinv).
        + by apply (inv_hidden s Hinv).
        + apply (inv_mines s Hinv). }
    rewrite Hplaced in Hrun. cbn [bind fst snd] in Hrun.
    assert (rectangular b0) as Hrect0 by by eapply rectangular_shape.
    destruct (reveal_covered b0 r c x0 Hrect0 Hcounts0 Hhidden0 Hx0 Hfl0)
      as (b & hit & Hrunb & Hrel & Hhit & Hhrev & Hhmine & Hsafe).
    rewrite Hrunb in Hrun. cbn [bind] in Hrun.
    unfold readCell in Hrun. rewrite Hhit in Hrun. cbn [bind] in Hrun.
    assert (shape b = shape (board s)) as Hshape
      by by rewrite (boardRel_shape _ _ _ Hrel).
    pose proof (uncover_countsComputed _ _ Hrel Hcounts0) as Hcounts.
    rewrite <-(uncover_mineCells _ _ Hrel) in Hmines0.
    destruct (isMine hit) eqn:Hm.
    + injection Hrun as <-.
      by apply (gameInv_lostState s b (r, c) hit).
    + assert (noRevealedMine b) as Hhidden by (apply Hsafe; congruence).
      destruct (checkWin b _) eqn:Hwin; injection Hrun as <-;
        apply (gameInv_step s); simpl; try done.
      all: apply (inv_elapsed s Hinv).
  - (* FLAG *)
    case_bool_decide as Hgate; [by simplify_eq|].
    assert (status s ≠ lost) as Hnl by tauto.
    destruct (cellAt (board s) r c) as [x|] eqn:Hx;
      unfold readCell at 1 in Hrun; rewrite Hx in Hrun; [|done].
    cbn [bind] in Hrun.
    destruct (isRevealed x) eqn:Hrev; [by simplify_eq|].
    destruct (toggleFlag_spec (board s) r c x Hx) as (b' & Hrunb & Hshape & Hcells).
    rewrite Hrunb in Hrun. cbn [bind] in Hrun.
    destruct (readCell b' r c) as [y| |]; [|done..]. cbn [bind] in Hrun.
    injection Hrun as <-.
    assert (boardRel (λ x y, sameMines x y ∧ isRevealed y = isRevealed x) (board s) b')
      as Hrel.
    { apply boardRel_intro; [done|]. intros r' c' z Hz. rewrite Hcells, Hz.
      destruct (decide _); simpl; (eexists; split; [done|]); by repeat split. }
    apply (gameInv_step s); simpl; try done.
    + case_bool_decide; [done|]. done.
    + apply (inv_elapsed s Hinv).
    + eapply boardRel_countsComputed; [|exact Hrel|apply (inv_counts s Hinv)].
      by intros ?? [? _].
    + rewrite (boardRel_mineCells _ _ _ (λ x y (H : sameMines x y ∧ _), proj1 (proj1 H)) Hrel).
      apply (inv_mines s Hinv).
    + intros r' c' z' Hz' [Hm Hr].
      destruct (boardRel_cellAt_inv _ _ _ _ _ _ Hrel Hz') as (z & Hz & [Hsm _] & Hrz).
      apply (inv_hidden s Hinv Hnl r' c' z Hz). split; congruence.
    + case_bool_decide; [done|]. intros Hwon. tauto.
  - (* CHORD *)
    case_bool_decide as Hgate; [by simplify_eq|].
    assert (status s = playing) as Hplay by (destruct (status s); tauto).
    assert (status s ≠ lost) as Hnl by congruence.
    destruct (cellAt (board s) r c) as [x|] eqn:Hx.
    2:{ unfold chordReveal, readCell in Hrun. by rewrite Hx in Hrun. }
    destruct (chordReveal_rel (board s) r c Hrect) as (b & Hrunb & Hrel); [by eexists|].
    rewrite Hrunb in Hrun. cbn [bind] in Hrun.
    assert (shape b = shape (board s)) as Hshape by by eapply boardRel_shape.
    pose proof (uncover_countsComputed _ _ Hrel (inv_counts s Hinv)) as Hcounts.
    pose proof (inv_mines s Hinv) as Hmines.
    rewrite <-(uncover_mineCells _ _ Hrel) in Hmines.
    destruct (scanBoard b 0) as [p|] eqn:Hscan.
    + injection Hrun as <-.
      apply scanBoard_Some in Hscan as (_ & (y & Hy & Hm & _) & _).
      rewrite Z.sub_0_r in Hy.
      by apply (gameInv_lostState s b p y).
    + pose proof (scanBoard_None b 0 Hscan) as Hhidden.
      destruct (checkWin b _) eqn:Hwin; injection Hrun as <-;
        apply (gameInv_step s); simpl; try done.
      all: try apply (inv_elapsed s Hinv).
      congruence.
  - (* NEW_GAME *) injection Hrun as <-. apply gameInv_init.
  - (* SET_DIFFICULTY *) injection Hrun as <-. apply gameInv_init.
  - (* TICK *)
    case_bool_decide as Hgate; injection Hrun as <-; [done|].
    assert (status s = playing) as Hplay by (destruct (status s); tauto).
    pose proof (inv_elapsed s Hinv).
    apply (gameInv_step s); simpl; try done; try congruence; try lia.
    + apply (inv_counts s Hinv).
    + apply (inv_mines s Hinv).
    + apply (inv_hidden s Hinv). congruence.
Qed.

Lemma reachable_gameInv s : reachable s → gameInv s.
Proof.
  induction 1 as [d|rnd s a s' Hreach IH Hrun]; [apply gameInv_init|].
  by eapply reducer_gameInv.
Qed.

(** ** The first reveal, and a reveal on a mine *)

Lemma play_reachable rnd moves : ∀ s s',
  reachable s → play rnd s moves = Ok s' → reachable s'.
Proof.
  induction moves as [|a moves IH]; intros s s' Hreach Hrun; simpl in Hrun.
  - by simplify_eq.
  - destruct (reducer rnd s a) as [s1| |] eqn:Hstep; [|done..].
    cbn [bind] in Hrun. apply (IH s1); [|done]. by eapply reachable_step.
Qed.

(** A flood fill from a cell that is a mine or has a count goes nowhere. *)
Lemma floods_numbered b start x q :
  cellAt b start.1 start.2 = Some x → ¬ zeroCell x →
  floods b start q → q = start.
Proof.
  intros Hx Hnz. induction 1 as [|p q cp cq _ IH Hcp Hzp _ _ _]; [done|].
  subst p. rewrite Hx in Hcp. by simplify_eq.
Qed.

(** X13.  The first reveal of a game is safe: on a new board a [REVEAL]
    at a coordinate of the board places exactly the mines of the
    difficulty, none of them on the cell or around it, reveals the cell
    and its neighbors and no mine, and leaves the game [playing] or
    [won], whatever the random draws. *)
Theorem first_reveal_safe rnd d r c :
  is_Some (cellAt (board (makeInitialState d)) r c) →
  ∃ s',
    reducer rnd (makeInitialState d) (REVEAL r c) = Ok s' ∧
    (status s' = playing ∨ status s' = won) ∧
    Z.of_nat (mineCells (board s')) = mines (DIFFICULTIES d) ∧
    noRevealedMine (board s') ∧
    ∀ q, q = (r, c) ∨ adjacent (r, c) q →
      is_Some (cellAt (board (makeInitialState d)) q.1 q.2) →
      ∃ y, cellAt (board s') q.1 q.2 = Some y ∧
           isRevealed y = true ∧ isMine y = false.
Proof.
  intros Hsafe. pose proof Hsafe as [x Hx].
  cbn [reducer]. rewrite bool_decide_eq_false_2 by (by intros [|]).
  unfold readCell at 1. rewrite Hx. cbn [bind].
  simpl in Hx. rewrite cellAt_makeEmptyBoard in Hx.
  case_decide; [|done]. injection Hx as <-. cbn [makeCell isRevealed isFlagged orb].
  rewrite bool_decide_eq_true_2 by done. cbn [makeInitialState board difficulty].
  destruct (first_reveal_board rnd (rows (DIFFICULTIES d)) (cols (DIFFICULTIES d))
              (mines (DIFFICULTIES d)) r c)
    as (b2 & -> & Hshape2 & Hcounts2 & Hmines2 & Hcov2 & (x2 & Hx2 & Hz2) & Hzone);
    [by destruct d; simpl; lia|done|by destruct d; simpl; lia|].
  cbn [bind fst snd].
  assert (rectangular b2) as Hrect2.
  { apply (rectangular_shape (makeEmptyBoard (rows (DIFFICULTIES d))
                                             (cols (DIFFICULTIES d)))).
    - by rewrite shape_makeEmptyBoard.
    - apply rectangular_makeEmptyBoard. destruct d; simpl; lia. }
  assert (noRevealedMine b2) as Hhidden2.
  { intros r' c' y Hy [_ Hr]. destruct (Hcov2 r' c' y Hy). congruence. }
  destruct (Hcov2 r c x2 Hx2) as [Hrev2 Hfl2].
  destruct (reveal_covered b2 r c x2 Hrect2 Hcounts2 Hhidden2 Hx2 Hfl2)
    as (b & hit & Hrun & Hrel & Hhit & Hhrev & Hhmine & Hhidden).
  destruct (revealCell_cells b2 r c x2 Hrect2 Hx2) as (b' & Hrun' & _ & Hcells).
  assert (b' = b) as -> by congruence.
  rewrite Hrun. cbn [bind]. unfold readCell. rewrite Hhit. cbn [bind].
  destruct Hz2 as [Hzero Hnomine]. rewrite Hhmine, Hnomine.
  assert (∀ q, q = (r, c) ∨ adjacent (r, c) q →
            is_Some (cellAt (makeEmptyBoard (rows (DIFFICULTIES d))
                                            (cols (DIFFICULTIES d))) q.1 q.2) →
            ∃ y, cellAt b q.1 q.2 = Some y ∧ isRevealed y = true ∧ isMine y = false)
    as Hopen.
  { intros q Hq Hon.
    assert (is_Some (cellAt b2 q.1 q.2)) as [y2 Hy2].
    { apply elem_of_coords. apply elem_of_coords in Hon.
      by rewrite (coords_shape b2 (makeEmptyBoard (rows (DIFFICULTIES d))
                                                  (cols (DIFFICULTIES d))))
        by by rewrite shape_makeEmptyBoard. }
    destruct Hq as [->|Hadj].
    - exists hit. split_and!; [done..|congruence].
    - destruct (Hcells q.1 q.2 y2 Hy2) as (y & Hy & (Hm & _) & Hiff).
      exists y. split_and!; [done| |].
      + apply Hiff. right. split; [done|].
        replace (q.1, q.2) with q by by destruct q.
        by apply (floods_step b2 (r, c) (r, c) q x2 y2);
          [constructor|done|done|done|done|apply (Hcov2 _ _ _ Hy2)].
      + rewrite Hm. by apply (Hzone q y2). }
  assert (Z.of_nat (mineCells b) = mines (DIFFICULTIES d)) as Hmines
    by by rewrite (uncover_mineCells _ _ Hrel).
  destruct (checkWin b _); eexists; (split; [done|]); simpl;
    (split_and!; [by (left + right)|done|by apply Hhidden|done]).
Qed.

Lemma first_reveal_safe_witness :
  ∃ s',
    reducer halves (makeInitialState beginner) (REVEAL 4 4) = Ok s' ∧
    (status s' = playing ∨ status s' = won) ∧
    Z.of_nat (mineCells (board s')) = mines (DIFFICULTIES beginner) ∧
    noRevealedMine (board s') ∧
    ∀ q, q = (4, 4) ∨ adjacent (4, 4) q →
      is_Some (cellAt (board (makeInitialState beginner)) q.1 q.2) →
      ∃ y, cellAt (board s') q.1 q.2 = Some y ∧
           isRevealed y = true ∧ isMine y = false.
Proof.
  apply (first_reveal_safe halves beginner 4 4). by eexists.
Defined.

(** X14.  A [REVEAL] on a covered mine of a game that is [playing] loses
    the game: the state is [lost], [losingCell] is the coordinate of the
    move, the counters are kept, and the cells that are revealed are the
    cells that were and the mines, all of them. *)
Theorem reveal_mine_loses rnd s r c x :
  rectangular (board s) → status s = playing →
  cellAt (board s) r c = Some x → isMine x = true → coveredCell x →
  ∃ s',
    reducer rnd s (REVEAL r c) = Ok s' ∧
    status s' = lost ∧ losingCell s' = Some (r, c) ∧
    flagCount s' = flagCount s ∧ elapsed s' = elapsed s ∧
    difficulty s' = difficulty s ∧
    ∀ r' c' y, cellAt (board s) r' c' = Some y →
      ∃ y', cellAt (board s') r' c' = Some y' ∧ sameButRevealed y y' ∧
            (isRevealed y' = true ↔ isRevealed y = true ∨ isMine y = true).
Proof.
  intros Hrect Hplay Hx Hmine [Hrev Hfl].
  cbn [reducer]. rewrite bool_decide_eq_false_2 by (rewrite Hplay; by intros [|]).
  unfold readCell at 1. rewrite Hx. cbn [bind]. rewrite Hrev, Hfl. cbn [orb].
  rewrite bool_decide_eq_false_2 by by rewrite Hplay.
  cbn [bind fst snd].
  destruct (revealCell_cells (board s) r c x Hrect Hx) as (b & -> & _ & Hcells).
  cbn [bind].
  destruct (Hcells r c x Hx) as (hit & Hhit & (Hm & _) & _).
  unfold readCell. rewrite Hhit. cbn [bind]. rewrite Hm, Hmine.
  eexists. split; [done|]. simpl. split_and!; [done..|].
  intros r' c' y Hy. destruct (Hcells r' c' y Hy) as (y' & Hy' & Hsame & Hiff).
  rewrite revealAllMines_cellAt, Hy'. simpl. eexists. split; [done|].
  destruct Hsame as (Hm' & Hf' & Ha').
  destruct (isMine y') eqn:Hmy'.
  - split; [unfold sameButRevealed; simpl; by rewrite Hmy'|].
    simpl. rewrite <-Hm'. tauto.
  - split; [unfold sameButRevealed; by rewrite Hmy'|].
    rewrite Hiff, <-Hm'. split; [|by intros [?|?]; [left|]].
    intros [?|[_ Hfloods]]; [by left|].
    apply (floods_numbered (board s) (r, c) x) in Hfloods; [|done|].
    + simplify_eq. congruence.
    + intros [_ ?]. congruence.
Qed.

Lemma reveal_mine_loses_witness :
  ∃ s',
    reducer halves (mkState mineInTheCorner playing beginner 0 0 None None)
            (REVEAL 0 0) = Ok s' ∧
    status s' = lost ∧ losingCell s' = Some (0, 0) ∧
    flagCount s' = 0 ∧ elapsed s' = 0 ∧ difficulty s' = beginner ∧
    ∀ r' c' y, cellAt mineInTheCorner r' c' = Some y →
      ∃ y', cellAt (board s') r' c' = Some y' ∧ sameButRevealed y y' ∧
            (isRevealed y' = true ↔ isRevealed y = true ∨ isMine y = true).
Proof.
  apply (reveal_mine_loses halves
           (mkState mineInTheCorner playing beginner 0 0 None None) 0 0
           (mkCell true false false 0)).
  - repeat constructor.
  - reflexivity.
  - reflexivity.
  - reflexivity.
  - by split.
Defined.

(** ** What holds in every state of a game *)

(** X15.  In every state of a game the board has the dimensions of the
    difficulty, [startTime] is [null] (no move ever sets it), [elapsed]
    is not negative, and [losingCell] is set exactly when the game is
    [lost]. *)
Theorem reachable_bookkeeping s :
  reachable s →
  shape (board s) =
    replicate (rows (DIFFICULTIES (difficulty s)))
              (cols (DIFFICULTIES (difficulty s))) ∧
  startTime s = None ∧
  0 ≤ elapsed s ∧
  (is_Some (losingCell s) ↔ status s = lost).
Proof.
  intros Hinv%reachable_gameInv.
  split_and!; [apply (inv_shape s Hinv)|apply (inv_startTime s Hinv)|
               apply (inv_elapsed s Hinv)|apply (inv_losingCell s Hinv)].
Qed.

Lemma reachable_bookkeeping_witness :
  ∃ s,
    play halves (makeInitialState beginner) [REVEAL 0 0; TICK; REVEAL 0 3] = Ok s ∧
    status s = lost ∧
    shape (board s) = replicate 9%nat 9%nat ∧
    startTime s = None ∧
    0 ≤ elapsed s ∧
    (is_Some (losingCell s) ↔ status s = lost).
Proof.
  eexists. split; [vm_compute; reflexivity|]. split; [reflexivity|].
  apply (reachable_bookkeeping
           (mkState _ lost beginner 0 1 None (Some (0, 3)))).
  apply (play_reachable halves [REVEAL 0 0; TICK; REVEAL 0 3]
           (makeInitialState beginner)); [apply reachable_init|].
  vm_compute. reflexivity.
Defined.

(** X16.  In every state of a game the counts of the board are those of
    its mines, the board has no mine at all (no reveal yet) or the number
    of mines of the difficulty, and no mine is revealed unless the game
    is [lost]. *)
Theorem reachable_mines s :
  reachable s →
  countsComputed (board s) ∧
  (mineCells (board s) = 0%nat ∨
   Z.of_nat (mineCells (board s)) = mines (DIFFICULTIES (difficulty s))) ∧
  (status s ≠ lost → noRevealedMine (board s)).
Proof.
  intros Hinv%reachable_gameInv.
  split_and!; [apply (inv_counts s Hinv)|apply (inv_mines s Hinv)|
               apply (inv_hidden s Hinv)].
Qed.

Lemma reachable_mines_witness :
  ∃ s,
    reducer halves (makeInitialState beginner) (REVEAL 0 0) = Ok s ∧
    countsComputed (board s) ∧
    (mineCells (board s) = 0%nat ∨
     Z.of_nat (mineCells (board s)) = mines (DIFFICULTIES (difficulty s))) ∧
    (status s ≠ lost → noRevealedMine (board s)).
Proof.
  eexists. split; [vm_compute; reflexivity|].
  apply reachable_mines.
  apply (reachable_step halves (makeInitialState beginner) (REVEAL 0 0));
    [apply reachable_init|].
  vm_compute. reflexivity.
Defined.

(** X17.  In a game that is [won] the revealed cells are as many as the
    cells of the board less the mines of the difficulty and none of them
    is a mine; if the mines were placed, every cell without a mine is
    revealed. *)
Theorem won_game s :
  reachable s → status s = won →
  Z.of_nat (revealedCells (board s)) =
    Z.of_nat (length (cells (board s))) - mines (DIFFICULTIES (difficulty s)) ∧
  noRevealedMine (board s) ∧
  (Z.of_nat (mineCells (board s)) = mines (DIFFICULTIES (difficulty s)) →
   ∀ r c x, cellAt (board s) r c = Some x →
     (isRevealed x = true ↔ isMine x = false)).
Proof.
  intros Hinv%reachable_gameInv Hwon.
  pose proof (inv_won s Hinv Hwon) as Hwin. apply checkWin_true in Hwin.
  assert (noRevealedMine (board s)) as Hhidden
    by (apply (inv_hidden s Hinv); congruence).
  split_and!; [done..|].
  intros Hmines r c x Hx. split.
  { intros Hr. destruct (isMine x) eqn:Hm; [|done].
    by destruct (Hhidden r c x Hx). }
  intros Hm. destruct (isRevealed x) eqn:Hr; [done|]. exfalso.
  pose proof (cells_partition (cells (board s))) as Hpart.
  unfold revealedCells, mineCells in *.
  assert (x ∈ filter (λ x, isMine x = false ∧ isRevealed x = false) (cells (board s)))
    as Hin.
  { apply list_elem_of_filter. split; [done|]. apply elem_of_cells. eauto. }
  destruct (filter (λ x, isMine x = false ∧ isRevealed x = false) (cells (board s)))
    as [|z l] eqn:Hf; [by apply elem_of_nil in Hin|].
  cbn [length] in Hpart.
  assert (Forall (λ x, isMine x = true → isRevealed x = false) (cells (board s)))
    as Hall.
  { apply Forall_forall. intros y (r' & c' & Hy)%elem_of_cells Hmy.
    destruct (isRevealed y) eqn:Hry; [|done]. by destruct (Hhidden r' c' y Hy). }
  specialize (Hpart Hall). lia.
Qed.

Lemma won_game_witness :
  ∃ s,
    play halves (makeInitialState beginner) tenFlagsThenReveal = Ok s ∧
    status s = won ∧
    Z.of_nat (revealedCells (board s)) =
      Z.of_nat (length (cells (board s))) - mines (DIFFICULTIES (difficulty s)) ∧
    noRevealedMine (board s) ∧
    (Z.of_nat (mineCells (board s)) = mines (DIFFICULTIES (difficulty s)) →
     ∀ r c x, cellAt (board s) r c = Some x →
       (isRevealed x = true ↔ isMine x = false)).
Proof.
  eexists. split; [vm_compute; reflexivity|]. split; [reflexivity|].
  apply (won_game (mkState _ won beginner 10 0 None None)); [|reflexivity].
  apply (play_reachable halves tenFlagsThenReveal (makeInitialState beginner));
    [apply reachable_init|].
  vm_compute. reflexivity.
Defined.

(** X18.  In a game that is [lost] the cell of [losingCell] is a revealed
    mine of the board, and every mine of the board is revealed. *)
Theorem lost_game s :
  reachable s → status s = lost →
  (∃ p x, losingCell s = Some p ∧ cellAt (board s) p.1 p.2 = Some x ∧
          isMine x = true ∧ isRevealed x = true) ∧
  ∀ r c x, cellAt (board s) r c = Some x → isMine x = true → isRevealed x = true.
Proof.
  intros Hinv%reachable_gameInv Hlost. split.
  - destruct (proj2 (inv_losingCell s Hinv) Hlost) as [p Hp].
    destruct (inv_lostCell s Hinv p Hp) as (x & Hx & Hm & Hr).
    by exists p, x.
  - by apply (inv_lostAll s Hinv).
Qed.

Lemma lost_game_witness :
  ∃ s,
    play halves (makeInitialState beginner) [REVEAL 0 0; REVEAL 0 3] = Ok s ∧
    (∃ p x, losingCell s = Some p ∧ cellAt (board s) p.1 p.2 = Some x ∧
            isMine x = true ∧ isRevealed x = true) ∧
    ∀ r c x, cellAt (board s) r c = Some x → isMine x = true → isRevealed x = true.
Proof.
  eexists. split; [vm_compute; reflexivity|].
  apply (lost_game (mkState _ lost beginner 0 0 None (Some (0, 3)))); [|reflexivity].
  apply (play_reachable halves [REVEAL 0 0; REVEAL 0 3] (makeInitialState beginner));
    [apply reachable_init|].
  vm_compute. reflexivity.
Defined.

(** ** The moves and the fields of the state *)

(** X19.  The status of a game only moves forward: a move other than
    [NEW_GAME] and [SET_DIFFICULTY] keeps the status, or starts the game
    ([idle] to [playing] or [won], by a [REVEAL] or a [FLAG]), or ends it
    ([playing] to [won] or [lost], by a [REVEAL] or a [CHORD]).  A [FLAG]
    and a [TICK] never end a game. *)
Theorem status_machine rnd s a s' :
  ¬ isReset a → reducer rnd s a = Ok s' →
  status s' = status s ∨
  (status s = idle ∧ (status s' = playing ∨ status s' = won ∨ status s' = lost) ∧
   ((∃ r c, a = REVEAL r c) ∨ (status s' = playing ∧ ∃ r c, a = FLAG r c))) ∨
  (status s = playing ∧ (status s' = won ∨ status s' = lost) ∧
   ((∃ r c, a = REVEAL r c) ∨ (∃ r c, a = CHORD r c))).
Proof.
  intros Hreset Hrun. destruct a as [r c|r c|r c| |d|]; simpl in Hrun; try done.
  - (* REVEAL *)
    case_bool_decide as Hgate; [left; by simplify_eq|].
    destruct (readCell (board s) r c) as [x| |]; [|done..]. cbn [bind] in Hrun.
    destruct (isRevealed x || isFlagged x); [left; by simplify_eq|].
    assert (∀ b st, (st = playing ∧ status s = idle) ∨ (st = status s ∧ status s ≠ idle) →
      (do b' <- revealCell b r c;
       do hit <- readCell b' r c;
       if isMine hit then Ok (lostState s b' (r, c))
       else if checkWin b' (mines (DIFFICULTIES (difficulty s)))
            then Ok (withBoard s b' won)
            else Ok (withBoard s b' st)) = Ok s' →
      status s' = status s ∨
      (status s = idle ∧ (status s' = playing ∨ status s' = won ∨ status s' = lost) ∧
       ((∃ r0 c0, REVEAL r c = REVEAL r0 c0) ∨
        (status s' = playing ∧ ∃ r0 c0, REVEAL r c = FLAG r0 c0))) ∨
      (status s = playing ∧ (status s' = won ∨ status s' = lost) ∧
       ((∃ r0 c0, REVEAL r c = REVEAL r0 c0) ∨ (∃ r0 c0, REVEAL r c = CHORD r0 c0))))
      as Htail.
    { intros b st Hst Htail.
      destruct (revealCell b r c) as [b'| |]; [|done..]. cbn [bind] in Htail.
      destruct (readCell b' r c) as [hit| |]; [|done..]. cbn [bind] in Htail.
      assert (status s = idle ∨ status s = playing) as Hs
        by (destruct (status s); tauto).
      destruct (isMine hit); [|destruct (checkWin b' _)];
        injection Htail as <-; simpl.
      - right. destruct Hs as [Hs|Hs]; [left|right]; by eauto 10.
      - right. destruct Hs as [Hs|Hs]; [left|right]; by eauto 10.
      - destruct Hst as [[-> Hidle]|[-> _]]; [|by left].
        right. left. by eauto 10. }
    case_bool_decide as Hidle.
    + destruct (placeMines _ _ _ _ _) as [b1| |]; [|done..]. cbn [bind] in Hrun.
      destruct (computeAdjacent b1) as [b2| |]; [|done..]. cbn [bind fst snd] in Hrun.
      apply (Htail b2 playing); [by left|done].
    + cbn [bind fst snd] in Hrun. apply (Htail (board s) (status s)); [by right|done].
  - (* FLAG *)
    case_bool_decide as Hgate; [left; by simplify_eq|].
    destruct (readCell (board s) r c) as [x| |]; [|done..]. cbn [bind] in Hrun.
    destruct (isRevealed x); [left; by simplify_eq|].
    destruct (toggleFlag (board s) r c) as [b'| |]; [|done..]. cbn [bind] in Hrun.
    destruct (readCell b' r c) as [y| |]; [|done..]. cbn [bind] in Hrun.
    injection Hrun as <-. simpl. case_bool_decide as Hidle; [|by left].
    right. left. by eauto 10.
  - (* CHORD *)
    case_bool_decide as Hgate; [left; by simplify_eq|].
    assert (status s = playing) as Hplay by (destruct (status s); tauto).
    destruct (chordReveal (board s) r c) as [b| |]; [|done..]. cbn [bind] in Hrun.
    destruct (scanBoard b 0) as [p|]; [|destruct (checkWin b _)];
      injection Hrun as <-; simpl.
    + right. right. by eauto 10.
    + right. right. by eauto 10.
    + by left.
  - (* TICK *)
    case_bool_decide; injection Hrun as <-; by left.
Qed.

Lemma status_machine_witness :
  ∃ s',
    reducer halves (makeInitialState beginner) (FLAG 0 0) = Ok s' ∧
    (status s' = status (makeInitialState beginner) ∨
     (status (makeInitialState beginner) = idle ∧
      (status s' = playing ∨ status s' = won ∨ status s' = lost) ∧
      ((∃ r c, FLAG 0 0 = REVEAL r c) ∨
       (status s' = playing ∧ ∃ r c, FLAG 0 0 = FLAG r c))) ∨
     (status (makeInitialState beginner) = playing ∧
      (status s' = won ∨ status s' = lost) ∧
      ((∃ r c, FLAG 0 0 = REVEAL r c) ∨ (∃ r c, FLAG 0 0 = CHORD r c)))).
Proof.
  eexists. split; [reflexivity|].
  apply (status_machine halves (makeInitialState beginner) (FLAG 0 0)).
  - intros H. exact H.
  - reflexivity.
Defined.

(** X20.  A move other than [NEW_GAME] and [SET_DIFFICULTY] keeps the
    difficulty and [startTime]; only a [TICK] changes [elapsed], only a
    [FLAG] changes [flagCount], by one, and only a move that loses the
    game changes [losingCell]. *)
Theorem reducer_fields rnd s a s' :
  ¬ isReset a → reducer rnd s a = Ok s' →
  difficulty s' = difficulty s ∧ startTime s' = startTime s ∧
  (elapsed s' = elapsed s ∨ (a = TICK ∧ elapsed s' = elapsed s + 1)) ∧
  (flagCount s' = flagCount s ∨
   ((∃ r c, a = FLAG r c) ∧
    (flagCount s' = flagCount s + 1 ∨ flagCount s' = flagCount s - 1))) ∧
  (losingCell s' = losingCell s ∨
   (status s' = lost ∧ status s ≠ lost ∧ is_Some (losingCell s'))).
Proof.
  intros Hreset Hrun. destruct a as [r c|r c|r c| |d|]; simpl in Hrun; try done.
  - (* REVEAL *)
    case_bool_decide as Hgate; [simplify_eq; tauto|].
    destruct (readCell (board s) r c) as [x| |]; [|done..]. cbn [bind] in Hrun.
    destruct (isRevealed x || isFlagged x); [simplify_eq; tauto|].
    destruct (if bool_decide (status s = idle) then _ else _) as [[b0 st]| |];
      [|done..].
    cbn [bind fst snd] in Hrun.
    destruct (revealCell b0 r c) as [b'| |]; [|done..]. cbn [bind] in Hrun.
    destruct (readCell b' r c) as [hit| |]; [|done..]. cbn [bind] in Hrun.
    destruct (isMine hit); [|destruct (checkWin b' _)];
      injection Hrun as <-; simpl; split_and!; try tauto.
    right. split_and!; [done|tauto|by eexists].
  - (* FLAG *)
    case_bool_decide as Hgate; [simplify_eq; tauto|].
    destruct (readCell (board s) r c) as [x| |]; [|done..]. cbn [bind] in Hrun.
    destruct (isRevealed x); [simplify_eq; tauto|].
    destruct (toggleFlag (board s) r c) as [b'| |]; [|done..]. cbn [bind] in Hrun.
    destruct (readCell b' r c) as [y| |]; [|done..]. cbn [bind] in Hrun.
    injection Hrun as <-. simpl. split_and!; try tauto.
    right. split; [by eauto|]. destruct (isFlagged y); [by left|right; lia].
  - (* CHORD *)
    case_bool_decide as Hgate; [simplify_eq; tauto|].
    assert (status s = playing) as Hplay by (destruct (status s); tauto).
    destruct (chordReveal (board s) r c) as [b| |]; [|done..]. cbn [bind] in Hrun.
    destruct (scanBoard b 0) as [p|]; [|destruct (checkWin b _)];
      injection Hrun as <-; simpl; split_and!; try tauto.
    right. split_and!; [done|congruence|by eexists].
  - (* TICK *)
    case_bool_decide; injection Hrun as <-; simpl; split_and!; tauto.
Qed.

Lemma reducer_fields_witness :
  ∃ s',
    reducer halves chordState (CHORD 0 1) = Ok s' ∧
    difficulty s' = difficulty chordState ∧ startTime s' = startTime chordState ∧
    (elapsed s' = elapsed chordState ∨
     (CHORD 0 1 = TICK ∧ elapsed s' = elapsed chordState + 1)) ∧
    (flagCount s' = flagCount chordState ∨
     ((∃ r c, CHORD 0 1 = FLAG r c) ∧
      (flagCount s' = flagCount chordState + 1 ∨
       flagCount s' = flagCount chordState - 1))) ∧
    (losingCell s' = losingCell chordState ∨
     (status s' = lost ∧ status chordState ≠ lost ∧ is_Some (losingCell s'))).
Proof.
  eexists. split; [vm_compute; reflexivity|].
  apply (reducer_fields halves chordState (CHORD 0 1)).
  - intros H. exact H.
  - vm_compute. reflexivity.
Defined.

(** ** New boards, flags and chords *)

(** X21.  [makeEmptyBoard] builds a board of the given dimensions whose
    cells are all covered, without mine, flag or count; it has a cell at
    a coordinate exactly when the coordinate is within the dimensions. *)
Theorem makeEmptyBoard_blank nrows ncols :
  shape (makeEmptyBoard nrows ncols) = replicate nrows ncols ∧
  (∀ r c, cellAt (makeEmptyBoard nrows ncols) r c =
     if decide (0 ≤ r < Z.of_nat nrows ∧ 0 ≤ c < Z.of_nat ncols)
     then Some makeCell else None) ∧
  mineCells (makeEmptyBoard nrows ncols) = 0%nat ∧
  flaggedCells (makeEmptyBoard nrows ncols) = 0%nat ∧
  countsComputed (makeEmptyBoard nrows ncols).
Proof.
  assert (∀ r c x, cellAt (makeEmptyBoard nrows ncols) r c = Some x → x = makeCell)
    as Hblank.
  { intros r c x Hx. rewrite cellAt_makeEmptyBoard in Hx. case_decide; by simplify_eq. }
  split_and!.
  - apply shape_makeEmptyBoard.
  - apply cellAt_makeEmptyBoard.
  - apply mineCells_zero. by intros r c x ->%Hblank.
  - apply flaggedCells_makeEmptyBoard.
  - intros r c x Hx. rewrite (Hblank _ _ _ Hx). simpl.
    rewrite mineNeighbors_none; [done|]. intros q _. unfold isMineAt.
    destruct (cellAt _ q.1 q.2) as [y|] eqn:Hy; [|done]. by rewrite (Hblank _ _ _ Hy).
Qed.

(** X22.  [toggleFlag] on a covered cell changes the number of flags of
    the board by one, down when the cell was flagged and up when it was
    not; the mines stay, and the counts stay those of the mines. *)
Theorem toggleFlag_counts b r c x :
  cellAt b r c = Some x → isRevealed x = false →
  ∃ b' : Board,
    toggleFlag b r c = Ok b' ∧
    Z.of_nat (flaggedCells b') =
      Z.of_nat (flaggedCells b) + (if isFlagged x then -1 else 1) ∧
    mineCells b' = mineCells b ∧
    (countsComputed b → countsComputed b').
Proof.
  intros Hx Hrev.
  destruct (toggleFlag_spec b r c x Hx) as (b' & Hrun & Hshape & Hcells).
  assert (∀ r' c', cellAt b' r' c' =
            if decide ((r', c') = (r, c)) then flipFlag <$> cellAt b r' c'
            else cellAt b r' c') as Hcells'.
  { intros r' c'. rewrite Hcells.
    destruct (decide ((r', c') = (r, c) ∧ isRevealed x = false)) as [[? _]|Hn];
      destruct (decide ((r', c') = (r, c))); try done. by destruct Hn. }
  assert (boardRel sameMines b b') as Hrel.
  { apply boardRel_intro; [done|]. intros r' c' z Hz. rewrite Hcells', Hz.
    destruct (decide _); simpl; (eexists; split; [done|]); by split. }
  exists b'. split_and!; [done| | |].
  - by apply (flaggedCells_toggle b b' r c x).
  - apply (boardRel_mineCells sameMines); [|done]. by intros ?? [? _].
  - by apply (boardRel_countsComputed sameMines).
Qed.

Lemma toggleFlag_counts_witness :
  ∃ b' : Board,
    toggleFlag flagInTheMiddle 0 1 = Ok b' ∧
    Z.of_nat (flaggedCells b') = Z.of_nat (flaggedCells flagInTheMiddle) + -1 ∧
    mineCells b' = mineCells flagInTheMiddle ∧
    (countsComputed flagInTheMiddle → countsComputed b').
Proof.
  apply (toggleFlag_counts flagInTheMiddle 0 1 flaggedCell); reflexivity.
Defined.





(** ** The displays of the HUD *)

Lemma padStart_threeDigits k :
  0 ≤ k ≤ 999 → padStart (pretty k) 3 = threeDigits k.
Proof.
  intros Hk.
  assert (forallb (λ k, bool_decide (padStart (pretty k) 3 = threeDigits k))
                  (seqZ 0 1000) = true) as Hall by (vm_compute; reflexivity).
  rewrite forallb_forall in Hall.
  specialize (Hall k). rewrite bool_decide_eq_true in Hall. apply Hall.
  apply list_elem_of_In, elem_of_seqZ. lia.
Qed.

Lemma padStart_twoDigits k :
  0 ≤ k ≤ 99 → padStart (pretty k) 2 = twoDigits k.
Proof.
  intros Hk.
  assert (forallb (λ k, bool_decide (padStart (pretty k) 2 = twoDigits k))
                  (seqZ 0 100) = true) as Hall by (vm_compute; reflexivity).
  rewrite forallb_forall in Hall.
  specialize (Hall k). rewrite bool_decide_eq_true in Hall. apply Hall.
  apply list_elem_of_In, elem_of_seqZ. lia.
Qed.

(** X24.  [pad3] shows every integer with three digits: the number
    itself, with its leading zeros, from 0 to 999, [000] below and [999]
    above.  The mine counter thus shows [000] when there are more flags
    than mines. *)
Theorem pad3_display n :
  pad3 n = threeDigits (Z.min 999 (Z.max 0 n)) ∧
  String.length (pad3 n) = 3%nat ∧
  (∀ s, mines (DIFFICULTIES (difficulty s)) ≤ flagCount s →
     pad3 (minesRemaining s) = "000").
Proof.
  assert (∀ m, pad3 m = threeDigits (Z.min 999 (Z.max 0 m))) as Hpad
    by (intros m; apply padStart_threeDigits; lia).
  split_and!; [done| |].
  - rewrite Hpad. done.
  - intros s Hs. rewrite Hpad. unfold minesRemaining.
    by replace (Z.min 999 (Z.max 0 (mines (DIFFICULTIES (difficulty s)) - flagCount s)))
      with 0 by lia.
Qed.

(** X25.  [formatTime] shows a number of seconds that is not negative as
    minutes and seconds of two digits each, and stops at [16:39], the
    999th second. *)
Theorem formatTime_display seconds :
  0 ≤ seconds →
  formatTime seconds =
    twoDigits (Z.min 999 seconds / 60) +:+ ":" +:+
    twoDigits (Z.min 999 seconds mod 60) ∧
  String.length (formatTime seconds) = 5%nat ∧
  (999 ≤ seconds → formatTime seconds = "16:39").
Proof.
  intros Hs.
  assert (formatTime seconds =
          twoDigits (Z.min 999 seconds / 60) +:+ ":" +:+
          twoDigits (Z.min 999 seconds mod 60)) as Hfmt.
  { unfold formatTime. cbv zeta.
    rewrite Z.rem_mod_nonneg by lia.
    rewrite !padStart_twoDigits; [done| |].
    - pose proof (Z.mod_pos_bound (Z.min 999 seconds) 60). lia.
    - split; [apply Z.div_pos; lia|].
      assert (Z.min 999 seconds / 60 ≤ 999 / 60) by (apply Z.div_le_mono; lia).
      change (999 / 60) with 16 in *. lia. }
  split_and!; [done| |].
  - rewrite Hfmt. done.
  - intros Hbig. rewrite Hfmt. by replace (Z.min 999 seconds) with 999 by lia.
Qed.

Lemma formatTime_display_witness :
  formatTime 75 = "01:15" ∧
  String.length (formatTime 75) = 5%nat ∧
  (999 ≤ 75 → formatTime 75 = "16:39").
Proof. apply (formatTime_display 75). lia. Defined.

(** ** The clicks on a cell *)

(** X26.  The reducer never throws on a click and never ignores a reveal
    or a flag that the board dispatches: for a cell of a rectangular
    board, the action of a left or right click is processed; after the
    [REVEAL] of a left click the cell is revealed, after the [FLAG] of a
    right click the flag of the cell is flipped and [flagCount] has moved
    by one. *)
Theorem click_dispatch rnd s r c x a :
  rectangular (board s) → cellAt (board s) r c = Some x →
  handleClick (gameOver s) x r c = Some a ∨
  handleRightClick (gameOver s) x r c = Some a →
  ∃ s',
    reducer rnd s a = Ok s' ∧
    match a with
    | REVEAL _ _ => ∃ y, cellAt (board s') r c = Some y ∧ isRevealed y = true
    | FLAG _ _ =>
        cellAt (board s') r c = Some (flipFlag x) ∧
        flagCount s' = flagCount s + (if isFlagged x then -1 else 1)
    | _ => True
    end.
Proof.
  intros Hrect Hx Hclick.
  assert (gameOver s = false → ¬ (status s = won ∨ status s = lost)) as Hover.
  { unfold gameOver. intros Hf [Hs|Hs]; rewrite Hs in Hf; done. }
  destruct Hclick as [Hclick|Hclick].
  - unfold handleClick in Hclick.
    destruct (gameOver s) eqn:Hgo; [done|]. specialize (Hover eq_refl).
    destruct (isRevealed x) eqn:Hrev; cbn [negb andb] in Hclick.
    { case_bool_decide; [|done]. injection Hclick as <-.
      destruct (reducer_total rnd s (CHORD r c) Hrect) as [s' Hs']; [by eexists|].
      by exists s'. }
    destruct (isFlagged x) eqn:Hfl; cbn [negb] in Hclick; [done|].
    injection Hclick as <-.
    cbn [reducer]. rewrite bool_decide_eq_false_2 by done.
    unfold readCell at 1. rewrite Hx. cbn [bind]. rewrite Hrev, Hfl. cbn [orb].
    destruct (reveal_prepares rnd s r c Hrect) as (b0 & st & -> & Hrel0).
    cbn [bind fst snd].
    destruct (boardRel_cellAt _ _ _ _ _ _ Hrel0 Hx) as (x0 & Hx0 & Hfl0 & _).
    destruct (revealCell_rel b0 r c x0) as (b & -> & Hrel & Hstart);
      [by eapply boardRel_rectangular|done|].
    cbn [bind].
    destruct Hstart as (hit & Hhit & Hhrev); [congruence|].
    unfold readCell. rewrite Hhit. cbn [bind].
    destruct (isMine hit) eqn:Hm; [|destruct (checkWin b _)];
      (eexists; split; [done|]); simpl; [|by eauto..].
    rewrite revealAllMines_cellAt, Hhit. simpl. rewrite Hm. by eexists.
  - unfold handleRightClick in Hclick.
    destruct (gameOver s) eqn:Hgo; [done|]. specialize (Hover eq_refl).
    destruct (isRevealed x) eqn:Hrev; [done|]. injection Hclick as <-.
    cbn [reducer]. rewrite bool_decide_eq_false_2 by done.
    unfold readCell at 1. rewrite Hx. cbn [bind]. rewrite Hrev.
    destruct (toggleFlag_spec (board s) r c x Hx) as (b' & -> & _ & Hcells).
    cbn [bind].
    assert (cellAt b' r c = Some (flipFlag x)) as Hx'.
    { rewrite Hcells, Hx. by rewrite decide_True. }
    unfold readCell. rewrite Hx'. cbn [bind].
    eexists. split; [done|]. simpl. split; [done|]. by destruct (isFlagged x).
Qed.

Lemma click_dispatch_witness :
  ∃ s',
    reducer halves (makeInitialState beginner) (REVEAL 0 0) = Ok s' ∧
    ∃ y, cellAt (board s') 0 0 = Some y ∧ isRevealed y = true.
Proof.
  apply (click_dispatch halves (makeInitialState beginner) 0 0 makeCell (REVEAL 0 0)).
  - apply rectangular_makeEmptyBoard. simpl. lia.
  - reflexivity.
  - left. reflexivity.
Defined.

(** ** The rendering of a cell *)

(** X27.  What the board shows in a state of a game: a bomb only when the
    game is [lost]; a number only on a cell without a mine, namely the
    number of the mines around it, from 1 to 8; the class of the losing
    cell only on the revealed mine that [losingCell] names, in a game
    that is [lost]. *)
Theorem cell_rendering s r c x :
  reachable s → cellAt (board s) r c = Some x →
  (content x = mineIcon → status s = lost) ∧
  (∀ n, content x = numberOf n →
     isMine x = false ∧ n = Z.of_nat (mineNeighbors (board s) (r, c)) ∧ 1 ≤ n ≤ 8) ∧
  (cellClass x (isLosingCell (losingCell s) r c) = cell_mine_loss →
     status s = lost ∧ losingCell s = Some (r, c) ∧ content x = mineIcon).
Proof.
  intros Hreach Hx. pose proof (reachable_gameInv s Hreach) as Hinv.
  pose proof (reachable_rectangular s Hreach) as Hrect.
  unfold content, cellClass. split_and!.
  - destruct (isFlagged x && negb (isRevealed x)); [done|].
    destruct (isRevealed x) eqn:Hrev; [|done].
    destruct (isMine x) eqn:Hm; [|by case_bool_decide].
    intros _. destruct (decide (status s = lost)) as [|Hnl]; [done|].
    by destruct (inv_hidden s Hinv Hnl r c x Hx).
  - intros n. destruct (isFlagged x && negb (isRevealed x)); [done|].
    destruct (isRevealed x) eqn:Hrev; [|done].
    destruct (isMine x) eqn:Hm; [done|].
    case_bool_decide as Hpos; [|done]. intros [= <-].
    pose proof (inv_counts s Hinv r c x Hx) as Hcount. rewrite Hm in Hcount.
    pose proof (mineNeighbors_le (board s) (r, c) Hrect).
    split_and!; [done|done|lia|lia].
  - destruct (isRevealed x) eqn:Hrev; [|done].
    destruct (losingCell s) as [[lr lc]|] eqn:Hl; simpl; [|done].
    case_bool_decide as Hr; [|done]. case_bool_decide as Hc; [|done].
    intros _. subst lr lc.
    destruct (inv_lostCell s Hinv (r, c) Hl) as (y & Hy & Hm & _).
    simpl in Hy. assert (y = x) as -> by congruence.
    split_and!; [|done|].
    + apply (inv_losingCell s Hinv). by rewrite Hl.
    + rewrite Hm. by rewrite andb_false_r.
Qed.

Lemma cell_rendering_witness :
  ∃ s x,
    play halves (makeInitialState beginner) [REVEAL 0 0; REVEAL 0 3] = Ok s ∧
    cellAt (board s) 0 3 = Some x ∧
    content x = mineIcon ∧
    cellClass x (isLosingCell (losingCell s) 0 3) = cell_mine_loss ∧
    (content x = mineIcon → status s = lost) ∧
    (∀ n, content x = numberOf n →
       isMine x = false ∧ n = Z.of_nat (mineNeighbors (board s) (0, 3)) ∧ 1 ≤ n ≤ 8) ∧
    (cellClass x (isLosingCell (losingCell s) 0 3) = cell_mine_loss →
       status s = lost ∧ losingCell s = Some (0, 3) ∧ content x = mineIcon).
Proof.
  do 2 eexists. split; [vm_compute; reflexivity|].
  split; [vm_compute; reflexivity|]. split; [reflexivity|]. split; [reflexivity|].
  apply (cell_rendering (mkState _ lost beginner 0 0 None (Some (0, 3))) 0 3).
  - apply (play_reachable halves [REVEAL 0 0; REVEAL 0 3] (makeInitialState beginner));
      [apply reachable_init|].
    vm_compute. reflexivity.
  - vm_compute. reflexivity.
Defined.
